(** * The contact-sheet compositor of manim-skill, embedded and verified

    Source: [manim-skill/scripts/make_contact_sheet.py].

    The script samples an ordered list of PNG frames down to a grid,
    lays the sampled frames out row by row and writes one image.  The
    embedding below follows the script function by function:

    - [Py]: the fragments of the Python runtime the script relies on
      (exceptions, [int / int], [int * float], [round], [int(float)],
      [str.lower], [str.split], [int(str, base)], list indexing,
      [sorted], the [.2f] format).  Floats are IEEE 754 binary64 values
      of the standard library's [spec_float]; nothing is idealised to
      real arithmetic.
    - [PyPath]: POSIX paths as [pathlib] builds and prints them.
    - [Sheet]: [parse_grid], [hex_to_rgb] and [main], the latter as a
      program in a state-and-exception monad over an explicit world
      (directory listing, decoder, installed tools) that logs every
      interaction with the outside.

    Conventions of the model:
    - strings are sequences of code points below 256, and [str.lower]
      and digits are those of that range; the whitespace [int] accepts
      around a literal is TAB to CR, the space and the code points 133
      and 160, and no other character;
    - file names match [*.png] by their exact suffix, as on a file
      system with case-sensitive names;
    - the interpreter's optional limit on the length of a decimal
      literal passed to [int] is not modelled;
    - the world of a run is the frame directory, by entry names, with
      what the decoder makes of each entry; a write that succeeds makes
      the output file an entry of it, and a write that fails leaves
      what the machine says it leaves: nothing, or a file at the output
      path, whole or damaged;
    - [Path.resolve] always has an answer, given by the machine. *)

From Stdlib Require Import ZArith List String Ascii Bool Lia.
From Stdlib Require Import QArith Qabs Qpower Lqa Permutation Sorted DecimalString.
From Stdlib Require Import Floats.SpecFloat.
Import ListNotations.
Local Open Scope Z_scope.

(* ================================================================== *)
(** * Part I: definitions *)
(* ================================================================== *)

Module Py.

(** ** Exceptions and the result of a computation that may raise *)

Inductive exn : Type :=
| SystemExit (msg : string)
| ValueError (msg : string)
| IndexError
| ZeroDivisionError
| OverflowError
| OSError
| CalledProcessError.

Inductive result (A : Type) : Type :=
| Ok (a : A)
| Raise (e : exn).
Arguments Ok {A} a.
Arguments Raise {A} e.

Definition bind {A B} (c : result A) (k : A -> result B) : result B :=
  match c with
  | Ok a => k a
  | Raise e => Raise e
  end.

Declare Scope py_scope.
Delimit Scope py_scope with py.
Notation "x <- c ;; k" := (bind c (fun x => k))
  (at level 61, c at next level, right associativity) : py_scope.
Local Open Scope py_scope.

(** A list comprehension whose element expression may raise: elements
    are evaluated left to right and the first exception escapes. *)
Fixpoint mapM {A B} (f : A -> result B) (l : list A) : result (list B) :=
  match l with
  | [] => Ok []
  | a :: l' => b <- f a ;; bs <- mapM f l' ;; Ok (b :: bs)
  end.

(** ** Lists *)

(** [range(n)] *)
Definition range (n : Z) : list Z := map Z.of_nat (seq 0 (Z.to_nat n)).

(** [l[i]]: a negative index counts from the end, anything outside
    raises [IndexError]. *)
Definition getitem {A} (l : list A) (i : Z) : result A :=
  let n := Z.of_nat (List.length l) in
  let j := if i <? 0 then i + n else i in
  if (0 <=? j) && (j <? n) then
    match nth_error l (Z.to_nat j) with
    | Some a => Ok a
    | None => Raise IndexError
    end
  else Raise IndexError.

(** [max(...)] over a sequence of integers; empty sequences raise. *)
Definition py_max (l : list Z) : result Z :=
  match l with
  | [] => Raise (ValueError "max() iterable argument is empty")
  | x :: l' => Ok (fold_left Z.max l' x)
  end.

(** [a // b] and [a % b] on integers: the quotient rounded towards
    minus infinity and the remainder with the sign of the divisor. *)
Definition floordiv (a b : Z) : result Z :=
  if b =? 0 then Raise ZeroDivisionError else Ok (a / b).

Definition modulo (a b : Z) : result Z :=
  if b =? 0 then Raise ZeroDivisionError else Ok (a mod b).

(** [enumerate(l)] *)
Fixpoint enumerate_from {A} (i : Z) (l : list A) : list (Z * A) :=
  match l with
  | [] => []
  | a :: l' => (i, a) :: enumerate_from (i + 1) l'
  end.
Definition enumerate {A} (l : list A) : list (Z * A) := enumerate_from 0 l.

(** ** Floats

    A Python [float] is a binary64 value. *)

Definition prec : Z := 53.
Definition emax : Z := 1024.
Definition float : Type := spec_float.

(** An integer as the exact (not yet rounded) operand of a division. *)
Definition Z2SF (z : Z) : float :=
  match z with
  | Z0 => S754_zero false
  | Zpos p => S754_finite false p 0
  | Zneg p => S754_finite true p 0
  end.

(** [float(i)], the conversion an [int] undergoes when it meets a
    [float] in an arithmetic expression: correctly rounded, and an
    error when the integer is beyond the finite range. *)
Definition float_of_int (i : Z) : result float :=
  match binary_normalize prec emax i 0 false with
  | S754_infinity _ => Raise OverflowError
  | f => Ok f
  end.

(** [a / b] on two [int]s: the correctly rounded quotient. *)
Definition true_div (a b : Z) : result float :=
  if b =? 0 then Raise ZeroDivisionError
  else match SFdiv prec emax (Z2SF a) (Z2SF b) with
       | S754_infinity _ => Raise OverflowError
       | f => Ok f
       end.

(** [i * x] for an [int] [i] and a [float] [x]. *)
Definition mul_int_float (i : Z) (x : float) : result float :=
  fi <- float_of_int i ;; Ok (SFmul prec emax fi x).

(** The integer nearest to [m * 2^e], ties going to the even one. *)
Definition round_half_even (m : positive) (e : Z) : Z :=
  match e with
  | Z0 => Zpos m
  | Zpos _ => Zpos m * 2 ^ e
  | Zneg p =>
      let d := 2 ^ Zpos p in
      let q := Zpos m / d in
      let r := Zpos m mod d in
      match 2 * r ?= d with
      | Lt => q
      | Gt => q + 1
      | Eq => if Z.even q then q else q + 1
      end
  end.

(** [round(x)] on a [float] (one argument): an [int]. *)
Definition round_float (x : float) : result Z :=
  match x with
  | S754_zero _ => Ok 0
  | S754_finite s m e => Ok (cond_Zopp s (round_half_even m e))
  | S754_infinity _ => Raise OverflowError
  | S754_nan => Raise (ValueError "cannot convert float NaN to integer")
  end.

(** [int(x)] on a [float]: truncation towards zero. *)
Definition int_of_float (x : float) : result Z :=
  match x with
  | S754_zero _ => Ok 0
  | S754_finite s m e => Ok (cond_Zopp s (Z.shiftl (Zpos m) e))
  | S754_infinity _ => Raise OverflowError
  | S754_nan => Raise (ValueError "cannot convert float NaN to integer")
  end.

(** A value that is an [int] on one path and a [float] on another. *)
Inductive num : Type :=
| Int (z : Z)
| Float (x : float).

Definition int_mul (i : Z) (y : num) : result num :=
  match y with
  | Int z => Ok (Int (i * z))
  | Float x => p <- mul_int_float i x ;; Ok (Float p)
  end.

(** [int(round(y))] *)
Definition int_round (y : num) : result Z :=
  match y with
  | Int z => Ok z
  | Float x => round_float x
  end.

(** ** Strings *)

Local Open Scope string_scope.

Definition code (c : ascii) : Z := Z.of_N (N_of_ascii c).

Definition lower_char (c : ascii) : ascii :=
  let n := code c in
  if (((65 <=? n) && (n <=? 90))
      || ((192 <=? n) && (n <=? 222) && negb (n =? 215)))%Z
  then ascii_of_N (Z.to_N (n + 32))
  else c.

(** [s.lower()] *)
Fixpoint lower (s : string) : string :=
  match s with
  | EmptyString => EmptyString
  | String c s' => String (lower_char c) (lower s')
  end.

(** [s.split(sep)] for a one-character separator. *)
Fixpoint split (sep : ascii) (s : string) : list string :=
  match s with
  | EmptyString => [EmptyString]
  | String c s' =>
      if Ascii.eqb c sep then EmptyString :: split sep s'
      else match split sep s' with
           | [] => [String c EmptyString]
           | w :: ws => String c w :: ws
           end
  end.

(** [s.lstrip(c)] for a one-character set. *)
Fixpoint lstrip_char (c : ascii) (s : string) : string :=
  match s with
  | String a s' => if Ascii.eqb a c then lstrip_char c s' else s
  | EmptyString => EmptyString
  end.

(** The whitespace [int] skips around a literal: the ASCII whitespace
    and, of the other code points below 256, the two that are Unicode
    whitespace.  The separators 28 to 31 are not among them. *)
Definition is_space (c : ascii) : bool :=
  let n := code c in
  (((9 <=? n) && (n <=? 13)) || (n =? 32)
   || (n =? 133) || (n =? 160))%Z.

(** The literal without the whitespace before it, and without the
    whitespace around it, as [int] sees it. *)
Fixpoint lstrip (s : string) : string :=
  match s with
  | String a s' => if is_space a then lstrip s' else s
  | EmptyString => EmptyString
  end.

Fixpoint rev_onto (s acc : string) : string :=
  match s with
  | EmptyString => acc
  | String a s' => rev_onto s' (String a acc)
  end.
Definition rev (s : string) : string := rev_onto s EmptyString.

Definition strip (s : string) : string := rev (lstrip (rev (lstrip s))).

(** The value of a character as a digit in [base], as the interpreter's
    digit table gives it. *)
Definition digit_val (base : Z) (c : ascii) : option Z :=
  let n := code c in
  let v := if ((48 <=? n) && (n <=? 57))%Z then n - 48
           else if ((97 <=? n) && (n <=? 122))%Z then n - 87
           else if ((65 <=? n) && (n <=? 90))%Z then n - 55
           else 37 in
  if (v <? base)%Z then Some v else None.

(** Digits with single underscores between them; [prev] tells whether
    the previous character was a digit. *)
Fixpoint parse_digits (base : Z) (s : string) (acc : Z) (prev : bool)
  : option Z :=
  match s with
  | EmptyString => if prev then Some acc else None
  | String c s' =>
      if Ascii.eqb c "_" then
        if prev then parse_digits base s' acc false else None
      else match digit_val base c with
           | Some d => parse_digits base s' (acc * base + d) true
           | None => None
           end
  end.

Definition invalid_literal : exn := ValueError "invalid literal for int()".

(** An optional sign in front of the digits. *)
Definition split_sign (t : string) : bool * string :=
  match t with
  | String a r =>
      if Ascii.eqb a "+" then (false, r)
      else if Ascii.eqb a "-" then (true, r)
      else (false, t)
  | EmptyString => (false, t)
  end.

(** Base 16 admits [0x] or [0X] in front of the digits, and one
    underscore right after it. *)
Definition skip_prefix (base : Z) (u : string) : string :=
  match u with
  | String a (String x r) =>
      if (base =? 16)%Z && Ascii.eqb a "0"
         && (Ascii.eqb x "x" || Ascii.eqb x "X")
      then match r with
           | String y r' => if Ascii.eqb y "_" then r' else r
           | EmptyString => r
           end
      else u
  | _ => u
  end.

(** [int(s, base)] for an explicit base of 10 or 16: surrounding
    whitespace, an optional sign, the optional prefix, the digits. *)
Definition py_int (base : Z) (s : string) : result Z :=
  let '(neg, u) := split_sign (strip s) in
  match parse_digits base (skip_prefix base u) 0 false with
  | Some z => Ok (if neg then - z else z)
  | None => Raise invalid_literal
  end.

(** [s.endswith(suffix)] *)
Definition endswith (s suffix : string) : bool :=
  let n := String.length s in
  let k := String.length suffix in
  (k <=? n)%nat && String.eqb (substring (n - k) k s) suffix.

(** [str(n)] for a natural number and for an integer. *)
Definition str_of_N (n : N) : string := NilZero.string_of_uint (N.to_uint n).

Definition str_of_Z (z : Z) : string :=
  if (z <? 0)%Z then "-" ++ str_of_N (Z.to_N (- z)) else str_of_N (Z.to_N z).

(** The truth value of an optional string and of an optional integer:
    [None], the empty string and zero are false. *)
Definition truthy_str (o : option string) : option string :=
  match o with
  | Some EmptyString => None
  | _ => o
  end.

Definition truthy_int (o : option Z) : option Z :=
  match o with
  | Some 0%Z => None
  | _ => o
  end.

(** [format(x, ".2f")]: the decimal with two fractional digits nearest
    to the exact value of [x], ties going to the even one. *)
Definition format_2f (x : float) : string :=
  let sign (s : bool) := if s then "-" else EmptyString in
  match x with
  | S754_nan => "nan"
  | S754_infinity s => sign s ++ "inf"
  | S754_zero s => sign s ++ "0.00"
  | S754_finite s m e =>
      let h := round_half_even (100 * m) e in
      let frac := h mod 100 in
      sign s ++ str_of_N (Z.to_N (h / 100)) ++ "."
        ++ str_of_N (Z.to_N (frac / 10)) ++ str_of_N (Z.to_N (frac mod 10))
  end.

(** ** [sorted] on strings: a stable sort by code-point order. *)
Fixpoint insert_sorted (x : string) (l : list string) : list string :=
  match l with
  | [] => [x]
  | y :: l' => if String.leb x y then x :: l else y :: insert_sorted x l'
  end.

Definition sorted (l : list string) : list string :=
  fold_right insert_sorted [] l.

End Py.

(* ------------------------------------------------------------------ *)
(** ** Paths and the [.1f] format

    POSIX paths as [pathlib] keeps them: a root and the list of the
    parts after it.  [stem] is the one of Python up to 3.13, where the
    suffix starts at the last dot of the name unless that dot is its
    first or last character. *)

Module PyPath.
Import Py.
Local Open Scope string_scope.

(** [format(x, ".1f")], as [format_2f] with one fractional digit. *)
Definition format_1f (x : float) : string :=
  let sign (s : bool) := if s then "-" else EmptyString in
  match x with
  | S754_nan => "nan"
  | S754_infinity s => sign s ++ "inf"
  | S754_zero s => sign s ++ "0.0"
  | S754_finite s m e =>
      let h := round_half_even (10 * m) e in
      sign s ++ str_of_N (Z.to_N (h / 10)) ++ "."
        ++ str_of_N (Z.to_N (h mod 10))
  end.

(** [x - y] on floats. *)
Definition float_sub (x y : float) : float := SFsub prec emax x y.

(** A [pathlib.PurePosixPath]: the root ([/], [//] or none) and the
    components after it. *)
Record path : Type := { root : string; tail : list string }.

(** [posixpath.splitroot]: one slash or more than two make the root
    [/], exactly two make it [//]. *)
Definition splitroot (p : string) : string * string :=
  match p with
  | String a r1 =>
      if Ascii.eqb a "/" then
        match r1 with
        | String b r2 =>
            if Ascii.eqb b "/" then
              match r2 with
              | String c _ => if Ascii.eqb c "/" then ("/", r1) else ("//", r2)
              | EmptyString => ("//", r2)
              end
            else ("/", r1)
        | EmptyString => ("/", r1)
        end
      else (EmptyString, p)
  | EmptyString => (EmptyString, p)
  end.

(** The components of a relative part: empty ones and [.] vanish. *)
Definition parts (rel : string) : list string :=
  filter (fun x => negb (String.eqb x EmptyString) && negb (String.eqb x "."))
         (split "/" rel).

(** [Path(s)] *)
Definition of_string (s : string) : path :=
  let '(r, rel) := splitroot s in {| root := r; tail := parts rel |}.

(** [str(p)] *)
Definition to_string (p : path) : string :=
  match root p, tail p with
  | EmptyString, [] => "."
  | r, t => r ++ String.concat "/" t
  end.

(** [p / s] for a string [s]: an absolute [s] replaces [p]. *)
Definition joinpath (p : path) (s : string) : path :=
  match s with
  | String c _ =>
      if Ascii.eqb c "/" then of_string s
      else {| root := root p; tail := (tail p ++ parts s)%list |}
  | EmptyString => p
  end.

(** [p.name]: the last component, or the empty string. *)
Definition name (p : path) : string := last (tail p) EmptyString.

(** [p.parent] *)
Definition parent (p : path) : path :=
  {| root := root p; tail := removelast (tail p) |}.

(** [s.rfind(c)]: the position of the last [c] in [s]. *)
Fixpoint rfind (c : ascii) (s : string) : option nat :=
  match s with
  | EmptyString => None
  | String a s' =>
      match rfind c s' with
      | Some i => Some (S i)
      | None => if Ascii.eqb a c then Some 0%nat else None
      end
  end.

(** [p.stem]: the name without its last suffix; a dot that starts or
    ends the name starts no suffix. *)
Definition stem (p : path) : string :=
  let n := name p in
  match rfind "." n with
  | Some i =>
      if ((0 <? i) && (i <? String.length n - 1))%nat
      then substring 0 i n else n
  | None => n
  end.

End PyPath.

Module Sheet.
Import Py.
Local Open Scope py_scope.
Local Open Scope string_scope.

(** ** Command line, as [parse_args] returns it *)

Record Args : Type := {
  image_dir : string;
  scene_name : option string;
  output : option string;
  grid : string;
  max_width : Z;
  fps : option Z;
  grid_color : string;
  label_size : Z
}.

(** ** [parse_grid] *)

Definition grid_format_error : exn :=
  ValueError "Grid must be in COLSxROWS format, e.g., 4x4.".

Definition grid_positive_error : exn :=
  ValueError "Grid dimensions must be positive.".

Definition parse_grid (grid : string) : result (Z * Z) :=
  let attempt :=
    match split "x" (lower grid) with
    | [cols_str; rows_str] =>
        cols <- py_int 10 cols_str ;;
        rows <- py_int 10 rows_str ;;
        Ok (cols, rows)
    | _ => Raise (ValueError "wrong number of values to unpack")
    end in
  match attempt with
  | Raise (ValueError _) => Raise grid_format_error
  | Raise e => Raise e
  | Ok (cols, rows) =>
      if ((cols <=? 0) || (rows <=? 0))%Z then Raise grid_positive_error
      else Ok (cols, rows)
  end.

(** ** [hex_to_rgb] *)

Definition hex_to_rgb (hex_color : string) : result (Z * Z * Z) :=
  let h := lstrip_char "#" hex_color in
  if negb (String.length h =? 6)%nat
  then Raise (ValueError ("Invalid hex color: " ++ h))
  else
    r <- py_int 16 (substring 0 2 h) ;;
    g <- py_int 16 (substring 2 2 h) ;;
    b <- py_int 16 (substring 4 2 h) ;;
    Ok (r, g, b).

(** ** Frame selection (lines 97 to 105 of [main]) *)

(** [int(round(i * step))] *)
Definition sample (step : num) (i : Z) : result Z :=
  p <- int_mul i step ;; int_round p.

(** [n] is [len(frames)], [total] is [cols * rows]. *)
Definition select_indices (n total : Z) : result (list Z) :=
  if (n <? total)%Z then Ok (range n)
  else
    step <- (if (1 <? total)%Z
             then q <- true_div (n - 1) (total - 1) ;; Ok (Float q)
             else Ok (Int 1)) ;;
    mapM (sample step) (range total).

Definition len {A} (l : list A) : Z := Z.of_nat (List.length l).

Definition select {A} (frames : list A) (total : Z)
  : result (list Z * list A) :=
  indices <- select_indices (len frames) total ;;
  selected <- mapM (getitem frames) indices ;;
  Ok (indices, selected).

(** ** Output file name (lines 107 to 115) *)

Definition output_filename (a : Args) : string :=
  match truthy_str (output a) with
  | Some o => o
  | None =>
      match truthy_str (scene_name a) with
      | Some s => s ++ "_sheet.png"
      | None => "contact_sheet.png"
      end
  end.

(** [str(Path(s))]: the directory as the script prints it and hands it
    to the system. *)
Definition path_str (s : string) : string :=
  PyPath.to_string (PyPath.of_string s).

(** [str(Path(dir) / name)] *)
Definition join (dir name : string) : string :=
  PyPath.to_string (PyPath.joinpath (PyPath.of_string dir) name).

(** ** Images and drawing *)

Record image : Type := {
  src : string;       (* the frame the pixels come from *)
  width : Z;
  height : Z
}.

Inductive font : Type :=
| TrueType (path : string) (size : Z)
| DefaultFont.

Inductive draw_op : Type :=
| Paste (im : image) (x y : Z)
| Text (x y : Z) (text : string) (f : font) (fill : Z * Z * Z)
| Rect (x0 y0 x1 y1 : Z) (fill : Z * Z * Z).

Record sheet : Type := {
  sheet_w : Z;
  sheet_h : Z;
  background : Z * Z * Z;
  ops : list draw_op     (* in the order they are drawn *)
}.

Definition grid_line_width : Z := 1.

(** Lines 137 to 150: cell and sheet dimensions from the decoded
    frames. *)
Record geometry : Type := {
  cell_w : Z;
  cell_h : Z;
  label_height : Z;
  resized : list image;
  geo_sheet_w : Z;
  geo_sheet_h : Z
}.

Definition resize_to (cell_w : Z) (im : image) (scale : float)
  : result image :=
  pw <- mul_int_float (width im) scale ;;
  w <- int_of_float pw ;;
  ph <- mul_int_float (height im) scale ;;
  h <- int_of_float ph ;;
  Ok {| src := src im; width := Z.max 1 w; height := Z.max 1 h |}.

Definition cell_geometry (a : Args) (cols rows : Z) (images : list image)
  : result geometry :=
  widest <- py_max (map width images) ;;
  let cell_w := Z.min (max_width a) widest in
  scale_factors <- mapM (fun im => true_div cell_w (width im)) images ;;
  resized <- mapM (fun p => resize_to cell_w (fst p) (snd p))
                  (combine images scale_factors) ;;
  cell_h <- py_max (map height resized) ;;
  let label_height := (label_size a + 8)%Z in
  Ok {| cell_w := cell_w;
        cell_h := cell_h;
        label_height := label_height;
        resized := resized;
        geo_sheet_w := (cols * cell_w + (cols + 1) * grid_line_width)%Z;
        geo_sheet_h := (rows * (cell_h + label_height)
                        + (rows + 1) * grid_line_width)%Z |}.

(** Lines 167 to 192: one loop iteration, the paste and the label of
    the frame at position [idx] of the selection. *)
Definition draw_cell (a : Args) (cols : Z) (g : geometry)
    (selected : list string) (selected_indices : list Z) (f : font)
    (idx : Z) (im : image) : result (list draw_op) :=
  row <- floordiv idx cols ;;
  col <- modulo idx cols ;;
  let cell_x := (col * cell_w g + (col + 1) * grid_line_width)%Z in
  let cell_y := (row * (cell_h g + label_height g)
                 + (row + 1) * grid_line_width)%Z in
  let x := (cell_x + (cell_w g - width im) / 2)%Z in
  let y := (cell_y + (cell_h g - height im) / 2)%Z in
  frame_idx <- getitem selected_indices idx ;;
  frame_name <- getitem selected idx ;;
  let label_y := (cell_y + cell_h g + 2)%Z in
  label_text <-
    match truthy_int (fps a) with
    | Some rate =>
        time_sec <- true_div frame_idx rate ;;
        Ok (frame_name ++ " (" ++ format_2f time_sec ++ "s)")
    | None => Ok frame_name
    end ;;
  Ok [Paste im x y; Text (cell_x + 2) label_y label_text f (255, 255, 255)%Z].

Definition draw_cells (a : Args) (cols : Z) (g : geometry)
    (selected : list string) (selected_indices : list Z) (f : font)
  : result (list draw_op) :=
  cells <- mapM (fun p => draw_cell a cols g selected selected_indices f
                            (fst p) (snd p))
                (enumerate (resized g)) ;;
  Ok (List.concat cells).

(** Lines 195 to 202: the separator lines. *)
Definition vertical_lines (cols : Z) (g : geometry) (color : Z * Z * Z)
  : list draw_op :=
  map (fun col =>
         let x := (col * cell_w g + col * grid_line_width)%Z in
         Rect x 0 (x + grid_line_width - 1) (geo_sheet_h g) color)
      (range (cols + 1)).

Definition horizontal_lines (rows : Z) (g : geometry) (color : Z * Z * Z)
  : list draw_op :=
  map (fun row =>
         let y := (row * (cell_h g + label_height g)
                   + row * grid_line_width)%Z in
         Rect 0 y (geo_sheet_w g) (y + grid_line_width - 1) color)
      (range (rows + 1)).

(** ** The outside world

    Everything [main] asks of its environment.  The entries of the
    frame directory are given by name, in whatever order the system
    enumerates them. *)

(** What a write that failed leaves at the path it was to write:
    nothing it had not found there, or a file, with what the decoder
    makes of it ([None] for a file cut short). *)
Inductive leftover : Type :=
| Untouched
| Wreck (decoded : option (Z * Z)).

Record World : Type := {
  w_is_dir : bool;                      (* [image_dir.is_dir()] *)
  w_listing : list string;              (* entries of the directory *)
  w_pil : bool;                         (* whether [import PIL] succeeds *)
  w_decode : string -> option (Z * Z);  (* size of a decodable entry *)
  w_which : string -> option string;    (* [shutil.which] *)
  w_run : list string -> bool;          (* does the command exit with 0 *)
  w_font : string -> Z -> result unit;  (* [ImageFont.truetype] *)
  w_save : string -> result unit;       (* [Image.save] *)
  w_leftover : string -> leftover;      (* after a failed write to a path *)
  w_resolve : string -> string          (* [Path.resolve], as a string *)
}.

Inductive event : Type :=
| IsDir (path : string)
| ImportPIL
| Glob (dir pattern : string)
| Which (prog : string)
| Run (cmd : list string)
| Open (path : string)
| LoadFont (path : string) (size : Z)
| Save (path : string) (s : sheet)
| Stdout (line : string)
| Stderr (line : string).

(** A program reads and updates the world, appends to the log of its
    interactions and returns or raises. *)
Definition M (A : Type) : Type :=
  World -> list event -> result A * World * list event.

Definition ret {A} (a : A) : M A := fun w t => (Ok a, w, t).

Definition raise {A} (e : exn) : M A := fun w t => (Raise e, w, t).

Definition bindM {A B} (c : M A) (k : A -> M B) : M B :=
  fun w t =>
    match c w t with
    | (Ok a, w', t') => k a w' t'
    | (Raise e, w', t') => (Raise e, w', t')
    end.

Definition lift {A} (r : result A) : M A := fun w t => (r, w, t).

Definition log (e : event) : M unit := fun w t => (Ok tt, w, (t ++ [e])%list).

Definition ask {A} (f : World -> A) : M A := fun w t => (Ok (f w), w, t).

Declare Scope m_scope.
Delimit Scope m_scope with M.
Notation "x <- c ;; k" := (bindM c (fun x => k))
  (at level 61, c at next level, right associativity) : m_scope.
Notation "c ;; k" := (bindM c (fun _ => k))
  (at level 61, right associativity) : m_scope.

Section Effects.
Local Open Scope m_scope.

Fixpoint mapMM {A B} (f : A -> M B) (l : list A) : M (list B) :=
  match l with
  | [] => ret []
  | a :: l' => b <- f a ;; bs <- mapMM f l' ;; ret (b :: bs)
  end.

Definition is_dir (path : string) : M bool :=
  log (IsDir path) ;; ask w_is_dir.

Definition import_pil : M bool :=
  log ImportPIL ;; ask w_pil.

(** [sorted(image_dir.glob("*.png"))], as entry names. *)
Definition discover (listing : list string) : list string :=
  sorted (filter (fun name => endswith name ".png") listing).

Definition glob_png (dir : string) : M (list string) :=
  log (Glob dir "*.png") ;;
  listing <- ask w_listing ;;
  ret (discover listing).

Definition which (prog : string) : M (option string) :=
  log (Which prog) ;;
  found <- ask w_which ;;
  ret (truthy_str (found prog)).

(** [Image.open(path).convert("RGB")] *)
Definition open_image (dir name : string) : M image :=
  log (Open (join dir name)) ;;
  decode <- ask w_decode ;;
  match decode name with
  | Some (w, h) => ret {| src := name; width := w; height := h |}
  | None => raise OSError
  end.

(** The entry of the frame directory that [image_dir / filename] names,
    if it names one directly: an absolute [filename] replaces the
    directory, empty and [.] components vanish, and a path through a
    further component leads elsewhere. *)
Definition entry_of (filename : string) : option string :=
  match filename with
  | String c _ =>
      if Ascii.eqb c "/" then None
      else
        match filter (fun part => negb (String.eqb part EmptyString)
                                  && negb (String.eqb part "."))
                     (split "/" filename) with
        | [name] => if String.eqb name ".." then None else Some name
        | _ => None
        end
  | EmptyString => None
  end.

(** The output file comes to exist. *)
Definition created (filename : string) : M unit :=
  fun w t =>
    let listing :=
      match entry_of filename with
      | Some name =>
          if existsb (String.eqb name) (w_listing w) then w_listing w
          else (w_listing w ++ [name])%list
      | None => w_listing w
      end in
    (Ok tt,
     {| w_is_dir := w_is_dir w; w_listing := listing; w_pil := w_pil w;
        w_decode := w_decode w; w_which := w_which w; w_run := w_run w;
        w_font := w_font w; w_save := w_save w;
        w_leftover := w_leftover w; w_resolve := w_resolve w |},
     t).

(** A write to [dir / filename] failed.  Neither Pillow, which opens
    the file for writing before it encodes, nor the script takes back
    what was written: the path holds what the machine says is left.  A
    file left in the frame directory is an entry of it from then on,
    and the decoder makes of it what the leftover says. *)
Definition left_behind (dir filename : string) : M unit :=
  fun w t =>
    match w_leftover w (join dir filename), entry_of filename with
    | Wreck decoded, Some name =>
        (Ok tt,
         {| w_is_dir := w_is_dir w;
            w_listing :=
              if existsb (String.eqb name) (w_listing w) then w_listing w
              else (w_listing w ++ [name])%list;
            w_pil := w_pil w;
            w_decode := fun n => if String.eqb n name then decoded
                                 else w_decode w n;
            w_which := w_which w; w_run := w_run w;
            w_font := w_font w; w_save := w_save w;
            w_leftover := w_leftover w; w_resolve := w_resolve w |},
         t)
    | _, _ => (Ok tt, w, t)
    end.

(** [subprocess.run(cmd, check=True)] of the montage command, whose
    last argument is the file it writes, [dir / filename]. *)
Definition run_montage (cmd : list string) (dir filename : string)
  : M unit :=
  log (Run cmd) ;;
  run <- ask w_run ;;
  if run cmd then created filename
  else left_behind dir filename ;; raise CalledProcessError.

(** [sheet.save(output_path)] *)
Definition save (dir filename : string) (s : sheet) : M unit :=
  log (Save (join dir filename) s) ;;
  saver <- ask w_save ;;
  match saver (join dir filename) with
  | Ok _ => created filename
  | Raise e => left_behind dir filename ;; raise e
  end.

(** [print(f"Wrote contact sheet: {output_path.resolve()}")] *)
Definition report (dir filename : string) : M unit :=
  resolve <- ask w_resolve ;;
  log (Stdout ("Wrote contact sheet: " ++ resolve (join dir filename))).

(** [ImageFont.truetype(path, size)] under [except (OSError, IOError)]:
    [None] when the handler is entered. *)
Definition try_truetype (path : string) (size : Z) : M (option font) :=
  log (LoadFont path size) ;;
  loader <- ask w_font ;;
  match loader path size with
  | Ok _ => ret (Some (TrueType path size))
  | Raise OSError => ret None
  | Raise e => raise e
  end.

(** Lines 156 to 162. *)
Definition load_font (size : Z) : M font :=
  first <- try_truetype "/System/Library/Fonts/Helvetica.ttc" size ;;
  match first with
  | Some f => ret f
  | None =>
      second <- try_truetype
        "/usr/share/fonts/truetype/liberation/LiberationSans-Regular.ttf"
        size ;;
      match second with
      | Some f => ret f
      | None => ret DefaultFont
      end
  end.

(** Lines 117 to 134: without Pillow, hand over to ImageMagick. *)
Definition fallback (a : Args) (cols rows : Z) (selected : list string)
  : M Z :=
  magick <- which "magick" ;;
  montage <- which "montage" ;;
  cmd <- match magick, montage with
         | Some m, _ => ret [m; "montage"]
         | None, Some m => ret [m]
         | None, None =>
             raise (SystemExit
               "Pillow not installed and ImageMagick not found (magick/montage).")
         end ;;
  log (Stderr
    "Warning: Pillow not available, using ImageMagick fallback (no gridlines or labels).") ;;
  let geometry :=
    str_of_Z (max_width a) ++ "x" ++ str_of_Z (max_width a) ++ "+0+0" in
  let tile := str_of_Z cols ++ "x" ++ str_of_Z rows in
  let cmd := (cmd ++ map (join (image_dir a)) selected
              ++ ["-tile"; tile; "-geometry"; geometry;
                  join (image_dir a) (output_filename a)])%list in
  run_montage cmd (image_dir a) (output_filename a) ;;
  report (image_dir a) (output_filename a) ;;
  ret 0%Z.

(** Lines 136 to 206: compose with Pillow. *)
Definition compose (a : Args) (cols rows : Z) (selected : list string)
    (selected_indices : list Z) : M Z :=
  images <- mapMM (open_image (image_dir a)) selected ;;
  g <- lift (cell_geometry a cols rows images) ;;
  (if ((geo_sheet_w g <? 0) || (geo_sheet_h g <? 0))%Z
   then raise (ValueError "Width and height must be >= 0")
   else ret tt) ;;
  f <- load_font (label_size a) ;;
  color <- lift (hex_to_rgb (grid_color a)) ;;
  cells <- lift (draw_cells a cols g selected selected_indices f) ;;
  let s := {| sheet_w := geo_sheet_w g;
              sheet_h := geo_sheet_h g;
              background := (16, 16, 16)%Z;
              ops := (cells ++ vertical_lines cols g color
                      ++ horizontal_lines rows g color)%list |} in
  save (image_dir a) (output_filename a) s ;;
  report (image_dir a) (output_filename a) ;;
  ret 0%Z.

(** Lines 94 to 206: from the discovered frames to the written
    sheet. *)
Definition render (a : Args) (cols rows : Z) (pil : bool)
    (frames : list string) : M Z :=
  match frames with
  | [] => raise (SystemExit ("No PNG frames found in "
                             ++ path_str (image_dir a)))
  | _ :: _ =>
      let total := (cols * rows)%Z in
      sel <- lift (select frames total) ;;
      let selected_indices := fst sel in
      let selected := snd sel in
      if pil then compose a cols rows selected selected_indices
      else fallback a cols rows selected
  end.

(** ** [main] *)

Definition main (a : Args) : M Z :=
  grid <- lift (parse_grid (grid a)) ;;
  let cols := fst grid in
  let rows := snd grid in
  found <- is_dir (path_str (image_dir a)) ;;
  if negb found
  then raise (SystemExit ("Image directory not found: "
                          ++ path_str (image_dir a)))
  else
    pil <- import_pil ;;
    frames <- glob_png (path_str (image_dir a)) ;;
    render a cols rows pil frames.

End Effects.

(** ** What a run leaves behind *)

(** [raise SystemExit(main())]: the status the process exits with. *)
Definition exit_status (r : result Z) : Z :=
  match r with
  | Ok status => status
  | Raise _ => 1%Z
  end.

Definition run (a : Args) (w : World) : result Z * World * list event :=
  main a w [].

Definition outcome (a : Args) (w : World) : result Z := fst (fst (run a w)).
Definition world_after (a : Args) (w : World) : World := snd (fst (run a w)).
Definition trace (a : Args) (w : World) : list event := snd (run a w).

(** Events that may write the output file. *)
Definition is_write (e : event) : bool :=
  match e with
  | Save _ _ | Run _ => true
  | _ => false
  end.

(** The sheets handed to [save]. *)
Definition saved (t : list event) : list sheet :=
  flat_map (fun e => match e with Save _ s => [s] | _ => [] end) t.

End Sheet.

(** ** The exact value of a float

    Vocabulary for the accuracy proofs: finite floats denote rationals,
    and an intermediate result is a truncated mantissa together with
    the position of the exact value between that integer and the next.
    Nothing in the embedding of the script depends on this module. *)

Module FloatSem.
Import Py.
Local Open Scope Q_scope.

Definition pow2 (e : Z) : Q := 2 ^ e.

Definition F2Q (m e : Z) : Q := inject_Z m * pow2 e.

(** [x] lies at position [l] between the integers [m] and [m + 1]. *)
Definition inbetween (m : Z) (l : location) (x : Q) : Prop :=
  match l with
  | loc_Exact => x == inject_Z m
  | loc_Inexact Lt => inject_Z m < x /\ x < inject_Z m + (1 # 2)
  | loc_Inexact Eq => x == inject_Z m + (1 # 2)
  | loc_Inexact Gt => inject_Z m + (1 # 2) < x /\ x < inject_Z m + 1
  end.

(** The same for a mantissa with its round and sticky bits. *)
Definition located (mrs : shr_record) (x : Q) : Prop :=
  (0 <= shr_m mrs)%Z /\ inbetween (shr_m mrs) (loc_of_shr_record mrs) x.

(** [x] is a positive normalised float of value [v]. *)
Definition is_float (x : float) (v : Q) : Prop :=
  exists m e, x = S754_finite false m e /\
              (2 ^ 52 <= Zpos m < 2 ^ 53)%Z /\
              F2Q (Zpos m) e == v.

(** [x] is not negative: a float without the sign bit, or NaN. *)
Definition unsigned (x : float) : Prop :=
  match x with
  | S754_zero s | S754_infinity s | S754_finite s _ _ => s = false
  | S754_nan => True
  end.

(** The unit roundoff of binary64, [2^-53]. *)
Definition u : Q := 1 # 9007199254740992.

End FloatSem.

(** ** Vocabulary of the specification *)

Module Spec.
Import Py Sheet.
Local Open Scope py_scope.

(** The sampling rule in the words of the specification: with the step
    [s = (n - 1) / (total - 1)], the indices [round(i * s)] for [i] in
    [0 .. total - 1].  Division, product and [round] are the
    interpreter's, on floats. *)
Definition formula_indices (n total : Z) : result (list Z) :=
  s <- true_div (n - 1) (total - 1) ;;
  mapM (fun i => p <- mul_int_float i s ;; round_float p) (range total).

(** *** Integers as they are written

    A numeral is a run of decimal digits in which single underscores
    may separate digits; its value is that of its digits.  An integer
    literal is a numeral with an optional sign in front, possibly
    surrounded by whitespace: the characters TAB to CR, the space and
    the code points 133 and 160. *)
Definition is_digit (c : ascii) : Prop := (48 <= code c <= 57)%Z.

Inductive numeral : string -> Prop :=
| numeral_digit c :
    is_digit c -> numeral (String c EmptyString)
| numeral_more c s :
    is_digit c -> numeral s -> numeral (String c s)
| numeral_underscore c s :
    is_digit c -> numeral s -> numeral (String c (String "_" s)).

Definition read_digit (acc : Z) (c : ascii) : Z :=
  if Ascii.eqb c "_" then acc else (acc * 10 + (code c - 48))%Z.

Definition value_from (acc : Z) (s : string) : Z :=
  fold_left read_digit (list_ascii_of_string s) acc.

Definition numeral_value (s : string) : Z := value_from 0 s.

Definition blank (s : string) : Prop :=
  forall c, In c (list_ascii_of_string s) -> is_space c = true.

(** The characters an integer literal can be made of. *)
Definition literal_char (c : ascii) : bool :=
  is_space c || ((48 <=? code c) && (code c <=? 57))%Z
  || Ascii.eqb c "+" || Ascii.eqb c "-" || Ascii.eqb c "_".

Definition integer_literal (s : string) (z : Z) : Prop :=
  exists pre body post,
    blank pre /\ blank post /\ numeral body /\
    (((s = pre ++ body ++ post \/ s = pre ++ "+" ++ body ++ post) /\
      z = numeral_value body) \/
     (s = pre ++ "-" ++ body ++ post /\ z = (- numeral_value body)%Z))%string.

(** A grid string made of two integer literals for positive integers
    with the delimiter, an [x] of either case, between them. *)
Definition two_integer_literals (s : string) : Prop :=
  exists cols_str delimiter rows_str cols rows,
    s = (cols_str ++ String delimiter rows_str)%string /\
    (delimiter = "x"%char \/ delimiter = "X"%char) /\
    integer_literal cols_str cols /\
    integer_literal rows_str rows /\
    (0 < cols)%Z /\ (0 < rows)%Z.

(** The grid strings of the specification, read to the letter: two
    positive integers in decimal digits, and nothing but digits, with
    the delimiter between them. *)
Definition decimal (s : string) : Prop :=
  s <> EmptyString /\
  forall c, In c (list_ascii_of_string s) -> is_digit c.

Definition two_positive_integers (s : string) : Prop :=
  exists cols_str delimiter rows_str,
    s = (cols_str ++ String delimiter rows_str)%string /\
    (delimiter = "x"%char \/ delimiter = "X"%char) /\
    decimal cols_str /\ decimal rows_str /\
    (0 < numeral_value cols_str)%Z /\ (0 < numeral_value rows_str)%Z.

(** What the decoder makes of the directory entry [name]. *)
Definition decoded (w : World) (name : string) (im : image) : Prop :=
  exists width height,
    w_decode w name = Some (width, height) /\
    im = {| src := name; width := width; height := height |}.

(** Where the separator lines are drawn: the left edge of the vertical
    line number [col] and the top edge of the horizontal line number
    [row], as lines 195 to 202 compute them. *)
Definition line_x (g : geometry) (col : Z) : Z :=
  (col * cell_w g + col * grid_line_width)%Z.

Definition line_y (g : geometry) (row : Z) : Z :=
  (row * (cell_h g + label_height g) + row * grid_line_width)%Z.

(** The cell in column [col] and row [row] of the grid starts right
    after the lines of these numbers. *)
Definition cell_x (g : geometry) (col : Z) : Z :=
  (line_x g col + grid_line_width)%Z.

Definition cell_y (g : geometry) (row : Z) : Z :=
  (line_y g row + grid_line_width)%Z.

(** The layout of a sheet: its dimensions and everything drawn on it,
    with positions and sizes, whatever the font of the labels. *)
Definition unfont (op : draw_op) : draw_op :=
  match op with
  | Text x y text _ fill => Text x y text DefaultFont fill
  | _ => op
  end.

Definition layout (s : sheet) : Z * Z * list draw_op :=
  (sheet_w s, sheet_h s, map unfont (ops s)).

(** The order of file names. *)
Definition name_le (x y : string) : Prop := String.leb x y = true.

(** A file name that names an entry of the directory it is joined to:
    not empty, without separator, neither [.] nor [..]. *)
Definition plain_name (name : string) : Prop :=
  name <> EmptyString /\ name <> "."%string /\ name <> ".."%string /\
  forall c, In c (list_ascii_of_string name) -> c <> "/"%char.

(** A program that only looks: it leaves the world as it is and
    performs no write. *)
Definition quiet {A} (c : M A) : Prop :=
  forall w t, exists r ext,
    c w t = (r, w, (t ++ ext)%list) /\
    Forall (fun e => is_write e = false) ext.

(** A program that writes at most once, to [dir / out].  Either it
    returns 0 after one write, its last interaction but for the report
    on standard output, which creates the file and changes nothing
    else; or it raises without a write and leaves the world as it found
    it; or it raises right after a write that failed, its last
    interaction, and leaves the world as that write left it. *)
Definition single_write (dir out : string) (c : M Z) : Prop :=
  forall w t,
    match c w t with
    | (Ok status, w', t') =>
        status = 0%Z /\
        created out w [] = (Ok tt, w', []) /\
        exists pre wr msg,
          t' = (t ++ pre ++ [wr; Stdout msg])%list /\
          is_write wr = true /\
          Forall (fun e => is_write e = false) pre
    | (Raise _, w', t') =>
        (w' = w /\
         exists ext, t' = (t ++ ext)%list /\
                     Forall (fun e => is_write e = false) ext) \/
        (left_behind dir out w [] = (Ok tt, w', []) /\
         exists pre wr,
           t' = (t ++ pre ++ [wr])%list /\
           is_write wr = true /\
           Forall (fun e => is_write e = false) pre)
    end.

End Spec.

(** ** Example inputs *)

Module Demo.
Import Py Sheet.
Local Open Scope string_scope.

Definition args (grid : string) (fps : option Z) (output : option string)
  : Args :=
  {| image_dir := "media/images/foo"; scene_name := Some "Foo";
     output := output; grid := grid; max_width := 320; fps := fps;
     grid_color := "808080"; label_size := 12 |}.

(** Ten frames and a stray file, as the system might enumerate them. *)
Definition listing : list string :=
  ["frame_0003.png"; "frame_0000.png"; "frame_0001.png"; "frame_0002.png";
   "notes.txt"; "frame_0004.png"; "frame_0009.png"; "frame_0006.png";
   "frame_0007.png"; "frame_0008.png"; "frame_0005.png"].

(** A machine with Pillow and without the fonts the script looks for;
    every entry decodes to a 640x360 image. *)
Definition world (is_dir : bool) (listing : list string) : World :=
  {| w_is_dir := is_dir; w_listing := listing; w_pil := true;
     w_decode := fun _ => Some (640, 360)%Z;
     w_which := fun _ => None; w_run := fun _ => true;
     w_font := fun _ _ => Raise OSError; w_save := fun _ => Ok tt;
     w_leftover := fun _ => Untouched;
     w_resolve := fun p => "/home/user/" ++ p |}.

(** The same machine with its disk full: [save] opens the output file
    and fails while it writes, which leaves the file cut short. *)
Definition disk_full (listing : list string) : World :=
  {| w_is_dir := true; w_listing := listing; w_pil := true;
     w_decode := fun _ => Some (640, 360)%Z;
     w_which := fun _ => None; w_run := fun _ => true;
     w_font := fun _ _ => Raise OSError; w_save := fun _ => Raise OSError;
     w_leftover := fun _ => Wreck None;
     w_resolve := fun p => "/home/user/" ++ p |}.

(** A machine without Pillow and with ImageMagick in [/opt/bin];
    [runs] tells whether its commands exit with 0. *)
Definition no_pillow (runs : bool) : World :=
  {| w_is_dir := true; w_listing := ["a.png"; "b.png"]; w_pil := false;
     w_decode := fun _ => None;
     w_which := fun p => Some ("/opt/bin/" ++ p);
     w_run := fun _ => runs;
     w_font := fun _ _ => Raise OSError; w_save := fun _ => Ok tt;
     w_leftover := fun _ => Wreck None;
     w_resolve := fun p => "/home/user/" ++ p |}.

End Demo.

(* ------------------------------------------------------------------ *)
(** ** More vocabulary: colours and what is drawn on a sheet *)

From Stdlib Require Import DecimalN DecimalPos.

Module Drawn.
Import Py Sheet Spec.

(** The value of a hexadecimal digit, in either case. *)
Definition hex_value (c : ascii) : option Z :=
  let n := code c in
  if ((48 <=? n) && (n <=? 57))%Z then Some (n - 48)%Z
  else if ((97 <=? n) && (n <=? 102))%Z then Some (n - 87)%Z
  else if ((65 <=? n) && (n <=? 70))%Z then Some (n - 55)%Z
  else None.

(** A run of [#] characters. *)
Definition hashes (s : string) : Prop :=
  forall c, In c (list_ascii_of_string s) -> c = "#"%char.

(** The frames pasted on a sheet, each with the position of its top
    left corner, and the corners of the rectangles drawn on it, both in
    drawing order. *)
Definition pastes_of (l : list draw_op) : list (image * Z * Z) :=
  flat_map (fun op => match op with
                      | Paste im x y => [(im, x, y)]
                      | _ => []
                      end) l.

Definition rects_of (l : list draw_op) : list (Z * Z * Z * Z) :=
  flat_map (fun op => match op with
                      | Rect x0 y0 x1 y1 _ => [(x0, y0, x1, y1)]
                      | _ => []
                      end) l.

(** The separator lines are the rectangles. *)
Definition is_rect (op : draw_op) : bool :=
  match op with
  | Rect _ _ _ _ _ => true
  | _ => false
  end.

Definition pastes (s : sheet) : list (image * Z * Z) := pastes_of (ops s).
Definition rects (s : sheet) : list (Z * Z * Z * Z) := rects_of (ops s).

(** The pixels under a pasted frame and under a drawn rectangle; a
    rectangle includes its second corner. *)
Definition paste_covers (p : image * Z * Z) (px py : Z) : Prop :=
  let '(im, x, y) := p in
  (x <= px < x + width im /\ y <= py < y + height im)%Z.

Definition rect_covers (r : Z * Z * Z * Z) (px py : Z) : Prop :=
  let '(x0, y0, x1, y1) := r in
  (x0 <= px <= x1 /\ y0 <= py <= y1)%Z.

(** Where the loop of lines 167 to 178 pastes the frame at position
    [idx]. *)
Definition placed (cols : Z) (g : geometry) (p : Z * image)
  : image * Z * Z :=
  let '(idx, im) := p in
  (im,
   (cell_x g (idx mod cols) + (cell_w g - width im) / 2)%Z,
   (cell_y g (idx / cols) + (cell_h g - height im) / 2)%Z).

End Drawn.

(* ------------------------------------------------------------------ *)
(** ** [refresh_frames.py] *)

Module Refresh.
Import Py PyPath.
Local Open Scope string_scope.

(** The command line, as [parse_args] returns it. *)
Record Args : Type := {
  file_path : string;
  scene_name : string;
  fps : Z;
  contact_sheet : bool
}.

(** What the script asks of the machine it runs on, over the states
    [W] of that machine: whether a path exists, the entries of a
    directory (none when it cannot be listed), the removal of a file,
    the run of a command to its exit status (or the failure to start
    it), the clock and the absolute form of a path.  The questions
    (existence, listing, clock, absolute form) always have an answer
    and leave the machine as it is; only the removal of a file and the
    start of a command can raise [OSError].  The listing that
    [glob] walks is taken before the first removal. *)
Record Host (W : Type) : Type := {
  exists_ : W -> string -> bool;
  listdir : W -> string -> list string;
  unlink : W -> string -> result W;
  spawn : W -> list string -> result Z * W;
  clock : W -> float;
  resolve : W -> string -> string
}.
Arguments exists_ {W}.
Arguments listdir {W}.
Arguments unlink {W}.
Arguments spawn {W}.
Arguments clock {W}.
Arguments resolve {W}.

Inductive event : Type :=
| Exists (path : string)
| Glob (dir pattern : string)
| Unlink (path : string)
| Clock
| Spawn (cmd : list string)
| Resolve (path : string)
| Stdout (line : string)
| Stderr (line : string).

Section Script.
Context {W : Type} (host : Host W).

(** A program reads and updates the machine, appends to the log of its
    interactions and returns or raises. *)
Definition M (A : Type) : Type :=
  W -> list event -> result A * W * list event.

Definition ret {A} (a : A) : M A := fun w t => (Ok a, w, t).

Definition bindM {A B} (c : M A) (k : A -> M B) : M B :=
  fun w t =>
    match c w t with
    | (Ok a, w', t') => k a w' t'
    | (Raise e, w', t') => (Raise e, w', t')
    end.

Definition log (e : event) : M unit := fun w t => (Ok tt, w, (t ++ [e])%list).

Definition ask {A} (f : W -> A) : M A := fun w t => (Ok (f w), w, t).

Notation "x <- c ;; k" := (bindM c (fun x => k))
  (at level 61, c at next level, right associativity).
Notation "c ;; k" := (bindM c (fun _ => k))
  (at level 61, right associativity).

(** [p.exists()] *)
Definition path_exists (p : path) : M bool :=
  log (Exists (to_string p)) ;; ask (fun w => exists_ host w (to_string p)).

(** [dir.glob("*.png")]: the names of the matching entries, in the
    order the system lists them. *)
Definition glob_png (dir : path) : M (list string) :=
  log (Glob (to_string dir) "*.png") ;;
  ask (fun w => filter (fun n => endswith n ".png")
                       (listdir host w (to_string dir))).

(** [p.unlink()] *)
Definition remove (p : path) : M unit :=
  log (Unlink (to_string p)) ;;
  fun w t => match unlink host w (to_string p) with
             | Ok w' => (Ok tt, w', t)
             | Raise e => (Raise e, w, t)
             end.

(** The loop of lines 54 and 55. *)
Fixpoint remove_all (dir : path) (names : list string) : M unit :=
  match names with
  | [] => ret tt
  | n :: names' => remove (joinpath dir n) ;; remove_all dir names'
  end.

(** [time.time()] *)
Definition now : M float := log Clock ;; ask (clock host).

(** [subprocess.run(cmd, check=True)] up to the exit status: a status
    other than 0 is what [CalledProcessError] carries. *)
Definition run_command (cmd : list string) : M Z :=
  log (Spawn cmd) ;;
  fun w t => let '(r, w') := spawn host w cmd in (r, w', t).

Definition print (line : string) : M unit := log (Stdout line).
Definition print_err (line : string) : M unit := log (Stderr line).

(** The two commands the script runs. *)
Definition manim_command (a : Args) : list string :=
  ["manim"; "-ql"; "--fps"; str_of_Z (fps a); "--format=png"; "--silent";
   to_string (of_string (file_path a)); scene_name a].

Definition image_dir (a : Args) : path :=
  joinpath (joinpath (of_string "media") "images")
           (stem (of_string (file_path a))).

Definition sheet_command (script : string) (a : Args) : list string :=
  ["python3";
   to_string (joinpath (parent (of_string script)) "make_contact_sheet.py");
   to_string (image_dir a);
   "--scene-name"; scene_name a; "--fps"; str_of_Z (fps a)].

(** Lines 82 to 93: count and report the frames. *)
Definition report (a : Args) (elapsed : float) : M unit :=
  found <- path_exists (image_dir a) ;;
  frame_files <- (if found
                  then names <- glob_png (image_dir a) ;; ret (sorted names)
                  else ret []) ;;
  print ("Rendered " ++ str_of_Z (Z.of_nat (List.length frame_files))
         ++ " frames in " ++ format_1f elapsed ++ "s at "
         ++ str_of_Z (fps a) ++ " FPS") ;;
  match frame_files with
  | [] => ret tt
  | first_frame :: _ =>
      log (Resolve (to_string (image_dir a))) ;;
      abs <- ask (fun w => resolve host w (to_string (image_dir a))) ;;
      print ("Frame images: " ++ abs ++ "/" ++ first_frame ++ " to "
             ++ last frame_files EmptyString)
  end.

(** Lines 96 to 115: the contact sheet, when asked for. *)
Definition make_sheet (script : string) (a : Args) : M Z :=
  if contact_sheet a then
    status <- run_command (sheet_command script a) ;;
    if (status =? 0)%Z then ret 0%Z
    else
      print_err ("Error: Contact sheet generation failed with exit code "
                 ++ str_of_Z status) ;;
      ret 1%Z
  else ret 0%Z.

(** Lines 52 to 55: delete the old frames. *)
Definition delete_old_frames (a : Args) : M unit :=
  stale <- path_exists (image_dir a) ;;
  if stale
  then names <- glob_png (image_dir a) ;; remove_all (image_dir a) names
  else ret tt.

(** Lines 58 to 80: render the frames.  The result is the time the
    rendering took, or nothing when [manim] failed and the error was
    reported. *)
Definition render_frames (a : Args) : M (option float) :=
  print ("Rendering " ++ scene_name a ++ " from "
         ++ to_string (of_string (file_path a))
         ++ " at " ++ str_of_Z (fps a) ++ " FPS...") ;;
  start_time <- now ;;
  status <- run_command (manim_command a) ;;
  if negb (status =? 0)%Z then
    print_err ("Error: Manim rendering failed with exit code "
               ++ str_of_Z status) ;;
    ret None
  else
    end_time <- now ;;
    ret (Some (float_sub end_time start_time)).

(** [main], with [script] for the value of [__file__]. *)
Definition main (script : string) (a : Args) : M Z :=
  let file := of_string (file_path a) in
  present <- path_exists file ;;
  if negb present then
    print_err ("Error: File not found: " ++ to_string file) ;;
    ret 1%Z
  else
    delete_old_frames a ;;
    rendered <- render_frames a ;;
    match rendered with
    | None => ret 1%Z
    | Some elapsed =>
        report a elapsed ;;
        make_sheet script a
    end.

End Script.

(** The same command line without [--contact-sheet]. *)
Definition without_sheet (a : Args) : Args :=
  {| file_path := file_path a; scene_name := scene_name a; fps := fps a;
     contact_sheet := false |}.

(** [sys.exit(main())]: the status the process exits with. *)
Definition exit_status (r : result Z) : Z :=
  match r with
  | Ok status => status
  | Raise _ => 1%Z
  end.

Definition run {W} (host : Host W) (script : string) (a : Args) (w : W)
  : result Z * W * list event :=
  main host script a w [].

Definition outcome {W} (host : Host W) script a (w : W) : result Z :=
  fst (fst (run host script a w)).
Definition world_after {W} (host : Host W) script a (w : W) : W :=
  snd (fst (run host script a w)).
Definition trace {W} (host : Host W) script a (w : W) : list event :=
  snd (run host script a w).

(** The PNG entries of the frame directory in the state [w], as the
    paths the removal loop visits, and the sorted names the report
    works with. *)
Definition stale {W} (host : Host W) (a : Args) (w : W) : list string :=
  map (fun n => to_string (joinpath (image_dir a) n))
      (filter (fun n => endswith n ".png")
              (listdir host w (to_string (image_dir a)))).

Definition frames {W} (host : Host W) (a : Args) (w : W) : list string :=
  if exists_ host w (to_string (image_dir a))
  then sorted (filter (fun n => endswith n ".png")
                      (listdir host w (to_string (image_dir a))))
  else [].

(** The machine after the removal of the old frames, and the time the
    rendering took when started on the machine [w]: the difference of
    the clock readings after and before the run of [manim]. *)
Definition swept {W} (host : Host W) (a : Args) (w : W) : W :=
  snd (fst (delete_old_frames host a w [])).

Definition elapsed_time {W} (host : Host W) (a : Args) (w : W) : float :=
  float_sub
    (clock host (snd (spawn host (swept host a w) (manim_command a))))
    (clock host (swept host a w)).

(** What the report adds to the log, for the time [elapsed] in the
    state [w]. *)
Definition report_log {W} (host : Host W) (a : Args) (elapsed : float)
    (w : W) : list event :=
  snd (report host a elapsed w []).

(** The files removed and the commands run, in order. *)
Definition unlinked (t : list event) : list string :=
  flat_map (fun e => match e with Unlink p => [p] | _ => [] end) t.

Definition spawned (t : list event) : list (list string) :=
  flat_map (fun e => match e with Spawn c => [c] | _ => [] end) t.

(** The lines printed on standard output. *)
Definition printed (t : list event) : list string :=
  flat_map (fun e => match e with Stdout l => [l] | _ => [] end) t.

End Refresh.

(** A machine for the examples: its state is the list of the files in
    [media/images/foo], the scene file [foo.py] exists and so does the
    directory, [manim] renders three frames and every command
    succeeds. *)
Module RefreshDemo.
Import Py PyPath Refresh.
Local Open Scope string_scope.

Definition host : Host (list string) :=
  {| exists_ := fun w p =>
       String.eqb p "foo.py" || String.eqb p "media/images/foo";
     listdir := fun w d =>
       if String.eqb d "media/images/foo" then w else [];
     unlink := fun w p =>
       Ok (filter (fun n => negb (String.eqb ("media/images/foo/" ++ n) p)) w);
     spawn := fun w cmd =>
       match cmd with
       | "manim" :: _ =>
           (Ok 0%Z, (w ++ ["Foo0002.png"; "Foo0000.png"; "Foo0001.png"])%list)
       | _ => (Ok 0%Z, (w ++ ["Foo_sheet.png"])%list)
       end;
     clock := fun w => if (List.length w <=? 1)%nat
                       then S754_finite false 3 0      (* 3.0 *)
                       else S754_finite false 11 (-1); (* 5.5 *)
     resolve := fun w p => "/home/user/" ++ p |}.

Definition args (sheet : bool) : Args :=
  {| file_path := "./foo.py"; scene_name := "Foo"; fps := 2;
     contact_sheet := sheet |}.

Definition before : list string := ["Foo0000.png"; "notes.txt"; "Foo0007.png"].

End RefreshDemo.


(* ================================================================== *)
(** * Part II: properties *)
(* ================================================================== *)

Import Py Sheet FloatSem Spec.
Local Open Scope Q_scope.

(** ** Accuracy of the float operations

    The standard model of rounding: in the normal range an operation
    returns the exact result times [1 + d] with [|d| <= u].  It is
    derived here for the operations the script uses, from the
    definitions of [SpecFloat]. *)

Lemma pow2_pos e : 0 < pow2 e.
Proof. apply Qpower_0_lt. reflexivity. Qed.

Lemma pow2_add a b : pow2 (a + b) == pow2 a * pow2 b.
Proof. apply Qpower_plus. discriminate. Qed.

Lemma pow2_Z n : (0 <= n)%Z -> pow2 n == inject_Z (2 ^ n).
Proof.
  intros. unfold pow2. rewrite Zpower_Qpower by assumption. reflexivity.
Qed.

Lemma pow2_lt_inv a b : pow2 a < pow2 b -> (a < b)%Z.
Proof.
  intros. apply Qpower_lt_compat_l_inv with (q := 2); [assumption|reflexivity].
Qed.

Lemma inject_pos z : (0 < z)%Z -> 0 < inject_Z z.
Proof. intros. change 0 with (inject_Z 0). rewrite <- Zlt_Qlt. assumption. Qed.

(** *** The number of binary digits *)

Lemma digits2_size p : digits2_pos p = Pos.size p.
Proof. induction p; simpl; congruence. Qed.

Lemma digits_bounds p :
  (2 ^ (Zpos (digits2_pos p) - 1) <= Zpos p < 2 ^ Zpos (digits2_pos p))%Z.
Proof.
  rewrite digits2_size. split.
  - assert (H : (Zpos (2 ^ Pos.size p) <= Zpos p~0)%Z) by exact (Pos.size_le p).
    rewrite Pos2Z.inj_pow in H.
    replace (Zpos (Pos.size p)) with (Z.succ (Zpos (Pos.size p) - 1)) in H by lia.
    rewrite Z.pow_succ_r in H by lia. lia.
  - assert (H : (Zpos p < Zpos (2 ^ Pos.size p))%Z) by exact (Pos.size_gt p).
    rewrite Pos2Z.inj_pow in H. exact H.
Qed.

Lemma digits_ge p k : (2 ^ (k - 1) <= Zpos p)%Z -> (k <= Zpos (digits2_pos p))%Z.
Proof.
  intros H. pose proof (digits_bounds p) as [_ Hu].
  destruct (Z_lt_le_dec (Zpos (digits2_pos p)) k) as [L|L]; [|exact L].
  assert (2 ^ Zpos (digits2_pos p) <= 2 ^ (k - 1))%Z by (apply Z.pow_le_mono_r; lia).
  lia.
Qed.

Lemma digits_unique p k :
  (2 ^ (k - 1) <= Zpos p < 2 ^ k)%Z -> Zpos (digits2_pos p) = k.
Proof.
  intros [H1 H2]. pose proof (digits_bounds p) as [H3 H4].
  pose proof (digits_ge p k H1) as H5.
  destruct (Z.eq_dec (Zpos (digits2_pos p)) k) as [E|N]; [exact E|].
  assert (2 ^ k <= 2 ^ (Zpos (digits2_pos p) - 1))%Z by (apply Z.pow_le_mono_r; lia).
  lia.
Qed.

(** *** Shifting a mantissa to the right *)

Lemma inbetween_ext m l x y : x == y -> inbetween m l x -> inbetween m l y.
Proof.
  intros E. destruct l as [|[| |]]; simpl; rewrite E; auto.
Qed.

Lemma located_ext mrs x y : x == y -> located mrs x -> located mrs y.
Proof. intros E [H1 H2]. split; auto. eapply inbetween_ext; eauto. Qed.

Lemma inbetween_bounds m l x :
  inbetween m l x -> inject_Z m <= x /\ x < inject_Z m + 1.
Proof. destruct l as [|[| |]]; simpl; intros; lra. Qed.

Lemma inject_xO p : inject_Z (Zpos p~0) == 2 * inject_Z (Zpos p).
Proof. rewrite Pos2Z.inj_xO, inject_Z_mult. reflexivity. Qed.

Lemma inject_xI p : inject_Z (Zpos p~1) == 2 * inject_Z (Zpos p) + 1.
Proof. rewrite Pos2Z.inj_xI, inject_Z_plus, inject_Z_mult. reflexivity. Qed.

Lemma shr_1_located mrs x :
  located mrs x -> located (shr_1 mrs) (x * (1 # 2)).
Proof.
  destruct mrs as [m r s]. unfold located. simpl. intros [Hm H].
  destruct m as [|p|p]; [| |lia].
  - split; [simpl; lia|].
    change (inject_Z 0) with 0 in *.
    destruct r, s; simpl in *; change (inject_Z 0) with 0 in *; lra.
  - destruct p as [p|p|].
    + pose proof (inject_xI p). split; [simpl; lia|].
      destruct r, s; simpl in *; lra.
    + pose proof (inject_xO p). split; [simpl; lia|].
      destruct r, s; simpl in *; lra.
    + split; [simpl; lia|].
      destruct r, s; simpl in *;
        change (inject_Z 0) with 0 in *; change (inject_Z 1) with 1 in *; lra.
Qed.

Lemma pow2_m1 : pow2 (-1) == 1 # 2.
Proof. reflexivity. Qed.

Lemma iter_pos_located p : forall mrs x,
  located mrs x -> located (iter_pos shr_1 p mrs) (x * pow2 (- Zpos p)).
Proof.
  induction p as [p IH|p IH|]; intros mrs x H; cbn [iter_pos].
  - apply shr_1_located in H. apply IH in H. apply IH in H.
    eapply located_ext; [|exact H].
    replace (- Zpos p~1)%Z with (-1 + (- Zpos p + - Zpos p))%Z by lia.
    rewrite !pow2_add, pow2_m1. ring.
  - apply IH in H. apply IH in H.
    eapply located_ext; [|exact H].
    replace (- Zpos p~0)%Z with (- Zpos p + - Zpos p)%Z by lia.
    rewrite !pow2_add. ring.
  - apply shr_1_located in H. eapply located_ext; [|exact H].
    change (pow2 (- 1)%Z) with (1 # 2). reflexivity.
Qed.

Lemma located_of_loc m l x :
  (0 <= m)%Z -> inbetween m l x -> located (shr_record_of_loc m l) x.
Proof.
  intros Hm H. destruct l as [|[| |]]; split; simpl; auto.
Qed.

Lemma shr_located mrs e n x :
  (0 <= n)%Z -> located mrs x ->
  located (fst (shr mrs e n)) (x * pow2 (- n)) /\ snd (shr mrs e n) = (e + n)%Z.
Proof.
  intros Hn H. destruct n as [|p|p]; simpl; [| |lia].
  - split; [|lia]. eapply located_ext; [|exact H]. unfold pow2. simpl. ring.
  - split; auto. apply iter_pos_located; auto.
Qed.

Lemma rne_spec m l x :
  inbetween m l x ->
  (round_nearest_even m l = m \/ round_nearest_even m l = (m + 1)%Z) /\
  Qabs (inject_Z (round_nearest_even m l) - x) <= 1 # 2.
Proof.
  intros H.
  assert (Hs : inject_Z (m + 1) == inject_Z m + 1).
  { rewrite inject_Z_plus. reflexivity. }
  destruct l as [|[| |]]; cbn [inbetween round_nearest_even] in *.
  - split; auto. apply Qabs_Qle_condition. lra.
  - split.
    + destruct (Z.even m); auto.
    + destruct (Z.even m); apply Qabs_Qle_condition; lra.
  - split; auto. apply Qabs_Qle_condition. lra.
  - split; auto. apply Qabs_Qle_condition. lra.
Qed.

Lemma fexp_normal k : (-1021 <= k)%Z -> fexp prec emax k = (k - 53)%Z.
Proof. intros. unfold fexp, emin, prec, emax. lia. Qed.

Lemma F2Q_shift m e k :
  (0 <= k)%Z -> F2Q (m * 2 ^ k) e == F2Q m (e + k).
Proof.
  intros. unfold F2Q. rewrite inject_Z_mult, pow2_add, <- (pow2_Z k) by assumption.
  ring.
Qed.

Lemma round_aux_correct (s : bool) (M E : Z) (l : location) (X : Q) :
  (0 < M)%Z ->
  inbetween M l (X * pow2 (- E)) ->
  (53 <= Zdigits2 M)%Z ->
  (-1021 <= Zdigits2 M + E <= 1023)%Z ->
  exists m e,
    binary_round_aux prec emax s M E l = S754_finite s m e /\
    (2 ^ 52 <= Zpos m < 2 ^ 53)%Z /\
    Qabs (F2Q (Zpos m) e - X) <= X * pow2 (-53).
Proof.
  intros HM Hin Hd Hrange.
  destruct M as [|pM|pM]; try lia.
  pose proof (digits_bounds pM) as HdM.
  change (Zpos (digits2_pos pM)) with (Zdigits2 (Zpos pM)) in HdM.
  unfold binary_round_aux, shr_fexp.
  remember (Zdigits2 (Zpos pM)) as d eqn:Hdd. clear Hdd.
  rewrite (fexp_normal (d + E)) by lia.
  replace (d + E - 53 - E)%Z with (d - 53)%Z by lia.
  destruct (shr_located (shr_record_of_loc (Zpos pM) l) E (d - 53) (X * pow2 (- E)))
    as [Hloc He]; [lia | apply located_of_loc; [lia|exact Hin] |].
  destruct (shr (shr_record_of_loc (Zpos pM) l) E (d - 53)) as [mrs' e'].
  cbn [fst snd] in Hloc, He. subst e'.
  destruct Hloc as [Hm'0 Hin'].
  set (m' := shr_m mrs') in *.
  set (x' := X * pow2 (- E) * pow2 (- (d - 53))) in *.
  (* the shifted mantissa has exactly 53 digits *)
  pose proof (inbetween_bounds _ _ _ Hin) as [HXl HXu].
  pose proof (inbetween_bounds _ _ _ Hin') as [Hxl Hxu].
  assert (Hp : 0 < pow2 (- (d - 53))) by apply pow2_pos.
  assert (Hpp : pow2 (- (d - 53)) * pow2 (d - 53) == 1).
  { rewrite <- pow2_add. replace (- (d - 53) + (d - 53))%Z with 0%Z by lia. reflexivity. }
  assert (Hq : pow2 (d - 53) == inject_Z (2 ^ (d - 53))) by (apply pow2_Z; lia).
  assert (Hq0 : 0 < pow2 (d - 53)) by apply pow2_pos.
  assert (Hsplit : (2 ^ d = 2 ^ 53 * 2 ^ (d - 53))%Z).
  { rewrite <- Z.pow_add_r by lia. f_equal. lia. }
  assert (Hsplit1 : (2 ^ (d - 1) = 2 ^ 52 * 2 ^ (d - 53))%Z).
  { rewrite <- Z.pow_add_r by lia. f_equal. lia. }
  assert (Hx'l : inject_Z (2 ^ 52) <= x').
  { unfold x'.
    assert (inject_Z (2 ^ 52) * pow2 (d - 53) <= X * pow2 (- E)).
    { rewrite Hq, <- inject_Z_mult, <- Hsplit1.
      apply Qle_trans with (inject_Z (Zpos pM)); [|exact HXl].
      rewrite <- Zle_Qle. lia. }
    apply Qle_trans with (inject_Z (2 ^ 52) * pow2 (d - 53) * pow2 (- (d - 53))).
    - apply Qle_lteq. right. rewrite <- Qmult_assoc, (Qmult_comm (pow2 (d - 53))), Hpp. ring.
    - apply Qmult_le_compat_r; [assumption | apply Qlt_le_weak; assumption]. }
  assert (Hx'u : x' < inject_Z (2 ^ 53)).
  { unfold x'.
    assert (X * pow2 (- E) < inject_Z (2 ^ 53) * pow2 (d - 53)).
    { rewrite Hq, <- inject_Z_mult, <- Hsplit.
      apply Qlt_le_trans with (inject_Z (Zpos pM) + 1); [exact HXu|].
      change 1 with (inject_Z 1). rewrite <- inject_Z_plus, <- Zle_Qle. lia. }
    apply Qlt_le_trans with (inject_Z (2 ^ 53) * pow2 (d - 53) * pow2 (- (d - 53))).
    - apply Qmult_lt_compat_r; assumption.
    - apply Qle_lteq. right. rewrite <- Qmult_assoc, (Qmult_comm (pow2 (d - 53))), Hpp. ring. }
  assert (HX : X == x' * pow2 (E + (d - 53))).
  { unfold x'. rewrite <- !Qmult_assoc, <- !pow2_add.
    replace (- E + (- (d - 53) + (E + (d - 53))))%Z with 0%Z by lia.
    change (pow2 0) with 1. ring. }
  clearbody x' m'.
  assert (Hm' : (2 ^ 52 <= m' < 2 ^ 53)%Z).
  { split.
    - assert (inject_Z (2 ^ 52) < inject_Z (m' + 1)).
      { rewrite inject_Z_plus. change (inject_Z 1) with 1. lra. }
      rewrite <- Zlt_Qlt in H. lia.
    - rewrite Zlt_Qlt. lra. }
  destruct (rne_spec _ _ _ Hin') as [Hr Herr].
  set (m1 := round_nearest_even m' (loc_of_shr_record mrs')) in *.
  (* the relative error *)
  assert (Hval : Qabs (F2Q m1 (E + (d - 53)) - X) <= X * pow2 (-53)).
  { assert (Hpe : 0 < pow2 (E + (d - 53))) by apply pow2_pos.
    assert (H53 : pow2 (-53) * inject_Z (2 ^ 52) == 1 # 2) by reflexivity.
    unfold F2Q. rewrite HX.
    setoid_replace (inject_Z m1 * pow2 (E + (d - 53)) - x' * pow2 (E + (d - 53)))
      with ((inject_Z m1 - x') * pow2 (E + (d - 53))) by ring.
    rewrite Qabs_Qmult, (Qabs_pos (pow2 _)) by (apply Qlt_le_weak; assumption).
    setoid_replace (x' * pow2 (E + (d - 53)) * pow2 (-53))
      with (x' * pow2 (-53) * pow2 (E + (d - 53))) by ring.
    apply Qmult_le_compat_r; [|apply Qlt_le_weak; assumption].
    apply Qle_trans with (1 # 2); [exact Herr|].
    rewrite <- H53.
    setoid_replace (x' * pow2 (-53)) with (pow2 (-53) * x') by ring.
    apply Qmult_le_l; [apply pow2_pos | exact Hx'l]. }
  change (shr_m {| shr_m := m1; shr_r := false; shr_s := false |}) with m1.
  destruct (Z.eq_dec m1 (2 ^ 53)) as [Hcarry|Hnocarry].
  - (* the mantissa overflowed into the next binade *)
    rewrite Hcarry in *.
    change (Zdigits2 (2 ^ 53)) with 54%Z.
    rewrite (fexp_normal (54 + (E + (d - 53)))) by lia.
    replace (54 + (E + (d - 53)) - 53 - (E + (d - 53)))%Z with 1%Z by lia.
    cbn [shr_record_of_loc shr iter_pos]. 
    change (shr_m (shr_1 {| shr_m := 2 ^ 53; shr_r := false; shr_s := false |}))
      with (Zpos (2 ^ 52)).
    replace (E + (d - 53) + 1 <=? emax - prec)%Z with true
      by (symmetry; apply Z.leb_le; unfold emax, prec; lia).
    exists (2 ^ 52)%positive, (E + (d - 53) + 1)%Z. split; [reflexivity|].
    split; [simpl; lia|].
    rewrite <- F2Q_shift by lia. exact Hval.
  - assert (Hm1 : (2 ^ 52 <= m1 < 2 ^ 53)%Z) by lia.
    destruct m1 as [|p1|p1]; try lia.
    change (Zdigits2 (Zpos p1)) with (Zpos (digits2_pos p1)).
    rewrite (digits_unique p1 53) by exact Hm1.
    rewrite (fexp_normal (53 + (E + (d - 53)))) by lia.
    replace (53 + (E + (d - 53)) - 53 - (E + (d - 53)))%Z with 0%Z by lia.
    cbn [shr_record_of_loc shr shr_m].
    replace (E + (d - 53) <=? emax - prec)%Z with true
      by (symmetry; apply Z.leb_le; unfold emax, prec; lia).
    exists p1, (E + (d - 53))%Z. auto.
Qed.


(** The same with the range of the exact value in place of the range
    of the exponent. *)
Lemma round_aux_range (s : bool) (M E : Z) (l : location) (X : Q) :
  (0 < M)%Z ->
  inbetween M l (X * pow2 (- E)) ->
  (53 <= Zdigits2 M)%Z ->
  pow2 (-1000) <= X -> X < pow2 1000 ->
  exists m e,
    binary_round_aux prec emax s M E l = S754_finite s m e /\
    (2 ^ 52 <= Zpos m < 2 ^ 53)%Z /\
    Qabs (F2Q (Zpos m) e - X) <= X * pow2 (-53).
Proof.
  intros HM Hin Hd Hlo Hhi.
  apply round_aux_correct; auto.
  destruct M as [|pM|pM]; try lia.
  pose proof (digits_bounds pM) as [Hdl Hdu].
  change (Zdigits2 (Zpos pM)) with (Zpos (digits2_pos pM)) in *.
  set (d := Zpos (digits2_pos pM)) in *. clearbody d.
  pose proof (inbetween_bounds _ _ _ Hin) as [Hl Hu].
  assert (HpE : 0 < pow2 (- E)) by apply pow2_pos.
  split.
  - (* 2^(-1000-E) <= X 2^-E < M + 1 <= 2^d *)
    assert (pow2 (-1000 + - E) < pow2 d).
    { rewrite pow2_add.
      apply Qle_lt_trans with (X * pow2 (- E)).
      - apply Qmult_le_compat_r; [exact Hlo | apply Qlt_le_weak; exact HpE].
      - apply Qlt_le_trans with (inject_Z (Zpos pM) + 1); [exact Hu|].
        rewrite pow2_Z by lia. change 1 with (inject_Z 1).
        rewrite <- inject_Z_plus, <- Zle_Qle. lia. }
    apply pow2_lt_inv in H. lia.
  - assert (pow2 (d - 1) < pow2 (1000 + - E)).
    { rewrite (pow2_add 1000).
      apply Qle_lt_trans with (X * pow2 (- E)).
      - apply Qle_trans with (inject_Z (Zpos pM)); [|exact Hl].
        rewrite pow2_Z by lia. rewrite <- Zle_Qle. lia.
      - apply Qmult_lt_compat_r; assumption. }
    apply pow2_lt_inv in H. lia.
Qed.

(** ** Conversion of an integer *)

Lemma iter_xO m d : Zpos (Pos.iter xO m d) = (Zpos m * 2 ^ Zpos d)%Z.
Proof.
  induction d using Pos.peano_ind.
  - simpl. lia.
  - rewrite Pos.iter_succ, Pos2Z.inj_xO, IHd, Pos2Z.inj_succ, Z.pow_succ_r by lia.
    lia.
Qed.


Lemma float_of_int_exact i :
  (0 < i < 2 ^ 53)%Z ->
  exists x, float_of_int i = Ok x /\ is_float x (inject_Z i).
Proof.
  intros Hi. destruct i as [|p|p]; try lia.
  unfold float_of_int, binary_normalize, binary_round.
  pose proof (digits_bounds p) as [Hdl Hdu].
  assert (Hd53 : (Zpos (digits2_pos p) <= 53)%Z).
  { destruct (Z_lt_le_dec 53 (Zpos (digits2_pos p))); [|lia].
    assert (2 ^ 53 <= 2 ^ (Zpos (digits2_pos p) - 1))%Z by (apply Z.pow_le_mono_r; lia).
    lia. }
  rewrite Z.add_0_r, fexp_normal by lia.
  remember (Zpos (digits2_pos p)) as d eqn:Hd.
  assert (exists mz, shl_align p 0 (d - 53) = (mz, (d - 53)%Z) /\
                     Zpos mz = (Zpos p * 2 ^ (53 - d))%Z) as (mz & Hal & Hmz).
  { unfold shl_align. rewrite Z.sub_0_r.
    destruct (d - 53)%Z as [|k|k] eqn:Hk; try lia.
    - exists p. split; [f_equal; lia|]. replace (53 - d)%Z with 0%Z by lia. lia.
    - exists (Pos.iter xO p k). split; auto.
      rewrite iter_xO. f_equal. f_equal. lia. }
  rewrite Hal.
  assert (Hmz53 : (2 ^ 52 <= Zpos mz < 2 ^ 53)%Z).
  { rewrite Hmz. split.
    - replace 52%Z with ((d - 1) + (53 - d))%Z by lia.
      rewrite Z.pow_add_r by lia. apply Z.mul_le_mono_nonneg_r; lia.
    - replace 53%Z with (d + (53 - d))%Z at 2 by lia.
      rewrite Z.pow_add_r by lia. apply Z.mul_lt_mono_pos_r; lia. }
  unfold binary_round_aux, shr_fexp.
  change (Zdigits2 (Zpos mz)) with (Zpos (digits2_pos mz)).
  rewrite (digits_unique mz 53) by exact Hmz53.
  rewrite fexp_normal by lia.
  replace (53 + (d - 53) - 53 - (d - 53))%Z with 0%Z by lia.
  cbn [shr_record_of_loc shr shr_m loc_of_shr_record round_nearest_even].
  change (Zdigits2 (Zpos mz)) with (Zpos (digits2_pos mz)).
  rewrite (digits_unique mz 53) by exact Hmz53.
  rewrite fexp_normal by lia.
  replace (53 + (d - 53) - 53 - (d - 53))%Z with 0%Z by lia.
  cbn [shr shr_m].
  replace (d - 53 <=? emax - prec)%Z with true
    by (symmetry; apply Z.leb_le; unfold emax, prec; lia).
  eexists. split; [reflexivity|].
  exists mz, (d - 53)%Z. split; [reflexivity|]. split; [exact Hmz53|].
  rewrite Hmz. rewrite F2Q_shift by lia.
  replace (d - 53 + (53 - d))%Z with 0%Z by lia.
  unfold F2Q. change (pow2 0) with 1. ring.
Qed.

(** ** Division *)

Lemma new_location_inbetween (b r q : Z) (x : Q) :
  (0 < b)%Z -> (0 <= r < b)%Z ->
  x * inject_Z b == inject_Z (q * b + r) ->
  inbetween q (new_location b r) x.
Proof.
  intros Hb Hr Hx.
  assert (HB : 0 < inject_Z b) by (change 0 with (inject_Z 0); rewrite <- Zlt_Qlt; lia).
  assert (Hx' : x == inject_Z q + inject_Z r / inject_Z b).
  { rewrite inject_Z_plus, inject_Z_mult in Hx.
    apply (Qmult_inj_r _ _ (inject_Z b)); [lra|].
    rewrite Hx. field. lra. }
  assert (Hhalf : forall c, (2 * r ?= b)%Z = c ->
            match c with
            | Lt => inject_Z r / inject_Z b < 1 # 2
            | Eq => inject_Z r / inject_Z b == 1 # 2
            | Gt => 1 # 2 < inject_Z r / inject_Z b
            end).
  { intros c Hc. destruct c.
    - apply Z.compare_eq in Hc.
      assert (inject_Z b == 2 * inject_Z r).
      { rewrite <- Hc, inject_Z_mult. reflexivity. }
      rewrite H. field. intro Hz. lra.
    - rewrite Z.compare_lt_iff in Hc.
      apply Qlt_shift_div_r; [exact HB|].
      assert (inject_Z (2 * r) < inject_Z b) by (rewrite <- Zlt_Qlt; lia).
      rewrite inject_Z_mult in H. change (inject_Z 2) with 2 in H. lra.
    - rewrite Z.compare_gt_iff in Hc.
      apply Qlt_shift_div_l; [exact HB|].
      assert (inject_Z b < inject_Z (2 * r)) by (rewrite <- Zlt_Qlt; lia).
      rewrite inject_Z_mult in H. change (inject_Z 2) with 2 in H. lra. }
  assert (Hpos : (r <> 0)%Z -> 0 < inject_Z r / inject_Z b).
  { intros. apply Qlt_shift_div_l; [exact HB|].
    assert (inject_Z 0 < inject_Z r) by (rewrite <- Zlt_Qlt; lia).
    change (inject_Z 0) with 0 in H0. lra. }
  assert (Hlt1 : inject_Z r / inject_Z b < 1).
  { apply Qlt_shift_div_r; [exact HB|].
    assert (inject_Z r < inject_Z b) by (rewrite <- Zlt_Qlt; lia). lra. }
  unfold new_location.
  destruct (Z.even b) eqn:Hev; unfold new_location_even, new_location_odd;
    destruct (Z.eqb_spec r 0) as [Hr0|Hr0].
  - subst r. cbn [inbetween].
    rewrite Hx'. change (inject_Z 0) with 0. field. lra.
  - specialize (Hpos Hr0). specialize (Hhalf _ eq_refl).
    destruct (2 * r ?= b)%Z; cbn [inbetween]; cbv beta iota in Hhalf; lra.
  - subst r. cbn [inbetween].
    rewrite Hx'. change (inject_Z 0) with 0. field. lra.
  - specialize (Hpos Hr0).
    assert (Hodd : (2 * r <> b)%Z).
    { intros Heq. rewrite <- Heq, Z.even_mul in Hev. discriminate. }
    destruct (2 * r + 1 ?= b)%Z eqn:Hc.
    + apply Z.compare_eq in Hc.
      assert (H2 : (2 * r ?= b)%Z = Lt) by (apply Z.compare_lt_iff; lia).
      specialize (Hhalf _ H2). cbn [inbetween]. cbv beta iota in Hhalf. lra.
    + rewrite Z.compare_lt_iff in Hc.
      assert (H2 : (2 * r ?= b)%Z = Lt) by (apply Z.compare_lt_iff; lia).
      specialize (Hhalf _ H2). cbn [inbetween]. cbv beta iota in Hhalf. lra.
    + rewrite Z.compare_gt_iff in Hc.
      assert (H2 : (2 * r ?= b)%Z = Gt) by (apply Z.compare_gt_iff; lia).
      specialize (Hhalf _ H2). cbn [inbetween]. cbv beta iota in Hhalf. lra.
Qed.


Lemma true_div_accurate a b :
  (0 < a < 2 ^ 1000)%Z -> (0 < b < 2 ^ 1000)%Z ->
  exists x v, true_div a b = Ok x /\ is_float x v /\
              Qabs (v * inject_Z b - inject_Z a) <= inject_Z a * pow2 (-53).
Proof.
  intros Ha Hb.
  destruct a as [|pa|pa]; try lia. destruct b as [|pb|pb]; try lia.
  unfold true_div. change (Zpos pb =? 0)%Z with false. cbv iota.
  cbn [Z2SF SFdiv xorb]. unfold SFdiv_core_binary.
  pose proof (digits_bounds pa) as [Ha1 Ha2].
  pose proof (digits_bounds pb) as [Hb1 Hb2].
  change (Zdigits2 (Zpos pa)) with (Zpos (digits2_pos pa)).
  change (Zdigits2 (Zpos pb)) with (Zpos (digits2_pos pb)).
  remember (Zpos (digits2_pos pa)) as d1 eqn:Hd1.
  remember (Zpos (digits2_pos pb)) as d2 eqn:Hd2.
  assert (Hd1r : (1 <= d1 <= 1000)%Z).
  { split; [lia|]. destruct (Z_lt_le_dec 1000 d1); [|lia].
    assert (2 ^ 1000 <= 2 ^ (d1 - 1))%Z by (apply Z.pow_le_mono_r; lia). lia. }
  assert (Hd2r : (1 <= d2 <= 1000)%Z).
  { split; [lia|]. destruct (Z_lt_le_dec 1000 d2); [|lia].
    assert (2 ^ 1000 <= 2 ^ (d2 - 1))%Z by (apply Z.pow_le_mono_r; lia). lia. }
  rewrite !Z.add_0_r, fexp_normal by lia.
  change (0 - 0)%Z with 0%Z.
  set (e' := Z.min (d1 - d2 - 53) 0).
  set (s := (0 - e')%Z).
  assert (Hs : (0 <= s)%Z) by (unfold s, e'; lia).
  assert (Hm' : match s with
                | Zpos _ => Z.shiftl (Zpos pa) s
                | Z0 => Zpos pa
                | Zneg _ => 0%Z
                end = (Zpos pa * 2 ^ s)%Z).
  { destruct s as [|ps|ps] eqn:Es; try lia.
    rewrite Z.shiftl_mul_pow2 by lia. reflexivity. }
  rewrite Hm'. clear Hm'.
  set (m' := (Zpos pa * 2 ^ s)%Z).
  pose proof (Z_div_mod m' (Zpos pb) eq_refl) as Hdm.
  destruct (Z.div_eucl m' (Zpos pb)) as [q r]. destruct Hdm as [Hdm Hr].
  (* the quotient has at least 53 digits *)
  assert (Hq : (2 ^ 52 <= q)%Z).
  { assert (Zpos pb * 2 ^ 52 <= m')%Z.
    { unfold m'. 
      destruct (Z_le_gt_dec (d1 - d2 - 53) 0) as [Hk|Hk].
      - assert (s = 53 - (d1 - d2))%Z by (unfold s, e'; lia).
        apply Z.le_trans with (2 ^ d2 * 2 ^ 52)%Z.
        { apply Z.mul_le_mono_nonneg_r; lia. }
        apply Z.le_trans with (2 ^ (d1 - 1) * 2 ^ s)%Z.
        { rewrite <- !Z.pow_add_r by lia. apply Z.pow_le_mono_r; lia. }
        apply Z.mul_le_mono_nonneg_r; lia.
      - assert (s = 0)%Z by (unfold s, e'; lia). rewrite H. rewrite Z.pow_0_r, Z.mul_1_r.
        apply Z.le_trans with (2 ^ d2 * 2 ^ 52)%Z.
        { apply Z.mul_le_mono_nonneg_r; lia. }
        apply Z.le_trans with (2 ^ (d1 - 1))%Z; [|lia].
        rewrite <- !Z.pow_add_r by lia. apply Z.pow_le_mono_r; lia. }
    assert (2 ^ 52 * Zpos pb <= Zpos pb * q + r)%Z by lia.
    destruct (Z_lt_le_dec q (2 ^ 52)); [|lia].
    assert (Zpos pb * (q + 1) <= Zpos pb * 2 ^ 52)%Z by (apply Z.mul_le_mono_nonneg_l; lia).
    lia. }
  set (A := inject_Z (Zpos pa)). set (B := inject_Z (Zpos pb)).
  assert (HA : 0 < A) by (apply inject_pos; lia).
  assert (HB : 0 < B) by (apply inject_pos; lia).
  destruct (round_aux_range false q e' (new_location (Zpos pb) r) (A / B))
    as (m & e & Hres & Hm & Herr).
  - lia.
  - apply new_location_inbetween; [lia | lia |].
    replace (q * Zpos pb + r)%Z with m' by (rewrite Hdm; ring).
    unfold m'. rewrite inject_Z_mult. fold A B.
    replace (- e')%Z with s by (unfold s; lia).
    rewrite pow2_Z by lia. field. lra.
  - destruct q as [|pq|pq]; try lia.
    apply (digits_ge pq 53). exact Hq.
  - (* 2^-1000 <= a / b *)
    apply Qle_shift_div_l; [exact HB|].
    apply Qle_trans with 1.
    + assert (B < inject_Z (2 ^ 1000)) by (unfold B; rewrite <- Zlt_Qlt; lia).
      assert (pow2 (-1000) * inject_Z (2 ^ 1000) == 1) by reflexivity.
      apply Qle_trans with (pow2 (-1000) * inject_Z (2 ^ 1000)); [|rewrite H0; apply Qle_refl].
      apply Qmult_le_l; [apply pow2_pos | apply Qlt_le_weak; exact H].
    + assert (inject_Z 1 <= A) by (unfold A; rewrite <- Zle_Qle; lia). exact H.
  - apply Qlt_shift_div_r; [exact HB|].
    assert (A < inject_Z (2 ^ 1000)) by (unfold A; rewrite <- Zlt_Qlt; lia).
    assert (inject_Z 1 <= B) by (unfold B; rewrite <- Zle_Qle; lia).
    change (inject_Z 1) with 1 in H0.
    assert (pow2 1000 == inject_Z (2 ^ 1000)) by reflexivity.
    rewrite H1.
    apply Qlt_le_trans with (inject_Z (2 ^ 1000) * 1); [lra|].
    apply Qmult_le_l; [apply inject_pos; reflexivity | exact H0].
  - rewrite Hres. exists (S754_finite false m e), (F2Q (Zpos m) e).
    split; [reflexivity|]. split.
    + exists m, e. split; [reflexivity|]. split; [exact Hm | reflexivity].
    + setoid_replace (F2Q (Zpos m) e * B - A) with ((F2Q (Zpos m) e - A / B) * B)
        by (field; lra).
      rewrite Qabs_Qmult, (Qabs_pos B) by lra.
      setoid_replace (A * pow2 (-53)) with (A / B * pow2 (-53) * B) by (field; lra).
      apply Qmult_le_compat_r; [exact Herr | lra].
Qed.

(** ** Multiplication *)

Lemma mul_accurate x y vx vy :
  is_float x vx -> is_float y vy ->
  pow2 (-1000) <= vx * vy -> vx * vy < pow2 1000 ->
  exists v, is_float (SFmul prec emax x y) v /\
            Qabs (v - vx * vy) <= vx * vy * pow2 (-53).
Proof.
  intros (mx & ex & -> & Hmx & Hvx) (my & ey & -> & Hmy & Hvy) Hlo Hhi.
  cbn [SFmul xorb].
  destruct (round_aux_range false (Zpos (mx * my)) (ex + ey) loc_Exact (vx * vy))
    as (m & e & Hres & Hm & Herr); auto.
  - lia.
  - cbn [inbetween]. rewrite <- Hvx, <- Hvy. unfold F2Q.
    rewrite Pos2Z.inj_mul, inject_Z_mult.
    replace (- (ex + ey))%Z with (- ex + - ey)%Z by lia.
    assert (H1 : pow2 ex * pow2 (- ex) == 1).
    { rewrite <- pow2_add. replace (ex + - ex)%Z with 0%Z by lia. reflexivity. }
    assert (H2 : pow2 ey * pow2 (- ey) == 1).
    { rewrite <- pow2_add. replace (ey + - ey)%Z with 0%Z by lia. reflexivity. }
    rewrite pow2_add.
    setoid_replace (inject_Z (Zpos mx) * pow2 ex * (inject_Z (Zpos my) * pow2 ey)
                    * (pow2 (- ex) * pow2 (- ey)))
      with (inject_Z (Zpos mx) * inject_Z (Zpos my)
            * (pow2 ex * pow2 (- ex)) * (pow2 ey * pow2 (- ey))) by ring.
    rewrite H1, H2. ring.
  - change (Zdigits2 (Zpos (mx * my))) with (Zpos (digits2_pos (mx * my))).
    apply digits_ge. rewrite Pos2Z.inj_mul.
    apply Z.le_trans with (2 ^ 52 * 1)%Z; [lia|].
    apply Z.mul_le_mono_nonneg; lia.
  - rewrite Hres. exists (F2Q (Zpos m) e). split; [|exact Herr].
    exists m, e. split; [reflexivity|]. split; [exact Hm | reflexivity].
Qed.

(** ** Rounding to an integer *)

Lemma half_compare (b r : Z) (c : comparison) :
  (0 < b)%Z -> (2 * r ?= b)%Z = c ->
  match c with
  | Lt => inject_Z r / inject_Z b < 1 # 2
  | Eq => inject_Z r / inject_Z b == 1 # 2
  | Gt => 1 # 2 < inject_Z r / inject_Z b
  end.
Proof.
  intros Hb Hc. pose proof (inject_pos b Hb) as HB. destruct c.
  - apply Z.compare_eq in Hc.
    assert (inject_Z b == 2 * inject_Z r).
    { rewrite <- Hc, inject_Z_mult. reflexivity. }
    rewrite H. field. intro Hz. lra.
  - rewrite Z.compare_lt_iff in Hc.
    apply Qlt_shift_div_r; [exact HB|].
    assert (inject_Z (2 * r) < inject_Z b) by (rewrite <- Zlt_Qlt; lia).
    rewrite inject_Z_mult in H. change (inject_Z 2) with 2 in H. lra.
  - rewrite Z.compare_gt_iff in Hc.
    apply Qlt_shift_div_l; [exact HB|].
    assert (inject_Z b < inject_Z (2 * r)) by (rewrite <- Zlt_Qlt; lia).
    rewrite inject_Z_mult in H. change (inject_Z 2) with 2 in H. lra.
Qed.

Lemma round_half_even_near m e :
  Qabs (inject_Z (round_half_even m e) - F2Q (Zpos m) e) <= 1 # 2.
Proof.
  unfold round_half_even, F2Q. destruct e as [|p|p].
  - change (pow2 0) with 1. apply Qabs_Qle_condition. lra.
  - rewrite inject_Z_mult, pow2_Z by lia. apply Qabs_Qle_condition. lra.
  - cbv zeta.
    assert (Hd : (0 < 2 ^ Zpos p)%Z) by lia.
    assert (Hp : pow2 (Zneg p) * inject_Z (2 ^ Zpos p) == 1).
    { change (Zneg p) with (- Zpos p)%Z. rewrite <- pow2_Z, <- pow2_add by lia.
      replace (- Zpos p + Zpos p)%Z with 0%Z by lia. reflexivity. }
    pose proof (Z.div_mod (Zpos m) (2 ^ Zpos p) ltac:(lia)) as Hdm.
    pose proof (Z.mod_pos_bound (Zpos m) (2 ^ Zpos p) Hd) as Hr.
    set (d := (2 ^ Zpos p)%Z) in *. clearbody d.
    set (q := (Zpos m / d)%Z) in *. set (r := (Zpos m mod d)%Z) in *.
    clearbody q r.
    pose proof (inject_pos d Hd) as HD.
    assert (Hv : inject_Z (Zpos m) * pow2 (Zneg p) == inject_Z q + inject_Z r / inject_Z d).
    { rewrite Hdm, inject_Z_plus, inject_Z_mult.
      setoid_replace (pow2 (Zneg p)) with (/ inject_Z d).
      - field. lra.
      - apply (Qmult_inj_r _ _ (inject_Z d)); [lra|]. rewrite Hp. field. lra. }
    rewrite Hv.
    assert (Hr0 : 0 <= inject_Z r / inject_Z d).
    { apply Qle_shift_div_l; [exact HD|].
      assert (inject_Z 0 <= inject_Z r) by (rewrite <- Zle_Qle; lia).
      change (inject_Z 0) with 0 in H. lra. }
    assert (Hr1 : inject_Z r / inject_Z d < 1).
    { apply Qlt_shift_div_r; [exact HD|].
      assert (inject_Z r < inject_Z d) by (rewrite <- Zlt_Qlt; lia). lra. }
    assert (Hs : inject_Z (q + 1) == inject_Z q + 1).
    { rewrite inject_Z_plus. reflexivity. }
    pose proof (half_compare d r _ Hd eq_refl) as Hh.
    destruct (2 * r ?= d)%Z; cbv beta iota in Hh.
    + destruct (Z.even q); apply Qabs_Qle_condition; lra.
    + apply Qabs_Qle_condition; lra.
    + apply Qabs_Qle_condition; lra.
Qed.

Lemma round_float_near x v :
  is_float x v ->
  exists z, round_float x = Ok z /\ Qabs (inject_Z z - v) <= 1 # 2.
Proof.
  intros (m & e & -> & _ & Hv). cbn [round_float cond_Zopp].
  eexists. split; [reflexivity|]. rewrite <- Hv. apply round_half_even_near.
Qed.

(** ** The sampling formula *)



Lemma pow2_m53 : pow2 (-53) == u.
Proof. reflexivity. Qed.

Section Sampling.
Variables (a b : Z) (x : float) (vs : Q).
Hypothesis Hb : (1 <= b <= a)%Z.
Hypothesis Ha : (a < 2 ^ 51)%Z.
Hypothesis Hx : is_float x vs.
Hypothesis Hstep : Qabs (vs * inject_Z b - inject_Z a) <= inject_Z a * u.

Let A := inject_Z a.
Let B := inject_Z b.

Lemma step_bounds :
  1 <= B /\ B <= A /\ A <= 2251799813685247 /\
  A * (1 - u) <= vs * B /\ vs * B <= A * (1 + u) /\ 1 - u <= vs.
Proof.
  assert (H1 : 1 <= B).
  { unfold B. change 1 with (inject_Z 1). rewrite <- Zle_Qle. lia. }
  assert (H2 : B <= A) by (unfold A, B; rewrite <- Zle_Qle; lia).
  assert (H3 : A <= 2251799813685247).
  { unfold A. change 2251799813685247 with (inject_Z (2 ^ 51 - 1)).
    rewrite <- Zle_Qle. lia. }
  apply Qabs_Qle_condition in Hstep. fold A B in Hstep.
  unfold u in *.
  assert (H4 : A * (1 - u) <= vs * B) by (unfold u; lra).
  assert (H5 : vs * B <= A * (1 + u)) by (unfold u; lra).
  repeat split; auto.
  assert ((1 - u) * B <= vs * B) by (unfold u in *; lra).
  apply Qmult_le_r in H; [exact H | lra].
Qed.

Lemma sample_zero : sample (Float x) 0 = Ok 0%Z.
Proof.
  destruct Hx as (m & e & -> & _). reflexivity.
Qed.

Lemma sample_point i :
  (1 <= i <= b)%Z ->
  exists z v, sample (Float x) i = Ok z /\
              Qabs (inject_Z z - v) <= 1 # 2 /\
              Qabs (v - inject_Z i * vs) <= inject_Z i * vs * u.
Proof.
  intros Hi.
  destruct step_bounds as (H1 & H2 & H3 & H4 & H5 & H6).
  assert (HI1 : 1 <= inject_Z i).
  { change 1 with (inject_Z 1). rewrite <- Zle_Qle. lia. }
  assert (HIB : inject_Z i <= B) by (unfold B; rewrite <- Zle_Qle; lia).
  assert (Hvs : 0 <= vs) by (unfold u in H6; lra).
  assert (HP1 : vs <= inject_Z i * vs).
  { setoid_replace vs with (1 * vs) at 1 by ring.
    apply Qmult_le_compat_r; assumption. }
  assert (HP2 : inject_Z i * vs <= vs * B).
  { rewrite (Qmult_comm vs B). apply Qmult_le_compat_r; assumption. }
  destruct (float_of_int_exact i) as (fi & Hfi & Hfiv); [lia|].
  destruct (mul_accurate fi x (inject_Z i) vs Hfiv Hx) as (v & Hv & Herr).
  - apply Qle_trans with (1 # 2); [discriminate|]. unfold u in *. lra.
  - apply Qle_lt_trans with 4503599627370496; [unfold u in *; lra | reflexivity].
  - destruct (round_float_near _ _ Hv) as (z & Hz & Hzv).
    exists z, v. split; [|split].
    + unfold sample, int_mul, mul_int_float. rewrite Hfi. cbn [bind int_round]. exact Hz.
    + exact Hzv.
    + rewrite <- pow2_m53. exact Herr.
Qed.

Lemma sample_in_range i z :
  (0 <= i <= b)%Z -> sample (Float x) i = Ok z -> (0 <= z <= a)%Z.
Proof.
  intros Hi Hz.
  destruct (Z.eq_dec i 0) as [->|Hi0].
  - rewrite sample_zero in Hz. inversion Hz. lia.
  - destruct (sample_point i) as (z' & v & Hz' & Hzv & Hv); [lia|].
    rewrite Hz in Hz'. inversion Hz'. subst z'. clear Hz'.
    destruct step_bounds as (H1 & H2 & H3 & H4 & H5 & H6).
    assert (HI1 : 1 <= inject_Z i).
    { change 1 with (inject_Z 1). rewrite <- Zle_Qle. lia. }
    assert (HIB : inject_Z i <= B) by (unfold B; rewrite <- Zle_Qle; lia).
    assert (Hvs : 0 <= vs) by (unfold u in H6; lra).
    assert (HP1 : vs <= inject_Z i * vs).
    { setoid_replace vs with (1 * vs) at 1 by ring.
      apply Qmult_le_compat_r; assumption. }
    assert (HP2 : inject_Z i * vs <= vs * B).
    { rewrite (Qmult_comm vs B). apply Qmult_le_compat_r; assumption. }
    apply Qabs_Qle_condition in Hzv. apply Qabs_Qle_condition in Hv.
    set (P := inject_Z i * vs) in *. clearbody P.
    split.
    + assert (inject_Z (-1) < inject_Z z).
      { change (inject_Z (-1)) with (-1). unfold u in *. lra. }
      rewrite <- Zlt_Qlt in H. lia.
    + assert (inject_Z z < inject_Z (a + 1)).
      { rewrite inject_Z_plus. fold A. change (inject_Z 1) with 1.
        unfold u in *. lra. }
      rewrite <- Zlt_Qlt in H. lia.
Qed.

Lemma sample_last z : sample (Float x) b = Ok z -> z = a.
Proof.
  intros Hz.
  destruct (sample_point b) as (z' & v & Hz' & Hzv & Hv); [lia|].
  rewrite Hz in Hz'. inversion Hz'. subst z'. clear Hz'.
  destruct step_bounds as (H1 & H2 & H3 & H4 & H5 & H6).
  fold B in Hv.
  apply Qabs_Qle_condition in Hzv. apply Qabs_Qle_condition in Hv.
  rewrite (Qmult_comm B vs) in Hv.
  set (P := vs * B) in *. clearbody P.
  assert (inject_Z (a - 1) < inject_Z z /\ inject_Z z < inject_Z (a + 1)) as [Hl Hu].
  { unfold Z.sub. rewrite !inject_Z_plus, inject_Z_opp. fold A.
    change (inject_Z 1) with 1.
    unfold u in *. split; lra. }
  rewrite <- Zlt_Qlt in Hl, Hu. lia.
Qed.

Lemma sample_mono i z z' :
  (0 <= i < b)%Z ->
  sample (Float x) i = Ok z -> sample (Float x) (i + 1) = Ok z' ->
  (z <= z')%Z.
Proof.
  intros Hi Hz Hz'.
  destruct (Z.eq_dec i 0) as [->|Hi0].
  - rewrite sample_zero in Hz. inversion Hz. subst z.
    apply (sample_in_range 1 z'); [lia | exact Hz'].
  - destruct (sample_point i) as (z1 & v1 & Hz1 & Hzv1 & Hv1); [lia|].
    destruct (sample_point (i + 1)) as (z2 & v2 & Hz2 & Hzv2 & Hv2); [lia|].
    rewrite Hz in Hz1. inversion Hz1. subst z1. clear Hz1.
    rewrite Hz' in Hz2. inversion Hz2. subst z2. clear Hz2.
    destruct step_bounds as (H1 & H2 & H3 & H4 & H5 & H6).
    assert (HIB : inject_Z i <= B) by (unfold B; rewrite <- Zle_Qle; lia).
    assert (Hvs : 0 <= vs) by (unfold u in H6; lra).
    assert (HP2 : inject_Z i * vs <= vs * B).
    { rewrite (Qmult_comm vs B). apply Qmult_le_compat_r; assumption. }
    assert (HP3 : inject_Z (i + 1) * vs == inject_Z i * vs + vs).
    { rewrite inject_Z_plus. change (inject_Z 1) with 1. ring. }
    rewrite HP3 in Hv2.
    apply Qabs_Qle_condition in Hzv1, Hzv2, Hv1, Hv2.
    set (P := inject_Z i * vs) in *. clearbody P.
    assert (inject_Z (z - 1) < inject_Z z').
    { unfold Z.sub. rewrite inject_Z_plus, inject_Z_opp. change (inject_Z 1) with 1.
      unfold u in *. lra. }
    rewrite <- Zlt_Qlt in H. lia.
Qed.

End Sampling.

(** ** Comprehensions and ranges *)

Local Open Scope Z_scope.

Lemma mapM_Forall2 {A B} (f : A -> result B) l l' :
  mapM f l = Ok l' <-> Forall2 (fun a b => f a = Ok b) l l'.
Proof.
  revert l'. induction l as [|a l IH]; intros l'; simpl.
  - split.
    + intros H. inversion H. constructor.
    + intros H. inversion H. reflexivity.
  - split.
    + destruct (f a) as [b|e] eqn:Hfa; simpl; [|discriminate].
      destruct (mapM f l) as [bs|e] eqn:Hl; simpl; [|discriminate].
      intros H. inversion H. subst. constructor; [exact Hfa|].
      apply IH. reflexivity.
    + intros H. inversion H as [|a' b l1 bs Hab Hrest]; subst.
      rewrite Hab. simpl.
      apply IH in Hrest. rewrite Hrest. reflexivity.
Qed.

Lemma mapM_total {A B} (f : A -> result B) l :
  (forall a, In a l -> exists b, f a = Ok b) ->
  exists l', mapM f l = Ok l'.
Proof.
  induction l as [|a l IH]; intros H; simpl.
  - eexists. reflexivity.
  - destruct (H a) as [b Hb]; [left; reflexivity|].
    destruct IH as [bs Hbs]; [intros; apply H; right; assumption|].
    rewrite Hb, Hbs. eexists. reflexivity.
Qed.

Lemma mapM_ext {A B} (f g : A -> result B) l :
  (forall a, In a l -> f a = g a) -> mapM f l = mapM g l.
Proof.
  induction l as [|a l IH]; intros H; simpl; [reflexivity|].
  rewrite H by (left; reflexivity).
  rewrite IH by (intros; apply H; right; assumption).
  reflexivity.
Qed.

Lemma in_range i n : In i (range n) <-> 0 <= i < n.
Proof.
  unfold range. rewrite in_map_iff. split.
  - intros (k & <- & Hk). apply in_seq in Hk. lia.
  - intros H. exists (Z.to_nat i). split; [lia|]. apply in_seq. lia.
Qed.

Lemma length_range n : List.length (range n) = Z.to_nat n.
Proof. unfold range. rewrite length_map, length_seq. reflexivity. Qed.

Lemma range_succ n : 0 <= n -> range (n + 1) = (range n ++ [n])%list.
Proof.
  intros H. unfold range.
  replace (Z.to_nat (n + 1)) with (S (Z.to_nat n)) by lia.
  rewrite seq_S, map_app. simpl. f_equal. f_equal. lia.
Qed.

Lemma range_pos n : 0 < n -> exists l, range n = 0 :: l.
Proof.
  intros H. unfold range.
  replace (Z.to_nat n) with (S (Z.to_nat (n - 1))) by lia.
  simpl. eexists. reflexivity.
Qed.

(** Indexing every position of a list, in order, copies the list. *)
Lemma getitem_nth {A} (l : list A) (k : nat) a :
  nth_error l k = Some a -> getitem l (Z.of_nat k) = Ok a.
Proof.
  intros H. unfold getitem.
  assert (Hk : (k < List.length l)%nat) by (apply nth_error_Some; congruence).
  destruct (Z.ltb_spec (Z.of_nat k) 0); [lia|].
  destruct (Z.leb_spec 0 (Z.of_nat k)); [|lia].
  destruct (Z.ltb_spec (Z.of_nat k) (Z.of_nat (List.length l))); [|lia].
  simpl. rewrite Nat2Z.id, H. reflexivity.
Qed.

Lemma mapM_getitem_seq {A} (pre l : list A) :
  mapM (getitem (pre ++ l))
       (map Z.of_nat (seq (List.length pre) (List.length l))) = Ok l.
Proof.
  revert pre. induction l as [|a l IH]; intros pre; simpl; [reflexivity|].
  rewrite (getitem_nth (pre ++ a :: l) (List.length pre) a).
  - simpl.
    replace (pre ++ a :: l)%list with ((pre ++ [a]) ++ l)%list
      by (rewrite <- app_assoc; reflexivity).
    replace (S (List.length pre)) with (List.length (pre ++ [a]))
      by (rewrite length_app; simpl; lia).
    rewrite IH. reflexivity.
  - rewrite nth_error_app2 by lia. rewrite Nat.sub_diag. reflexivity.
Qed.

Lemma mapM_getitem_range {A} (l : list A) :
  mapM (getitem l) (range (len l)) = Ok l.
Proof.
  unfold range, len. rewrite Nat2Z.id. exact (mapM_getitem_seq [] l).
Qed.

(** A list read off a range is sorted as soon as neighbours are in
    order. *)
Lemma Forall2_seq_Sorted (R : Z -> Z -> Prop) k : forall s l,
  Forall2 R (map Z.of_nat (seq s k)) l ->
  (forall i z z', Z.of_nat s <= i < Z.of_nat s + Z.of_nat k - 1 ->
                  R i z -> R (i + 1) z' -> z <= z') ->
  Sorted Z.le l.
Proof.
  induction k as [|k IH]; intros s l HF Hadj; simpl in HF.
  - inversion HF. constructor.
  - inversion HF as [|i z l1 l2 Hz Hrest]; subst.
    constructor.
    + apply (IH (S s)); [exact Hrest|].
      intros i z1 z2 Hi. apply Hadj. lia.
    + destruct k as [|k]; simpl in Hrest.
      * inversion Hrest. constructor.
      * inversion Hrest as [|i' z' ? ? Hz' ?]; subst. constructor.
        apply (Hadj (Z.of_nat s) z z'); [lia | exact Hz |].
        replace (Z.of_nat s + 1) with (Z.of_nat (S s)) by lia. exact Hz'.
Qed.

Lemma Forall2_last {A B} (R : A -> B -> Prop) l l' a b db :
  Forall2 R (l ++ [a]) l' -> last l' db = b -> R a b.
Proof.
  intros H Hl.
  apply Forall2_app_inv_l in H as (l1 & l2 & H1 & H2 & ->).
  inversion H2 as [|? b' ? ? Hab Hnil]; subst. inversion Hnil; subst.
  rewrite last_last. exact Hab.
Qed.

(** ** Frame selection *)

Local Open Scope py_scope.

Lemma select_indices_sampling n total :
  total <= n -> 1 < total ->
  select_indices n total = formula_indices n total.
Proof.
  intros Hn Ht. unfold select_indices, formula_indices.
  destruct (Z.ltb_spec n total); [lia|].
  destruct (Z.ltb_spec 1 total); [|lia].
  destruct (true_div (n - 1) (total - 1)) as [s|e]; cbn [bind]; [|reflexivity].
  apply mapM_ext. intros i _. unfold sample, int_mul.
  destruct (mul_int_float i s); reflexivity.
Qed.

(** C1. With [n] frames and a grid of [total = c * r <= n] cells: for
    [total > 1] the selected indices are [round(i * s)] for [i] in
    [0 .. total - 1], with [s = (n - 1) / (total - 1)]; for
    [total = 1] the selection is [[0]].  Ten frames and a 2x2 grid
    select [[0; 3; 6; 9]]. *)
Theorem selection_is_uniform_sampling (n c r : Z) :
  0 < c -> 0 < r -> c * r <= n ->
  (1 < c * r -> select_indices n (c * r) = formula_indices n (c * r)) /\
  (c * r = 1 -> select_indices n (c * r) = Ok [0]) /\
  select_indices 10 (2 * 2) = Ok [0; 3; 6; 9].
Proof.
  intros Hc Hr Hn. split; [|split].
  - intros Ht. apply select_indices_sampling; assumption.
  - intros Ht. rewrite Ht. unfold select_indices.
    destruct (Z.ltb_spec n 1); [lia|]. reflexivity.
  - vm_compute. reflexivity.
Qed.

Lemma selection_is_uniform_sampling_witness :
  select_indices 10 (2 * 2) = formula_indices 10 (2 * 2) /\
  formula_indices 10 (2 * 2) = Ok [0; 3; 6; 9].
Proof.
  split.
  - apply (selection_is_uniform_sampling 10 2 2); lia.
  - vm_compute. reflexivity.
Defined.

(** The indices the sampling branch produces, for directories of at
    most [2^51] frames. *)
Lemma sampled_indices n total :
  2 <= total -> total <= n -> n <= 2 ^ 51 ->
  exists l,
    select_indices n total = Ok l /\
    Sorted Z.le l /\ hd_error l = Some 0 /\ last l 0 = n - 1 /\
    Forall (fun i => 0 <= i < n) l /\ List.length l = Z.to_nat total.
Proof.
  intros Ht Hn Hmax.
  unfold select_indices.
  destruct (Z.ltb_spec n total); [lia|].
  destruct (Z.ltb_spec 1 total); [|lia].
  assert (Hp1 : 2 ^ 51 < 2 ^ 1000) by (apply Z.pow_lt_mono_r; lia).
  destruct (true_div_accurate (n - 1) (total - 1)) as (x & vs & Hdiv & Hx & Herr);
    [lia | lia |].
  rewrite Hdiv. cbn [bind].
  rewrite pow2_m53 in Herr.
  assert (Hb : 1 <= total - 1 <= n - 1) by lia.
  assert (Ha : n - 1 < 2 ^ 51) by lia.
  destruct (mapM_total (sample (Float x)) (range total)) as [l Hl].
  { intros i Hi. apply in_range in Hi.
    destruct (Z.eq_dec i 0) as [->|Hi0].
    - exists 0. apply (sample_zero x vs Hx).
    - destruct (sample_point (n - 1) (total - 1) x vs Hb Ha Hx Herr i)
        as (z & v & Hz & _); [lia|].
      exists z. exact Hz. }
  exists l. split; [exact Hl|].
  apply mapM_Forall2 in Hl.
  split; [|split; [|split; [|split]]].
  - unfold range in Hl. apply (Forall2_seq_Sorted _ _ _ _ Hl).
    intros i z z' Hi Hz Hz'.
    apply (sample_mono (n - 1) (total - 1) x vs Hb Ha Hx Herr i z z'); auto.
    lia.
  - destruct (range_pos total) as [rest Hrange]; [lia|].
    rewrite Hrange in Hl. inversion Hl as [|? z ? l' Hz ?]; subst.
    rewrite (sample_zero x vs Hx) in Hz. inversion Hz. reflexivity.
  - replace total with (total - 1 + 1) in Hl by lia.
    rewrite range_succ in Hl by lia.
    apply (sample_last (n - 1) (total - 1) x vs Hb Ha Hx Herr).
    exact (Forall2_last _ _ _ _ _ 0 Hl eq_refl).
  - assert (Hall : forall i z, In i (range total) -> sample (Float x) i = Ok z ->
                               0 <= z < n).
    { intros i z Hi Hz. apply in_range in Hi.
      assert (Hi' : 0 <= i <= total - 1) by lia.
      pose proof (sample_in_range (n - 1) (total - 1) x vs Hb Ha Hx Herr i z Hi' Hz).
      lia. }
    clear - Hl Hall. induction Hl as [|i z li lz Hz Hrest IH]; constructor.
    + apply (Hall i z); [left; reflexivity | exact Hz].
    + apply IH. intros j zj Hj. apply Hall. right. exact Hj.
  - apply Forall2_length in Hl. rewrite <- Hl. apply length_range.
Qed.

Lemma mapM_range_last {B} (f : Z -> result B) t l d :
  0 < t -> mapM f (range t) = Ok l -> f (t - 1) = Ok (last l d).
Proof.
  intros Ht Hl. apply mapM_Forall2 in Hl.
  replace t with (t - 1 + 1) in Hl by lia.
  rewrite range_succ in Hl by lia.
  exact (Forall2_last _ _ _ _ _ d Hl eq_refl).
Qed.

Lemma getitem_inv {A} (l : list A) i a :
  0 <= i -> getitem l i = Ok a -> nth_error l (Z.to_nat i) = Some a.
Proof.
  intros Hi. unfold getitem.
  destruct (Z.ltb_spec i 0); [lia|].
  destruct ((0 <=? i) && (i <? Z.of_nat (List.length l))); [|discriminate].
  destruct (nth_error l (Z.to_nat i)); [|discriminate].
  intros H'. inversion H'. reflexivity.
Qed.

Lemma getitem_in_range {A} (l : list A) i :
  0 <= i < len l -> exists a, getitem l i = Ok a.
Proof.
  intros Hi. unfold len in Hi.
  destruct (nth_error l (Z.to_nat i)) as [a|] eqn:Hn.
  - exists a. rewrite <- (Z2Nat.id i) by lia. apply getitem_nth. exact Hn.
  - apply nth_error_None in Hn. lia.
Qed.

Lemma nth_error_last {A} (l : list A) a d :
  nth_error l (List.length l - 1) = Some a -> last l d = a.
Proof.
  destruct l as [|x l] using rev_ind.
  - simpl. discriminate.
  - clear IHl. rewrite length_app. simpl.
    replace (List.length l + 1 - 1)%nat with (List.length l) by lia.
    rewrite nth_error_app2 by lia. rewrite Nat.sub_diag. simpl.
    intros H. inversion H. apply last_last.
Qed.

(** The last selected index is the sample at [total - 1]. *)
Lemma last_index_sampled n total l :
  (n <? total) = false -> (1 <? total) = true ->
  select_indices n total = Ok l ->
  exists x, true_div (n - 1) (total - 1) = Ok x /\
            sample (Float x) (total - 1) = Ok (last l 0).
Proof.
  intros Hn Ht Hl. unfold select_indices in Hl. rewrite Hn, Ht in Hl.
  destruct (true_div (n - 1) (total - 1)) as [x|e]; [|discriminate].
  cbn [bind] in Hl. exists x. split; [reflexivity|].
  apply mapM_range_last; [|exact Hl].
  apply Z.ltb_lt in Ht. lia.
Qed.

(** C2, as the code has it.  For a grid of at least two cells and a
    directory of [n] frames with [c * r <= n <= 2^51], the selection
    succeeds, the selected indices are non-decreasing, the first is [0]
    and the last is [n - 1], so that the first and the last frame of
    the directory are the first and the last frame of the sheet. *)
Theorem selection_spans_directory {A} (frames : list A) (c r : Z) :
  0 < c -> 0 < r -> 2 <= c * r ->
  c * r <= len frames -> len frames <= 2 ^ 51 ->
  exists indices selected,
    select frames (c * r) = Ok (indices, selected) /\
    Sorted Z.le indices /\
    hd_error indices = Some 0 /\
    last indices 0 = len frames - 1 /\
    hd_error selected = hd_error frames /\
    forall d, last selected d = last frames d.
Proof.
  intros Hc Hr Ht Hn Hmax.
  destruct (sampled_indices (len frames) (c * r) Ht Hn Hmax)
    as (l & Hl & Hsorted & Hhd & Hlast & Hin & Hlen).
  destruct (mapM_total (getitem frames) l) as [sel Hsel].
  { intros i Hi. rewrite Forall_forall in Hin.
    apply getitem_in_range. apply Hin. exact Hi. }
  exists l, sel. unfold select. rewrite Hl. cbn [bind]. rewrite Hsel. cbn [bind].
  split; [reflexivity|]. split; [exact Hsorted|]. split; [exact Hhd|].
  split; [exact Hlast|].
  apply mapM_Forall2 in Hsel.
  split.
  - destruct l as [|i l]; [discriminate|]. simpl in Hhd. inversion Hhd. subst i.
    inversion Hsel as [|? a ? sel' Ha ?]; subst. simpl.
    apply getitem_inv in Ha; [|lia]. simpl in Ha.
    destruct frames; [discriminate|]. simpl in *. congruence.
  - intros d.
    destruct l as [|i l] using rev_ind; [discriminate|]. clear IHl.
    rewrite last_last in Hlast. subst i.
    apply Forall2_app_inv_l in Hsel as (s1 & s2 & _ & H2 & ->).
    inversion H2 as [|? a ? ? Ha Hnil]; subst. inversion Hnil; subst.
    rewrite last_last.
    apply getitem_inv in Ha; [|unfold len in *; lia].
    symmetry. apply nth_error_last.
    unfold len in Ha.
    replace (Z.to_nat (Z.of_nat (List.length frames) - 1))
      with (List.length frames - 1)%nat in Ha by lia.
    exact Ha.
Qed.

Lemma selection_spans_directory_witness :
  exists indices selected,
    select [10; 11; 12; 13; 14; 15; 16] (3 * 1) = Ok (indices, selected) /\
    Sorted Z.le indices /\
    hd_error indices = Some 0 /\
    last indices 0 = len [10; 11; 12; 13; 14; 15; 16] - 1 /\
    hd_error selected = hd_error [10; 11; 12; 13; 14; 15; 16] /\
    forall d, last selected d = last [10; 11; 12; 13; 14; 15; 16] d.
Proof.
  apply (selection_spans_directory [10; 11; 12; 13; 14; 15; 16] 3 1);
    vm_compute; intuition discriminate.
Defined.

(** C2 as stated fails in two ways.  With a single cell the selection
    is [[0]], whatever the number of frames, so the last frame is not
    selected; and beyond [2^51] frames the rounding errors of the
    product can exceed one half, so that the last index misses
    [n - 1]. *)
Lemma selection_can_miss_last_frame :
  ~ (exists l, select_indices 2 (1 * 1) = Ok l /\
               Sorted Z.le l /\ hd_error l = Some 0 /\ last l 0 = 2 - 1) /\
  ~ (exists l, select_indices 3417723295544904 (1558253820538730 * 1) = Ok l /\
               Sorted Z.le l /\ hd_error l = Some 0 /\
               last l 0 = 3417723295544904 - 1).
Proof.
  split.
  - intros (l & Hl & _ & _ & Hlast).
    vm_compute in Hl. inversion Hl. subst l. vm_compute in Hlast. discriminate.
  - intros (l & Hl & _ & _ & Hlast).
    destruct (last_index_sampled 3417723295544904 (1558253820538730 * 1) l
                eq_refl eq_refl Hl) as (x & Hx & Hs).
    rewrite Hlast in Hs.
    vm_compute in Hx. inversion Hx. subst x.
    vm_compute in Hs. discriminate.
Qed.

(** C3. With fewer frames than cells the selection is the whole frame
    list in order; two frames and a 4x4 grid select both. *)
Theorem short_directory_selects_all {A} (frames : list A) (c r : Z) :
  len frames < c * r ->
  select frames (c * r) = Ok (range (len frames), frames) /\
  select ["frame_0000.png"; "frame_0001.png"]%string (4 * 4)
    = Ok ([0; 1], ["frame_0000.png"; "frame_0001.png"]%string).
Proof.
  intros Hn. split; [|reflexivity].
  unfold select, select_indices.
  destruct (Z.ltb_spec (len frames) (c * r)); [|lia].
  cbn [bind]. rewrite mapM_getitem_range. reflexivity.
Qed.

Lemma short_directory_selects_all_witness :
  select [7; 8; 9] (2 * 2) = Ok (range (len [7; 8; 9]), [7; 8; 9]).
Proof.
  apply (short_directory_selects_all [7; 8; 9] 2 2). reflexivity.
Defined.
(* ------------------------------------------------------------------ *)
(** * Integer literals and the grid string *)

Local Open Scope string_scope.

(** ** Reading integers *)

Lemma digit_val_decimal c d :
  digit_val 10 c = Some d <-> is_digit c /\ d = code c - 48.
Proof.
  unfold digit_val, is_digit.
  destruct (Z.leb_spec 48 (code c)), (Z.leb_spec (code c) 57); cbn [andb].
  1: { destruct (Z.ltb_spec (code c - 48) 10); try lia.
       split; [intros H'; inversion H'; lia | intros [_ ->]; reflexivity]. }
  all: destruct (Z.leb_spec 97 (code c)), (Z.leb_spec (code c) 122);
    cbn [andb]; try lia.
  all: try (destruct (Z.ltb_spec (code c - 87) 10); try lia;
            split; [discriminate | lia]).
  all: destruct (Z.leb_spec 65 (code c)), (Z.leb_spec (code c) 90);
    cbn [andb]; try lia.
  all: try (destruct (Z.ltb_spec (code c - 55) 10); try lia;
            split; [discriminate | lia]).
  all: change (37 <? 10)%Z with false; cbv iota; split; [discriminate | lia].
Qed.

Lemma underscore_not_digit c : Ascii.eqb c "_" = true -> ~ is_digit c.
Proof.
  intros H. apply Ascii.eqb_eq in H. subst. unfold is_digit. cbn. lia.
Qed.

Lemma digit_not_underscore c : is_digit c -> Ascii.eqb c "_" = false.
Proof.
  intros H. destruct (Ascii.eqb c "_") eqn:E; [|reflexivity].
  exfalso. exact (underscore_not_digit c E H).
Qed.

(** What [parse_digits] accepts, before and after a digit. *)
Lemma parse_digits_spec s : forall acc z,
  (parse_digits 10 s acc false = Some z <->
   numeral s /\ z = value_from acc s) /\
  (parse_digits 10 s acc true = Some z <->
   (s = EmptyString /\ z = acc) \/
   (numeral s /\ z = value_from acc s) \/
   (exists s', s = String "_" s' /\ numeral s' /\ z = value_from acc s')).
Proof.
  induction s as [|c s IH]; intros acc z.
  - cbn [parse_digits]. split.
    + split; [discriminate|]. intros [H _]. inversion H.
    + split.
      * intros H. inversion H. left. auto.
      * intros [[_ ->]|[[H _]|(s' & H & _)]]; [reflexivity|inversion H|discriminate].
  - cbn [parse_digits].
    destruct (Ascii.eqb c "_") eqn:Hu.
    + pose proof (underscore_not_digit c Hu) as Hnd.
      apply Ascii.eqb_eq in Hu. subst c. split.
      * split; [discriminate|]. intros [H _]. inversion H; subst; contradiction.
      * destruct (IH acc z) as [IHf _]. rewrite IHf. split.
        -- intros [Hn ->]. right. right. exists s. auto.
        -- intros [[H _]|[[H _]|(s' & H & Hn & ->)]];
             [discriminate | inversion H; subst; contradiction |].
           inversion H. subst s'. auto.
    + destruct (digit_val 10 c) as [d|] eqn:Hd.
      * apply digit_val_decimal in Hd as [Hdig ->].
        assert (Hstep : forall t, value_from acc (String c t)
                                  = value_from (acc * 10 + (code c - 48)) t).
        { intros t. unfold value_from. cbn [list_ascii_of_string fold_left].
          unfold read_digit at 2. rewrite Hu. reflexivity. }
        assert (Hstep_ : forall t, value_from acc (String c (String "_" t))
                                   = value_from (acc * 10 + (code c - 48)) t).
        { intros t. rewrite Hstep. unfold value_from.
          cbn [list_ascii_of_string fold_left]. reflexivity. }
        destruct (IH (acc * 10 + (code c - 48)) z) as [_ IHt].
        assert (Hcore :
          parse_digits 10 s (acc * 10 + (code c - 48)) true = Some z <->
          numeral (String c s) /\ z = value_from acc (String c s)).
        { rewrite IHt. split.
          - intros [[-> ->]|[[Hn ->]|(s' & -> & Hn & ->)]].
            + split; [constructor; exact Hdig|]. rewrite Hstep. reflexivity.
            + split; [apply numeral_more; assumption|]. rewrite Hstep. reflexivity.
            + split; [apply numeral_underscore; assumption|].
              rewrite Hstep_. reflexivity.
          - intros [Hn ->]. rewrite Hstep. inversion Hn; subst.
            + left. auto.
            + right. left. auto.
            + right. right. eexists. split; [reflexivity|]. split; [assumption|].
              unfold value_from. cbn [list_ascii_of_string fold_left]. reflexivity. }
        split; [exact Hcore|].
        rewrite Hcore. split.
        -- intros H. right. left. exact H.
        -- intros [[H _]|[H|(s' & H & _)]]; [discriminate|exact H|].
           inversion H. subst. discriminate.
      * assert (Hnd : ~ is_digit c).
        { intros Hdig.
          pose proof (proj2 (digit_val_decimal c (code c - 48))
                            (conj Hdig eq_refl)) as E.
          congruence. }
        split.
        -- split; [discriminate|]. intros [H _]. inversion H; subst; contradiction.
        -- split; [discriminate|].
           intros [[H _]|[[H _]|(s' & H & _)]];
             [discriminate | inversion H; subst; contradiction |].
           inversion H. subst. discriminate.
Qed.

Lemma parse_digits_numeral s z :
  parse_digits 10 s 0 false = Some z <-> numeral s /\ z = numeral_value s.
Proof. apply parse_digits_spec. Qed.

(** ** Strings: append, reversal, stripping *)

Lemma append_assoc (s t u : string) : (s ++ t) ++ u = s ++ (t ++ u).
Proof. induction s as [|c s IH]; simpl; [reflexivity|]. rewrite IH. reflexivity. Qed.

Lemma append_empty_r (s : string) : s ++ EmptyString = s.
Proof. induction s as [|c s IH]; simpl; [reflexivity|]. rewrite IH. reflexivity. Qed.

Lemma chars_append s t :
  list_ascii_of_string (s ++ t) =
  (list_ascii_of_string s ++ list_ascii_of_string t)%list.
Proof. induction s as [|c s IH]; simpl; [reflexivity|]. rewrite IH. reflexivity. Qed.

Lemma rev_onto_append s : forall acc, rev_onto s acc = rev s ++ acc.
Proof.
  unfold rev. induction s as [|a s IH]; intros acc; simpl; [reflexivity|].
  rewrite (IH (String a acc)), (IH (String a EmptyString)), append_assoc. reflexivity.
Qed.

Lemma rev_cons a s : rev (String a s) = rev s ++ String a EmptyString.
Proof. unfold rev at 1. simpl. apply rev_onto_append. Qed.

Lemma rev_append s t : rev (s ++ t) = rev t ++ rev s.
Proof.
  induction s as [|a s IH]; simpl.
  - change (rev EmptyString) with EmptyString. rewrite append_empty_r. reflexivity.
  - rewrite !rev_cons, IH, append_assoc. reflexivity.
Qed.

Lemma rev_involutive s : rev (rev s) = s.
Proof.
  induction s as [|a s IH]; [reflexivity|].
  rewrite rev_cons, rev_append, IH. reflexivity.
Qed.

Lemma chars_rev s :
  list_ascii_of_string (rev s) = List.rev (list_ascii_of_string s).
Proof.
  induction s as [|a s IH]; [reflexivity|].
  rewrite rev_cons, chars_append, IH. reflexivity.
Qed.

Lemma blank_empty : blank EmptyString.
Proof. intros c []. Qed.

Lemma blank_rev s : blank s -> blank (rev s).
Proof.
  intros H c Hc. apply H. rewrite chars_rev in Hc.
  apply in_rev. exact Hc.
Qed.

(** [lstrip] removes a blank prefix, and nothing else. *)
Lemma lstrip_prefix s : exists pre, blank pre /\ s = pre ++ lstrip s.
Proof.
  induction s as [|a s (pre & Hb & IH)].
  - exists EmptyString. split; [apply blank_empty | reflexivity].
  - simpl. destruct (is_space a) eqn:Ha.
    + exists (String a pre). split.
      * intros c [<-|Hc]; [exact Ha | apply Hb; exact Hc].
      * simpl. rewrite <- IH. reflexivity.
    + exists EmptyString. split; [apply blank_empty | reflexivity].
Qed.

Lemma lstrip_blank pre s : blank pre -> lstrip (pre ++ s) = lstrip s.
Proof.
  induction pre as [|a pre IH]; intros H; [reflexivity|].
  simpl. rewrite (H a (or_introl eq_refl)). apply IH.
  intros c Hc. apply H. right. exact Hc.
Qed.

Lemma lstrip_solid a s : is_space a = false -> lstrip (String a s) = String a s.
Proof. intros H. simpl. rewrite H. reflexivity. Qed.

(** [strip] removes a blank prefix and a blank suffix. *)
Lemma strip_decompose s :
  exists pre post, blank pre /\ blank post /\ s = pre ++ strip s ++ post.
Proof.
  destruct (lstrip_prefix s) as (pre & Hpre & Hs).
  destruct (lstrip_prefix (rev (lstrip s))) as (p & Hp & Hr).
  exists pre, (rev p). split; [exact Hpre|]. split; [apply blank_rev; exact Hp|].
  unfold strip. rewrite <- rev_append, <- Hr, rev_involutive. exact Hs.
Qed.

(** A string that begins and ends with a character that is not
    whitespace is what [strip] leaves of it and its blank margins. *)
Lemma strip_core pre post a mid z :
  blank pre -> blank post -> is_space a = false -> is_space z = false ->
  strip (pre ++ String a (mid ++ String z EmptyString) ++ post)
  = String a (mid ++ String z EmptyString).
Proof.
  intros Hpre Hpost Ha Hz. unfold strip.
  rewrite lstrip_blank by exact Hpre.
  change (String a (mid ++ String z EmptyString) ++ post)
    with (String a ((mid ++ String z EmptyString) ++ post)).
  rewrite lstrip_solid by exact Ha.
  rewrite rev_cons, rev_append, rev_append.
  rewrite !append_assoc.
  rewrite lstrip_blank by (apply blank_rev; exact Hpost).
  change (rev (String z EmptyString)) with (String z EmptyString).
  change (String z EmptyString ++ rev mid ++ String a EmptyString)
    with (String z (rev mid ++ String a EmptyString)).
  rewrite lstrip_solid by exact Hz.
  change (String z (rev mid ++ String a EmptyString))
    with (String z EmptyString ++ (rev mid ++ String a EmptyString)).
  rewrite rev_append, rev_append. rewrite rev_involutive. reflexivity.
Qed.

Lemma strip_single pre post a :
  blank pre -> blank post -> is_space a = false ->
  strip (pre ++ String a EmptyString ++ post) = String a EmptyString.
Proof.
  intros Hpre Hpost Ha. unfold strip.
  rewrite lstrip_blank by exact Hpre.
  change (String a EmptyString ++ post) with (String a post).
  rewrite lstrip_solid by exact Ha.
  rewrite rev_cons.
  rewrite lstrip_blank by (apply blank_rev; exact Hpost).
  rewrite lstrip_solid by exact Ha.
  reflexivity.
Qed.

(** ** Integer literals *)

Lemma digit_not_space c : is_digit c -> is_space c = false.
Proof.
  unfold is_digit, is_space. intros H.
  destruct (Z.leb_spec 9 (code c)), (Z.leb_spec (code c) 13),
    (Z.eqb_spec (code c) 32),
    (Z.eqb_spec (code c) 133), (Z.eqb_spec (code c) 160);
    try reflexivity; lia.
Qed.

Lemma digit_not_sign c :
  is_digit c -> Ascii.eqb c "+" = false /\ Ascii.eqb c "-" = false.
Proof.
  unfold is_digit. intros H.
  split; apply Ascii.eqb_neq; intros ->; cbn in H; lia.
Qed.

Lemma numeral_first s :
  numeral s -> exists c r, s = String c r /\ is_digit c.
Proof. intros H. inversion H; subst; eauto. Qed.

Lemma numeral_last s :
  numeral s -> exists r c, s = r ++ String c EmptyString /\ is_digit c.
Proof.
  induction 1 as [c Hc | c s Hc _ (r & z & -> & Hz) | c s Hc _ (r & z & -> & Hz)].
  - exists EmptyString, c. auto.
  - exists (String c r), z. auto.
  - exists (String c (String "_" r)), z. auto.
Qed.

(** A numeral with any character in front, as [strip] sees it. *)
Lemma strip_signed pre post a body :
  blank pre -> blank post -> is_space a = false -> numeral body ->
  strip (pre ++ String a body ++ post) = String a body.
Proof.
  intros Hpre Hpost Ha Hn.
  destruct (numeral_last body Hn) as (r & z & -> & Hz).
  apply strip_core; auto using digit_not_space.
Qed.

Lemma strip_numeral pre post body :
  blank pre -> blank post -> numeral body ->
  strip (pre ++ body ++ post) = body.
Proof.
  intros Hpre Hpost Hn.
  destruct (numeral_first body Hn) as (c & r & -> & Hc).
  destruct r as [|b r].
  - apply strip_single; auto using digit_not_space.
  - assert (Hr : exists mid z, String b r = mid ++ String z EmptyString /\ is_digit z).
    { destruct (numeral_last _ Hn) as (m & z & Hm & Hz).
      destruct m as [|c' m]; [discriminate|].
      simpl in Hm. inversion Hm. subst c'. eauto. }
    destruct Hr as (mid & z & -> & Hz).
    apply strip_core; auto using digit_not_space.
Qed.

Lemma skip_prefix_decimal u : skip_prefix 10 u = u.
Proof. destruct u as [|a [|x r]]; reflexivity. Qed.

Lemma split_sign_cases t :
  (split_sign t = (false, t) /\
   forall r, t <> String "+" r /\ t <> String "-" r) \/
  (exists r, t = String "+" r /\ split_sign t = (false, r)) \/
  (exists r, t = String "-" r /\ split_sign t = (true, r)).
Proof.
  destruct t as [|a r].
  - left. split; [reflexivity|]. intros r. split; discriminate.
  - simpl. destruct (Ascii.eqb_spec a "+") as [->|Hp].
    + right. left. eauto.
    + destruct (Ascii.eqb_spec a "-") as [->|Hm].
      * right. right. eauto.
      * left. split; [reflexivity|]. intros r'. split; congruence.
Qed.

(** [int(s)] returns [z] exactly when [s] is an integer literal that
    denotes [z]. *)
Lemma py_int_literal s z : py_int 10 s = Ok z <-> integer_literal s z.
Proof.
  unfold py_int, integer_literal. split.
  - destruct (strip_decompose s) as (pre & post & Hpre & Hpost & Hs).
    destruct (split_sign (strip s)) as [neg u] eqn:Hsign.
    rewrite skip_prefix_decimal.
    destruct (parse_digits 10 u 0 false) as [v|] eqn:Hv; [|discriminate].
    apply parse_digits_numeral in Hv as [Hn ->].
    intros Hz. inversion Hz as [Hz']. clear Hz.
    exists pre, u, post. split; [exact Hpre|]. split; [exact Hpost|].
    split; [exact Hn|].
    destruct (split_sign_cases (strip s))
      as [[E _]|[(r & Ht & E)|(r & Ht & E)]];
      rewrite E in Hsign; inversion Hsign; subst neg u.
    + left. split; [left; exact Hs | reflexivity].
    + left. split; [right | reflexivity]. rewrite Ht in Hs. exact Hs.
    + right. split; [|reflexivity]. rewrite Ht in Hs. exact Hs.
  - intros (pre & body & post & Hpre & Hpost & Hn & H).
    assert (Hv := proj2 (parse_digits_numeral body (numeral_value body))
                        (conj Hn eq_refl)).
    destruct H as [[[->| ->] ->]|[-> ->]].
    + rewrite strip_numeral by assumption.
      destruct (numeral_first body Hn) as (c & r & -> & Hc).
      destruct (digit_not_sign c Hc) as [Hp Hm].
      cbn [split_sign]. rewrite Hp, Hm, skip_prefix_decimal, Hv. reflexivity.
    + change ("+" ++ body ++ post) with (String "+" body ++ post).
      rewrite strip_signed by (assumption || reflexivity).
      cbn [split_sign]. change (Ascii.eqb "+" "+") with true. cbv iota.
      rewrite skip_prefix_decimal, Hv. reflexivity.
    + change ("-" ++ body ++ post) with (String "-" body ++ post).
      rewrite strip_signed by (assumption || reflexivity).
      cbn [split_sign]. change (Ascii.eqb "-" "+") with false.
      change (Ascii.eqb "-" "-") with true. cbv iota.
      rewrite skip_prefix_decimal, Hv. reflexivity.
Qed.

(** The characters of an integer literal. *)
Lemma space_literal c : is_space c = true -> literal_char c = true.
Proof. unfold literal_char. intros ->. reflexivity. Qed.

Lemma digit_literal c : is_digit c -> literal_char c = true.
Proof.
  unfold literal_char, is_digit. intros [H1 H2].
  apply Z.leb_le in H1, H2. rewrite H1, H2.
  cbn [andb]. rewrite orb_true_r. reflexivity.
Qed.

Lemma numeral_chars s :
  numeral s ->
  forall c, In c (list_ascii_of_string s) -> literal_char c = true.
Proof.
  induction 1 as [d Hd | d s Hd _ IH | d s Hd _ IH]; intros c; simpl.
  - intros [<-|[]]. apply digit_literal. exact Hd.
  - intros [<-|Hc]; [apply digit_literal; exact Hd | apply IH; exact Hc].
  - intros [<-|[<-|Hc]];
      [apply digit_literal; exact Hd | reflexivity | apply IH; exact Hc].
Qed.

Lemma literal_chars s z :
  integer_literal s z ->
  forall c, In c (list_ascii_of_string s) -> literal_char c = true.
Proof.
  intros (pre & body & post & Hpre & Hpost & Hn & H) c Hc.
  assert (Hbody := numeral_chars body Hn).
  assert (Hin : In c (list_ascii_of_string pre) \/
                c = "+"%char \/ c = "-"%char \/
                In c (list_ascii_of_string body) \/
                In c (list_ascii_of_string post)).
  { destruct H as [[[->| ->] _]|[-> _]];
      rewrite !chars_append in Hc;
      repeat (apply in_app_or in Hc as [Hc|Hc]); auto;
      simpl in Hc; destruct Hc as [<-|[]]; auto. }
  destruct Hin as [Hin|[->|[->|[Hin|Hin]]]];
    auto using space_literal; reflexivity.
Qed.

(** ** Lower case *)

Lemma literal_char_fixed c : literal_char c = true -> lower_char c = c.
Proof.
  destruct c as [[] [] [] [] [] [] [] []]; vm_compute; intros H;
    first [reflexivity | discriminate H].
Qed.

Lemma literal_char_lowered c :
  literal_char (lower_char c) = true -> lower_char c = c.
Proof.
  destruct c as [[] [] [] [] [] [] [] []]; vm_compute; intros H;
    first [reflexivity | discriminate H].
Qed.

Lemma literal_char_not_delimiter c : literal_char c = true -> c <> "x"%char.
Proof. intros H ->. vm_compute in H. discriminate. Qed.

Lemma lower_char_delimiter d :
  lower_char d = "x"%char <-> d = "x"%char \/ d = "X"%char.
Proof.
  split.
  - destruct d as [[] [] [] [] [] [] [] []]; vm_compute; intros H;
      first [left; reflexivity | right; reflexivity | discriminate H].
  - intros [->| ->]; reflexivity.
Qed.

Lemma lower_literal s :
  (forall c, In c (list_ascii_of_string s) -> literal_char c = true) ->
  lower s = s.
Proof.
  induction s as [|a s IH]; intros H; [reflexivity|]. simpl.
  rewrite (literal_char_fixed a) by (apply H; left; reflexivity).
  rewrite IH; [reflexivity|]. intros c Hc. apply H. right. exact Hc.
Qed.

Lemma lower_literal_inv s :
  (forall c, In c (list_ascii_of_string (lower s)) -> literal_char c = true) ->
  lower s = s.
Proof.
  induction s as [|a s IH]; intros H; [reflexivity|]. simpl.
  rewrite (literal_char_lowered a) by (apply H; left; reflexivity).
  rewrite IH; [reflexivity|]. intros c Hc. apply H. right. exact Hc.
Qed.

Lemma lower_append s t : lower (s ++ t) = lower s ++ lower t.
Proof. induction s as [|a s IH]; simpl; [reflexivity|]. rewrite IH. reflexivity. Qed.

Lemma lower_append_inv s : forall a b,
  lower s = a ++ String "x" b ->
  exists a' d b',
    s = a' ++ String d b' /\ lower a' = a /\
    lower_char d = "x"%char /\ lower b' = b.
Proof.
  induction s as [|c s IH]; intros a b H.
  - destruct a; discriminate.
  - destruct a as [|a0 a]; simpl in H; inversion H as [[Hc Hs]].
    + exists EmptyString, c, s. auto.
    + destruct (IH a b Hs) as (a' & d & b' & -> & <- & Hd & <-).
      exists (String c a'), d, b'. auto.
Qed.

(** ** Splitting at the delimiter *)

Lemma split_no_separator sep name :
  (forall c, In c (list_ascii_of_string name) -> c <> sep) ->
  split sep name = [name].
Proof.
  induction name as [|c name IH]; intros H; simpl; [reflexivity|].
  destruct (Ascii.eqb_spec c sep) as [->|_].
  - exfalso. apply (H sep); [left|]; reflexivity.
  - rewrite IH; [reflexivity|]. intros d Hd. apply H. right. exact Hd.
Qed.

Lemma split_nonempty sep s : split sep s <> [].
Proof.
  destruct s as [|c s]; simpl; [discriminate|].
  destruct (Ascii.eqb c sep); [discriminate|].
  destruct (split sep s); discriminate.
Qed.

Lemma split_one sep s : forall b, split sep s = [b] -> s = b.
Proof.
  induction s as [|c s IH]; intros b; simpl.
  - intros H. inversion H. reflexivity.
  - destruct (Ascii.eqb c sep).
    + intros H. inversion H as [[Hb Hs]]. destruct (split_nonempty _ _ Hs).
    + destruct (split sep s) as [|w ws] eqn:E;
        [destruct (split_nonempty _ _ E)|].
      intros H. inversion H. subst. rewrite (IH w eq_refl). reflexivity.
Qed.

Lemma split_two sep s : forall a b,
  split sep s = [a; b] -> s = a ++ String sep b.
Proof.
  induction s as [|c s IH]; intros a b; simpl; [discriminate|].
  destruct (Ascii.eqb_spec c sep) as [->|_].
  - intros H. inversion H as [[Ha Hs]]. rewrite (split_one _ _ _ Hs).
    reflexivity.
  - destruct (split sep s) as [|w ws] eqn:E; [discriminate|].
    intros H. inversion H. subst. rewrite (IH w b eq_refl). reflexivity.
Qed.

Lemma split_pair sep a b :
  (forall c, In c (list_ascii_of_string a) -> c <> sep) ->
  (forall c, In c (list_ascii_of_string b) -> c <> sep) ->
  split sep (a ++ String sep b) = [a; b].
Proof.
  intros Ha Hb. induction a as [|c a IH]; simpl.
  - rewrite Ascii.eqb_refl, split_no_separator by exact Hb. reflexivity.
  - destruct (Ascii.eqb_spec c sep) as [->|_].
    + exfalso. apply (Ha sep); [left|]; reflexivity.
    + rewrite IH; [reflexivity|]. intros d Hd. apply Ha. right. exact Hd.
Qed.

(** ** [parse_grid] *)

Lemma py_int_raises base s e :
  py_int base s = Raise e -> e = invalid_literal.
Proof.
  unfold py_int. destruct (split_sign (strip s)) as [neg v].
  destruct (parse_digits base (skip_prefix base v) 0 false); [discriminate|].
  intros H. inversion H. reflexivity.
Qed.

Lemma parse_grid_ok s cols rows :
  parse_grid s = Ok (cols, rows) <->
  exists cols_str rows_str,
    split "x" (lower s) = [cols_str; rows_str] /\
    py_int 10 cols_str = Ok cols /\ py_int 10 rows_str = Ok rows /\
    (0 < cols)%Z /\ (0 < rows)%Z.
Proof.
  unfold parse_grid. split.
  - destruct (split "x" (lower s)) as [|cs [|rs [|? ?]]]; try discriminate.
    destruct (py_int 10 cs) as [c|e] eqn:Hc; cbn [bind].
    2:{ apply py_int_raises in Hc. subst e. discriminate. }
    destruct (py_int 10 rs) as [r|e] eqn:Hr; cbn [bind].
    2:{ apply py_int_raises in Hr. subst e. discriminate. }
    destruct (Z.leb_spec c 0) as [Hc0|Hc0]; [discriminate|].
    destruct (Z.leb_spec r 0) as [Hr0|Hr0]; [discriminate|].
    cbn [orb]. intros Heq. inversion Heq. subst.
    exists cs, rs. auto.
  - intros (cs & rs & -> & -> & -> & Hc & Hr). cbn [bind].
    destruct (Z.leb_spec cols 0); [lia|].
    destruct (Z.leb_spec rows 0); [lia|]. reflexivity.
Qed.

(** [parse_grid] returns the pair [(cols, rows)] exactly when the grid
    string is an integer literal for [cols], the delimiter in either
    case, and an integer literal for [rows], both positive. *)
Lemma parse_grid_reads s cols rows :
  parse_grid s = Ok (cols, rows) <->
  exists cols_str delimiter rows_str,
    s = cols_str ++ String delimiter rows_str /\
    (delimiter = "x"%char \/ delimiter = "X"%char) /\
    integer_literal cols_str cols /\ integer_literal rows_str rows /\
    (0 < cols)%Z /\ (0 < rows)%Z.
Proof.
  rewrite parse_grid_ok. split.
  - intros (cs & rs & Hsplit & Hc & Hr & Hpos).
    apply split_two in Hsplit.
    apply lower_append_inv in Hsplit as (cs' & d & rs' & -> & <- & Hd & <-).
    apply py_int_literal in Hc, Hr.
    pose proof (lower_literal_inv cs' (literal_chars _ _ Hc)) as Ec.
    pose proof (lower_literal_inv rs' (literal_chars _ _ Hr)) as Er.
    rewrite Ec in Hc. rewrite Er in Hr.
    exists cs', d, rs'. split; [reflexivity|].
    split; [apply lower_char_delimiter; exact Hd|]. auto.
  - intros (cs & d & rs & -> & Hd & Hc & Hr & Hpos).
    exists cs, rs.
    pose proof (literal_chars _ _ Hc) as Lc.
    pose proof (literal_chars _ _ Hr) as Lr.
    split.
    + rewrite lower_append. cbn [lower].
      rewrite (proj2 (lower_char_delimiter d) Hd).
      rewrite (lower_literal cs Lc), (lower_literal rs Lr).
      apply split_pair; intros c Hin;
        apply literal_char_not_delimiter; auto.
    + split; [apply py_int_literal; exact Hc|].
      split; [apply py_int_literal; exact Hr|]. exact Hpos.
Qed.

Lemma parse_grid_well_formed s :
  two_integer_literals s <-> exists cols rows, parse_grid s = Ok (cols, rows).
Proof.
  unfold two_integer_literals. split.
  - intros (cs & d & rs & c & r & H). exists c, r.
    apply parse_grid_reads. exists cs, d, rs. exact H.
  - intros (c & r & H). apply parse_grid_reads in H as (cs & d & rs & H).
    exists cs, d, rs, c, r. exact H.
Qed.

(** ** Grid strings in plain decimal digits *)

Lemma decimal_numeral s : decimal s -> numeral s.
Proof.
  intros [Hne Hd]. destruct s as [|c s]; [contradiction Hne; reflexivity|].
  clear Hne. revert c Hd. induction s as [|b s IH]; intros c Hd.
  - apply numeral_digit. apply Hd. left. reflexivity.
  - apply numeral_more.
    + apply Hd. left. reflexivity.
    + apply IH. intros d Hin. apply Hd. right. exact Hin.
Qed.

Lemma decimal_literal s : decimal s -> integer_literal s (numeral_value s).
Proof.
  intros H. exists EmptyString, s, EmptyString.
  split; [apply blank_empty|]. split; [apply blank_empty|].
  split; [apply decimal_numeral; exact H|].
  left. split; [|reflexivity]. left.
  cbn [append]. rewrite append_empty_r. reflexivity.
Qed.

(** A grid string in plain digits is among those [int] reads. *)
Lemma plain_grid_literals s :
  two_positive_integers s -> two_integer_literals s.
Proof.
  intros (cs & d & rs & Hs & Hd & Hc & Hr & Hcp & Hrp).
  exists cs, d, rs, (numeral_value cs), (numeral_value rs).
  repeat split; auto using decimal_literal.
Qed.

(** It holds digits and one delimiter, and nothing else. *)
Lemma plain_grid_chars s :
  two_positive_integers s ->
  forall c, In c (list_ascii_of_string s) ->
    is_digit c \/ c = "x"%char \/ c = "X"%char.
Proof.
  intros (cs & d & rs & -> & Hd & [_ Hc] & [_ Hr] & _) c Hin.
  rewrite chars_append in Hin. apply in_app_or in Hin as [Hin|Hin].
  - left. apply Hc. exact Hin.
  - destruct Hin as [<-|Hin]; [right; exact Hd|].
    left. apply Hr. exact Hin.
Qed.

Local Open Scope string_scope.

(** ** Programs that only look *)

Lemma quiet_ret {A} (a : A) : quiet (ret a).
Proof. intros w t. exists (Ok a), []. rewrite app_nil_r. split; [reflexivity|constructor]. Qed.

Lemma quiet_raise {A} (e : exn) : quiet (@raise A e).
Proof. intros w t. exists (Raise e), []. rewrite app_nil_r. split; [reflexivity|constructor]. Qed.

Lemma quiet_lift {A} (r : result A) : quiet (lift r).
Proof. intros w t. exists r, []. rewrite app_nil_r. split; [reflexivity|constructor]. Qed.

Lemma quiet_ask {A} (f : World -> A) : quiet (ask f).
Proof. intros w t. exists (Ok (f w)), []. rewrite app_nil_r. split; [reflexivity|constructor]. Qed.

Lemma quiet_log (e : event) : is_write e = false -> quiet (log e).
Proof.
  intros He w t. exists (Ok tt), [e]. split; [reflexivity|].
  constructor; [exact He|constructor].
Qed.

Lemma quiet_bind {A B} (c : M A) (k : A -> M B) :
  quiet c -> (forall a, quiet (k a)) -> quiet (bindM c k).
Proof.
  intros Hc Hk w t. unfold bindM.
  destruct (Hc w t) as (r & ext & -> & Hext).
  destruct r as [a|e].
  - destruct (Hk a w (t ++ ext)%list) as (r' & ext' & -> & Hext').
    exists r', (ext ++ ext')%list. rewrite app_assoc. split; [reflexivity|].
    apply Forall_app. split; assumption.
  - exists (Raise e), ext. split; [reflexivity|assumption].
Qed.

Lemma quiet_mapMM {A B} (f : A -> M B) l :
  (forall a, quiet (f a)) -> quiet (mapMM f l).
Proof.
  intros Hf. induction l as [|a l IH]; simpl.
  - apply quiet_ret.
  - apply quiet_bind; [apply Hf|]. intros b.
    apply quiet_bind; [exact IH|]. intros bs. apply quiet_ret.
Qed.

Ltac quiet_step :=
  first
    [ apply quiet_ret | apply quiet_raise | apply quiet_lift | apply quiet_ask
    | apply quiet_log; reflexivity
    | apply quiet_bind; [|intros ?] ].

Lemma quiet_is_dir path : quiet (is_dir path).
Proof. unfold is_dir. repeat quiet_step. Qed.

Lemma quiet_import_pil : quiet import_pil.
Proof. unfold import_pil. repeat quiet_step. Qed.

Lemma quiet_glob_png dir : quiet (glob_png dir).
Proof. unfold glob_png. repeat quiet_step. Qed.

Lemma quiet_which prog : quiet (which prog).
Proof. unfold which. repeat quiet_step. Qed.

Lemma quiet_open_image dir name : quiet (open_image dir name).
Proof.
  unfold open_image. repeat quiet_step.
  match goal with |- context [match ?d name with _ => _ end] =>
    destruct (d name) as [[? ?]|] end; quiet_step.
Qed.

Lemma quiet_try_truetype path size : quiet (try_truetype path size).
Proof.
  unfold try_truetype. repeat quiet_step.
  match goal with |- context [match ?l path size with _ => _ end] =>
    destruct (l path size) as [?|[]] end; quiet_step.
Qed.

Lemma quiet_load_font size : quiet (load_font size).
Proof.
  unfold load_font.
  apply quiet_bind; [apply quiet_try_truetype|]. intros [f|]; [quiet_step|].
  apply quiet_bind; [apply quiet_try_truetype|]. intros [f|]; quiet_step.
Qed.

Lemma quiet_report dir out : quiet (report dir out).
Proof. unfold report. repeat quiet_step. Qed.

(** ** Programs that write at most once *)

(** What a failed write leaves does not depend on the log. *)
Lemma left_behind_log dir out w t :
  left_behind dir out w t
  = (Ok tt, snd (fst (left_behind dir out w [])), t).
Proof.
  unfold left_behind.
  destruct (w_leftover w (join dir out)) as [|d]; [reflexivity|].
  destruct (entry_of out); reflexivity.
Qed.

Lemma left_behind_world dir out w :
  left_behind dir out w []
  = (Ok tt, snd (fst (left_behind dir out w [])), []).
Proof. apply left_behind_log. Qed.

Lemma created_log out w t :
  created out w t = (Ok tt, snd (fst (created out w [])), t).
Proof. reflexivity. Qed.

Lemma single_write_raise dir out e : single_write dir out (raise e).
Proof.
  intros w t. left. split; [reflexivity|]. exists [].
  split; [symmetry; apply app_nil_r | constructor].
Qed.

Lemma single_write_bind {A} dir out (c : M A) (k : A -> M Z) :
  quiet c -> (forall a, single_write dir out (k a)) ->
  single_write dir out (bindM c k).
Proof.
  intros Hc Hk w t. unfold bindM.
  destruct (Hc w t) as (r & ext & -> & Hext).
  destruct r as [a|e].
  2:{ left. split; [reflexivity|]. exists ext. split; [reflexivity|exact Hext]. }
  specialize (Hk a w (t ++ ext)%list).
  destruct (k a w (t ++ ext)%list) as [[[status|e] w'] t'].
  - destruct Hk as (Hs & Hw & pre & wr & msg & -> & Hwr & Hpre).
    split; [exact Hs|]. split; [exact Hw|].
    exists (ext ++ pre)%list, wr, msg. rewrite <- !app_assoc.
    split; [reflexivity|]. split; [exact Hwr|].
    apply Forall_app. split; assumption.
  - destruct Hk as [(Hw & ext' & -> & Hext')|(Hw & pre & wr & -> & Hwr & Hpre)].
    + left. split; [exact Hw|]. exists (ext ++ ext')%list.
      rewrite app_assoc. split; [reflexivity|].
      apply Forall_app. split; assumption.
    + right. split; [exact Hw|]. exists (ext ++ pre)%list, wr.
      rewrite <- !app_assoc. split; [reflexivity|]. split; [exact Hwr|].
      apply Forall_app. split; assumption.
Qed.

(** The two ways the script writes: [save] and the montage command,
    each followed by the report and [return 0]. *)
Lemma single_write_save dir out s :
  single_write dir out
    (bindM (save dir out s)
           (fun _ => bindM (report dir out) (fun _ => ret 0%Z))).
Proof.
  intros w t. unfold save, report, log, ask, raise, ret, bindM.
  cbv beta iota.
  destruct (w_save w (join dir out)) as [[]|e].
  - rewrite created_log. cbv beta iota.
    split; [reflexivity|]. split; [reflexivity|].
    exists [], (Save (join dir out) s). eexists.
    split; [simpl; rewrite <- app_assoc; reflexivity|].
    split; [reflexivity|constructor].
  - rewrite left_behind_log. cbv beta iota. right.
    split; [apply left_behind_world|].
    exists [], (Save (join dir out) s).
    split; [reflexivity|]. split; [reflexivity|constructor].
Qed.

Lemma single_write_montage dir out cmd :
  single_write dir out
    (bindM (run_montage cmd dir out)
           (fun _ => bindM (report dir out) (fun _ => ret 0%Z))).
Proof.
  intros w t. unfold run_montage, report, log, ask, raise, ret, bindM.
  cbv beta iota.
  destruct (w_run w cmd).
  - rewrite created_log. cbv beta iota.
    split; [reflexivity|]. split; [reflexivity|].
    exists [], (Run cmd). eexists.
    split; [simpl; rewrite <- app_assoc; reflexivity|].
    split; [reflexivity|constructor].
  - rewrite left_behind_log. cbv beta iota. right.
    split; [apply left_behind_world|].
    exists [], (Run cmd).
    split; [reflexivity|]. split; [reflexivity|constructor].
Qed.

Lemma single_write_fallback a cols rows selected :
  single_write (image_dir a) (output_filename a)
    (fallback a cols rows selected).
Proof.
  unfold fallback.
  apply single_write_bind; [apply quiet_which|]. intros magick.
  apply single_write_bind; [apply quiet_which|]. intros montage.
  apply single_write_bind.
  { destruct magick; [quiet_step|]. destruct montage; quiet_step. }
  intros cmd.
  apply single_write_bind; [quiet_step|]. intros _.
  apply single_write_montage.
Qed.

Lemma single_write_compose a cols rows selected indices :
  single_write (image_dir a) (output_filename a)
    (compose a cols rows selected indices).
Proof.
  unfold compose.
  apply single_write_bind.
  { apply quiet_mapMM. intros name. apply quiet_open_image. }
  intros images.
  apply single_write_bind; [quiet_step|]. intros g.
  apply single_write_bind.
  { destruct ((geo_sheet_w g <? 0) || (geo_sheet_h g <? 0))%Z; quiet_step. }
  intros _.
  apply single_write_bind; [apply quiet_load_font|]. intros f.
  apply single_write_bind; [quiet_step|]. intros color.
  apply single_write_bind; [quiet_step|]. intros cells.
  apply single_write_save.
Qed.

Lemma single_write_render a cols rows pil frames :
  single_write (image_dir a) (output_filename a)
    (render a cols rows pil frames).
Proof.
  unfold render.
  destruct frames as [|frame frames]; [apply single_write_raise|].
  apply single_write_bind; [quiet_step|]. intros sel.
  destruct pil; [apply single_write_compose | apply single_write_fallback].
Qed.

Lemma single_write_main a :
  single_write (image_dir a) (output_filename a) (main a).
Proof.
  unfold main.
  apply single_write_bind; [quiet_step|]. intros grid.
  apply single_write_bind; [apply quiet_is_dir|]. intros found.
  destruct (negb found); [apply single_write_raise|].
  apply single_write_bind; [apply quiet_import_pil|]. intros pil.
  apply single_write_bind; [apply quiet_glob_png|]. intros frames.
  apply single_write_render.
Qed.

(** The log of a program that writes at most once only grows. *)
Lemma single_write_extends dir out (c : M Z) w t :
  single_write dir out c -> exists ext, snd (c w t) = (t ++ ext)%list.
Proof.
  intros H. specialize (H w t).
  destruct (c w t) as [[[status|e] w'] t']; cbn [snd].
  - destruct H as (_ & _ & pre & wr & msg & -> & _). eexists. reflexivity.
  - destruct H as [(_ & ext & -> & _)|(_ & pre & wr & -> & _)];
      eexists; reflexivity.
Qed.

(** ** The start of a run *)

Lemma main_rejected a w t e :
  parse_grid (grid a) = Raise e -> main a w t = (Raise e, w, t).
Proof. intros H. unfold main, lift, bindM. rewrite H. reflexivity. Qed.

Lemma main_parsed a w t cols rows :
  parse_grid (grid a) = Ok (cols, rows) ->
  main a w t =
  if w_is_dir w
  then render a cols rows (w_pil w) (discover (w_listing w)) w
         (t ++ [IsDir (path_str (image_dir a)); ImportPIL;
                Glob (path_str (image_dir a)) "*.png"])%list
  else (Raise (SystemExit ("Image directory not found: "
                           ++ path_str (image_dir a))),
        w, (t ++ [IsDir (path_str (image_dir a))])%list).
Proof.
  intros H.
  unfold main, is_dir, import_pil, glob_png, lift, log, ask, ret, raise, bindM.
  rewrite H. cbv beta iota. cbn [fst snd].
  destruct (w_is_dir w); cbn [negb]; [|reflexivity].
  rewrite <- !app_assoc. reflexivity.
Qed.

(** ** [parse_grid] *)

Lemma parse_grid_raises s e :
  parse_grid s = Raise e -> e = grid_format_error \/ e = grid_positive_error.
Proof.
  unfold parse_grid.
  destruct (split "x" (lower s)) as [|cs [|rs [|? ?]]];
    try (intros H; inversion H; left; reflexivity).
  destruct (py_int 10 cs) as [c|e1] eqn:Hc; cbn [bind].
  2:{ apply py_int_raises in Hc. subst e1.
      intros H; inversion H; left; reflexivity. }
  destruct (py_int 10 rs) as [r|e1] eqn:Hr; cbn [bind].
  2:{ apply py_int_raises in Hr. subst e1.
      intros H; inversion H; left; reflexivity. }
  destruct ((c <=? 0)%Z || (r <=? 0)%Z); [|discriminate].
  intros H; inversion H; right; reflexivity.
Qed.

(** A run whose grid string [int] reads starts with the directory
    check. *)
Lemma run_starts_with_directory a w :
  two_integer_literals (grid a) ->
  exists rest, trace a w = IsDir (path_str (image_dir a)) :: rest.
Proof.
  intros Hok. apply parse_grid_well_formed in Hok as (c & r & Hp).
  unfold trace, run. rewrite (main_parsed a w [] c r Hp).
  destruct (w_is_dir w); [|eexists; reflexivity].
  destruct (single_write_extends _ _ _ w
              ([] ++ [IsDir (path_str (image_dir a)); ImportPIL;
                      Glob (path_str (image_dir a)) "*.png"])%list
              (single_write_render a c r (w_pil w) (discover (w_listing w))))
    as [ext ->].
  eexists. reflexivity.
Qed.

(** C7, as the code has it.  The grid strings the run accepts are the
    pairs of integer literals as [int] reads them, both positive, with
    an [x] of either case between them: digits, possibly with single
    underscores between digits, after an optional sign, possibly
    surrounded by whitespace.  Every other grid string makes the run
    fail with one of the two [ValueError]s of [parse_grid], each with
    its message, and exit status 1, before any interaction with the
    file system or an image: the log of the run is empty and the world
    untouched.  Parsing comes first: on an accepted grid string the
    first interaction is the directory check; this is stated for grid
    strings of at most 4300 characters, which keeps clear of the limit
    an interpreter may put on the length of a decimal literal.  Two
    positive integers in plain decimal digits are accepted; the strings
    [4], [4x] and [0x4] are rejected, and so is [4x4] behind the
    separator character 28, which is no whitespace for [int]. *)
Theorem malformed_grid_rejected_before_io (a : Args) (w : World) :
  (~ two_integer_literals (grid a) ->
     (outcome a w = Raise grid_format_error \/
      outcome a w = Raise grid_positive_error) /\
     exit_status (outcome a w) = 1 /\
     trace a w = [] /\
     world_after a w = w) /\
  (two_integer_literals (grid a) ->
   (Z.of_nat (String.length (grid a)) <= 4300)%Z ->
     exists rest, trace a w = IsDir (path_str (image_dir a)) :: rest) /\
  (two_positive_integers (grid a) -> two_integer_literals (grid a)) /\
  ~ two_integer_literals "4" /\
  ~ two_integer_literals "4x" /\
  ~ two_integer_literals "0x4" /\
  ~ two_integer_literals (String (ascii_of_nat 28) "4x4").
Proof.
  split; [|split; [|split; [|split; [|split; [|split]]]]].
  - intros Hbad.
    destruct (parse_grid (grid a)) as [[c r]|e] eqn:Hp.
    + exfalso. apply Hbad. apply parse_grid_well_formed. eauto.
    + unfold outcome, trace, world_after, run.
      rewrite (main_rejected a w [] _ Hp). cbn [fst snd].
      destruct (parse_grid_raises _ _ Hp) as [->| ->];
        repeat split; auto.
  - intros Hok _. apply run_starts_with_directory. exact Hok.
  - apply plain_grid_literals.
  - intros H. apply parse_grid_well_formed in H as (c & r & H).
    vm_compute in H. discriminate.
  - intros H. apply parse_grid_well_formed in H as (c & r & H).
    vm_compute in H. discriminate.
  - intros H. apply parse_grid_well_formed in H as (c & r & H).
    vm_compute in H. discriminate.
  - intros H. apply parse_grid_well_formed in H as (c & r & H).
    vm_compute in H. discriminate.
Qed.

Lemma malformed_grid_rejected_before_io_witness :
  (outcome (Demo.args "4x" None None) (Demo.world true Demo.listing)
   = Raise grid_format_error \/
   outcome (Demo.args "4x" None None) (Demo.world true Demo.listing)
   = Raise grid_positive_error) /\
  trace (Demo.args "4x" None None) (Demo.world true Demo.listing) = [] /\
  exists rest,
    trace (Demo.args "4x4" None None) (Demo.world true Demo.listing)
    = IsDir "media/images/foo" :: rest.
Proof.
  destruct (malformed_grid_rejected_before_io
              (Demo.args "4x" None None) (Demo.world true Demo.listing))
    as (H & _ & _ & _ & H4x & _).
  destruct (H H4x) as (Hout & _ & Htrace & _).
  split; [exact Hout|]. split; [exact Htrace|].
  destruct (malformed_grid_rejected_before_io
              (Demo.args "4x4" None None) (Demo.world true Demo.listing))
    as (_ & Hok & _).
  apply Hok.
  - apply parse_grid_well_formed. exists 4%Z, 4%Z. vm_compute. reflexivity.
  - cbn. lia.
Defined.

(** C7 as stated fails for grid strings that are not two positive
    integers in decimal digits and that [int] reads all the same: with
    an underscore between digits, or with a sign and blanks, the grid
    is accepted, as 40 by 4 and as 4 by 4, and the run goes on to the
    directory check. *)
Lemma lenient_grid_accepted :
  ~ two_positive_integers "4_0x4" /\
  parse_grid "4_0x4" = Ok (40, 4)%Z /\
  (exists rest,
     trace (Demo.args "4_0x4" None None) (Demo.world true Demo.listing)
     = IsDir "media/images/foo" :: rest) /\
  ~ two_positive_integers " +4 x 4 " /\
  parse_grid " +4 x 4 " = Ok (4, 4)%Z /\
  (exists rest,
     trace (Demo.args " +4 x 4 " None None) (Demo.world true Demo.listing)
     = IsDir "media/images/foo" :: rest).
Proof.
  assert (Hbad : forall s c,
            In c (list_ascii_of_string s) ->
            (48 <=? code c)%Z && (code c <=? 57)%Z = false ->
            c <> "x"%char -> c <> "X"%char ->
            ~ two_positive_integers s).
  { intros s c Hin Hd Hx HX H.
    destruct (plain_grid_chars s H c Hin) as [[H1 H2]|[E|E]];
      [|contradiction|contradiction].
    apply Z.leb_le in H1, H2. rewrite H1, H2 in Hd. discriminate. }
  split; [|split; [|split; [|split; [|split]]]].
  - apply (Hbad _ "_"%char); [simpl; tauto|reflexivity|discriminate|discriminate].
  - vm_compute. reflexivity.
  - apply (run_starts_with_directory (Demo.args "4_0x4" None None)).
    apply parse_grid_well_formed. exists 40%Z, 4%Z. vm_compute. reflexivity.
  - apply (Hbad _ " "%char); [simpl; tauto|reflexivity|discriminate|discriminate].
  - vm_compute. reflexivity.
  - apply (run_starts_with_directory (Demo.args " +4 x 4 " None None)).
    apply parse_grid_well_formed. exists 4%Z, 4%Z. vm_compute. reflexivity.
Qed.

Lemma filter_none {A} (p : A -> bool) l :
  Forall (fun x => p x = false) l -> filter p l = [].
Proof.
  induction 1 as [|x l Hx _ IH]; simpl; [reflexivity|].
  rewrite Hx. exact IH.
Qed.

(** What a run leaves: at most one write. *)
Lemma run_writes_once (a : Args) (w : World) :
  match outcome a w with
  | Ok status =>
      status = 0 /\
      created (output_filename a) w [] = (Ok tt, world_after a w, []) /\
      exists pre wr msg,
        trace a w = (pre ++ [wr; Stdout msg])%list /\
        is_write wr = true /\ filter is_write pre = []
  | Raise _ =>
      (filter is_write (trace a w) = [] /\ world_after a w = w) \/
      (exists pre wr,
         trace a w = (pre ++ [wr])%list /\
         is_write wr = true /\ filter is_write pre = [] /\
         left_behind (image_dir a) (output_filename a) w []
         = (Ok tt, world_after a w, []))
  end.
Proof.
  pose proof (single_write_main a w []) as H.
  unfold outcome, trace, world_after, run.
  destruct (main a w []) as [[[status|e] w'] t']; cbn [fst snd].
  - destruct H as (Hs & Hw & pre & wr & msg & -> & Hwr & Hpre).
    split; [exact Hs|]. split; [exact Hw|].
    exists pre, wr, msg. split; [reflexivity|]. split; [exact Hwr|].
    apply filter_none. exact Hpre.
  - destruct H as [(Hw & ext & -> & Hext)|(Hw & pre & wr & -> & Hwr & Hpre)].
    + left. split; [apply filter_none; exact Hext | exact Hw].
    + right. exists pre, wr. split; [reflexivity|]. split; [exact Hwr|].
      split; [apply filter_none; exact Hpre | exact Hw].
Qed.

(** C8, as the code has it.  When the input directory is missing or
    holds no PNG frame, the run ends with an exception that carries a
    message ([SystemExit], or the [ValueError] of a malformed grid,
    which is detected first), the exit status is not 0, no write was
    attempted and the world is as before.  In general a run attempts at
    most one write, of the output file.  Either it returns 0, the write
    was its last interaction but for the report on standard output, and
    the world differs from the initial one by the creation of the
    output file; or it raises before any write and the world is the
    initial one; or the write itself fails, as the last interaction,
    and the world is what the failed write left: nothing is taken
    back. *)
Theorem all_or_nothing (a : Args) (w : World) :
  (w_is_dir w = false \/ discover (w_listing w) = [] ->
     (exists msg, outcome a w = Raise (SystemExit msg) \/
                  outcome a w = Raise (ValueError msg)) /\
     exit_status (outcome a w) <> 0 /\
     filter is_write (trace a w) = [] /\
     world_after a w = w) /\
  match outcome a w with
  | Ok status =>
      status = 0 /\
      created (output_filename a) w [] = (Ok tt, world_after a w, []) /\
      exists pre wr msg,
        trace a w = (pre ++ [wr; Stdout msg])%list /\
        is_write wr = true /\ filter is_write pre = []
  | Raise _ =>
      (filter is_write (trace a w) = [] /\ world_after a w = w) \/
      (exists pre wr,
         trace a w = (pre ++ [wr])%list /\
         is_write wr = true /\ filter is_write pre = [] /\
         left_behind (image_dir a) (output_filename a) w []
         = (Ok tt, world_after a w, []))
  end.
Proof.
  split.
  - intros Hempty. unfold outcome, trace, world_after, run.
    destruct (parse_grid (grid a)) as [[c r]|e] eqn:Hp.
    + rewrite (main_parsed a w [] c r Hp).
      destruct (w_is_dir w) eqn:Hdir.
      * destruct Hempty as [Hd|Hd]; [discriminate|]. rewrite Hd.
        cbn [render raise fst snd exit_status app filter is_write].
        repeat split; [|discriminate].
        eexists. left. reflexivity.
      * cbn [fst snd exit_status app filter is_write].
        repeat split; [|discriminate].
        eexists. left. reflexivity.
    + rewrite (main_rejected a w [] e Hp).
      cbn [fst snd filter].
      destruct (parse_grid_raises _ _ Hp) as [->| ->];
        (repeat split; [|discriminate]);
        eexists; right; reflexivity.
  - exact (run_writes_once a w).
Qed.

Lemma all_or_nothing_witness :
  exists msg,
    outcome (Demo.args "4x4" None None) (Demo.world false []) =
      Raise (SystemExit msg) /\
    world_after (Demo.args "4x4" None None) (Demo.world false []) =
      Demo.world false [].
Proof.
  destruct (all_or_nothing (Demo.args "4x4" None None) (Demo.world false []))
    as [H _].
  destruct H as ((msg & [Hmsg|Hmsg]) & _ & _ & Hw).
  - left. reflexivity.
  - exists msg. split; [exact Hmsg | exact Hw].
  - vm_compute in Hmsg. discriminate.
Defined.

(** C8 as stated fails when the write itself fails.  The sheet of an
    earlier run is in the frame directory; the disk is full, so [save]
    opens the file, which empties it, and fails.  The run raises, and
    the earlier sheet, an image before, is a file cut short after: a
    write took place, and not of the full sheet. *)
Lemma failed_write_is_not_undone :
  outcome (Demo.args "2x2" None None)
          (Demo.disk_full ("Foo_sheet.png" :: Demo.listing))
  = Raise OSError /\
  (exists pre s,
     trace (Demo.args "2x2" None None)
           (Demo.disk_full ("Foo_sheet.png" :: Demo.listing))
     = (pre ++ [Save "media/images/foo/Foo_sheet.png" s])%list) /\
  w_decode (Demo.disk_full ("Foo_sheet.png" :: Demo.listing)) "Foo_sheet.png"
  = Some (640, 360)%Z /\
  w_decode (world_after (Demo.args "2x2" None None)
                        (Demo.disk_full ("Foo_sheet.png" :: Demo.listing)))
           "Foo_sheet.png"
  = None /\
  world_after (Demo.args "2x2" None None)
              (Demo.disk_full ("Foo_sheet.png" :: Demo.listing))
  <> Demo.disk_full ("Foo_sheet.png" :: Demo.listing).
Proof.
  assert (Hd : w_decode (world_after (Demo.args "2x2" None None)
                 (Demo.disk_full ("Foo_sheet.png" :: Demo.listing)))
                 "Foo_sheet.png" = None) by (vm_compute; reflexivity).
  split; [vm_compute; reflexivity|].
  split.
  { pose proof (run_writes_once (Demo.args "2x2" None None)
                  (Demo.disk_full ("Foo_sheet.png" :: Demo.listing))) as H.
    assert (Ho : outcome (Demo.args "2x2" None None)
                   (Demo.disk_full ("Foo_sheet.png" :: Demo.listing))
                 = Raise OSError) by (vm_compute; reflexivity).
    rewrite Ho in H. destruct H as [[_ Hw]|(pre & wr & Ht & _)].
    - rewrite Hw in Hd. discriminate Hd.
    - exists pre. rewrite Ht. clear Hd Ho.
      assert (Hl : last (trace (Demo.args "2x2" None None)
                    (Demo.disk_full ("Foo_sheet.png" :: Demo.listing)))
                    ImportPIL = wr).
      { rewrite Ht. apply last_last. }
      vm_compute in Hl. subst wr. eexists. reflexivity. }
  split; [reflexivity|]. split; [exact Hd|].
  intros E. rewrite E in Hd. discriminate Hd.
Qed.

(** ** A run that succeeds on the Pillow path *)

Lemma bindM_ok {A B} (c : M A) (k : A -> M B) w t b w' t' :
  bindM c k w t = (Ok b, w', t') ->
  exists a w1 t1, c w t = (Ok a, w1, t1) /\ k a w1 t1 = (Ok b, w', t').
Proof.
  unfold bindM. destruct (c w t) as [[[a|e] w1] t1]; [|discriminate].
  intros H. exists a, w1, t1. split; [reflexivity|exact H].
Qed.

Lemma lift_ok {A} (r : result A) w t a w' t' :
  lift r w t = (Ok a, w', t') -> r = Ok a /\ w' = w /\ t' = t.
Proof. unfold lift. intros H. inversion H. auto. Qed.

Lemma quiet_inv {A} (c : M A) w t r w' t' :
  quiet c -> c w t = (r, w', t') ->
  w' = w /\ exists ext, t' = (t ++ ext)%list /\
                        Forall (fun e => is_write e = false) ext.
Proof.
  intros Hq H. destruct (Hq w t) as (r0 & ext & Heq & Hext).
  rewrite Heq in H. inversion H. subst. split; [reflexivity|].
  exists ext. auto.
Qed.

Lemma saved_app t1 t2 : saved (t1 ++ t2) = (saved t1 ++ saved t2)%list.
Proof. unfold saved. apply flat_map_app. Qed.

Lemma saved_quiet ext :
  Forall (fun e => is_write e = false) ext -> saved ext = [].
Proof.
  induction 1 as [|e ext He _ IH]; [reflexivity|].
  unfold saved in *. simpl. rewrite IH.
  destruct e; try reflexivity. discriminate.
Qed.

Lemma open_images_ok dir names w t images w' t' :
  mapMM (open_image dir) names w t = (Ok images, w', t') ->
  Forall2 (decoded w) names images.
Proof.
  revert t images t'. induction names as [|name names IH]; intros t images t' H.
  - inversion H. constructor.
  - cbn [mapMM] in H.
    apply bindM_ok in H as (im & w1 & t1 & H1 & H).
    apply bindM_ok in H as (ims & w2 & t2 & H2 & H).
    inversion H. subst. clear H.
    pose proof (quiet_inv _ _ _ _ _ _ (quiet_open_image dir name) H1) as [-> _].
    constructor.
    + unfold open_image, log, ask, bindM in H1. cbv beta iota in H1.
      unfold decoded.
      destruct (w_decode w name) as [[wd h]|]; [|discriminate].
      inversion H1. eauto.
    + exact (IH _ _ _ H2).
Qed.

(** The sheet that [compose] hands to [save]. *)
Lemma compose_ok a cols rows selected indices w t status w' t' :
  compose a cols rows selected indices w t = (Ok status, w', t') ->
  exists images g f color cells,
    Forall2 (decoded w) selected images /\
    cell_geometry a cols rows images = Ok g /\
    hex_to_rgb (grid_color a) = Ok color /\
    draw_cells a cols g selected indices f = Ok cells /\
    saved t' =
      (saved t ++
       [{| sheet_w := geo_sheet_w g;
           sheet_h := geo_sheet_h g;
           background := (16, 16, 16)%Z;
           ops := cells ++ vertical_lines cols g color
                  ++ horizontal_lines rows g color |}])%list.
Proof.
  unfold compose. intros H.
  apply bindM_ok in H as (images & w1 & t1 & H1 & H).
  pose proof (open_images_ok _ _ _ _ _ _ _ H1) as Himages.
  apply quiet_inv in H1 as (-> & e1 & -> & He1);
    [|apply quiet_mapMM; intros; apply quiet_open_image].
  apply bindM_ok in H as (g & w2 & t2 & H2 & H).
  apply lift_ok in H2 as (Hg & -> & ->).
  apply bindM_ok in H as (x & w3 & t3 & H3 & H).
  apply quiet_inv in H3 as (-> & e3 & -> & He3).
  2:{ destruct ((geo_sheet_w g <? 0)%Z || (geo_sheet_h g <? 0)%Z); quiet_step. }
  apply bindM_ok in H as (f & w4 & t4 & H4 & H).
  apply quiet_inv in H4 as (-> & e4 & -> & He4); [|apply quiet_load_font].
  apply bindM_ok in H as (color & w5 & t5 & H5 & H).
  apply lift_ok in H5 as (Hcolor & -> & ->).
  apply bindM_ok in H as (cells & w6 & t6 & H6 & H).
  apply lift_ok in H6 as (Hcells & -> & ->).
  exists images, g, f, color, cells.
  repeat (split; [assumption|]).
  unfold save, report, log, ask, raise, ret, bindM in H. cbv beta iota in H.
  destruct (w_save w (join (image_dir a) (output_filename a))) as [[]|e].
  2:{ rewrite left_behind_log in H. discriminate. }
  rewrite created_log in H. cbv beta iota in H. inversion H. subst. clear H.
  rewrite !saved_app, (saved_quiet e1), (saved_quiet e3), (saved_quiet e4)
    by assumption.
  rewrite !app_nil_r. reflexivity.
Qed.

(** What a successful run with Pillow has done. *)
Lemma run_ok_pillow a w status :
  w_pil w = true -> outcome a w = Ok status ->
  exists cols rows indices selected images g f color cells,
    parse_grid (grid a) = Ok (cols, rows) /\
    select (discover (w_listing w)) (cols * rows) = Ok (indices, selected) /\
    Forall2 (decoded w) selected images /\
    cell_geometry a cols rows images = Ok g /\
    hex_to_rgb (grid_color a) = Ok color /\
    draw_cells a cols g selected indices f = Ok cells /\
    saved (trace a w) =
      [{| sheet_w := geo_sheet_w g;
          sheet_h := geo_sheet_h g;
          background := (16, 16, 16)%Z;
          ops := cells ++ vertical_lines cols g color
                 ++ horizontal_lines rows g color |}].
Proof.
  intros Hpil. unfold outcome, trace, run.
  destruct (parse_grid (grid a)) as [[cols rows]|e] eqn:Hp.
  2:{ rewrite (main_rejected a w [] e Hp). discriminate. }
  rewrite (main_parsed a w [] cols rows Hp).
  destruct (w_is_dir w); [|discriminate].
  rewrite Hpil. unfold render.
  destruct (discover (w_listing w)) as [|frame frames] eqn:Hframes; [discriminate|].
  set (t0 := ([] ++ [IsDir (path_str (image_dir a)); ImportPIL;
                     Glob (path_str (image_dir a)) "*.png"])%list).
  destruct (bindM _ _ w t0) as [[r w'] t'] eqn:Hrun. cbn [fst snd].
  intros ->.
  apply bindM_ok in Hrun as ([indices selected] & w1 & t1 & H1 & H).
  apply lift_ok in H1 as (Hsel & -> & ->). cbn [fst snd] in H.
  apply compose_ok in H as (images & g & f & color & cells & H1 & H2 & H3 & H4 & H5).
  exists cols, rows, indices, selected, images, g, f, color, cells.
  split; [reflexivity|]. split; [exact Hsel|]. split; [exact H1|].
  split; [exact H2|]. split; [exact H3|]. split; [exact H4|].
  rewrite H5. reflexivity.
Qed.

Local Open Scope Z_scope.

(** ** Geometry of the sheet *)

Lemma fold_left_max_spec l x :
  (fold_left Z.max l x = x \/ In (fold_left Z.max l x) l) /\
  x <= fold_left Z.max l x /\
  Forall (fun y => y <= fold_left Z.max l x) l.
Proof.
  revert x. induction l as [|y l IH]; intros x; simpl.
  - split; [left; reflexivity|]. split; [lia|constructor].
  - destruct (IH (Z.max x y)) as (Hin & Hle & Hall).
    split; [|split].
    + destruct Hin as [Heq|Hin]; [|right; right; exact Hin].
      destruct (Z.max_spec x y) as [[_ Hm]|[_ Hm]]; rewrite Hm in Heq |- *.
      * right. left. symmetry. exact Heq.
      * left. exact Heq.
    + lia.
    + constructor; [lia|exact Hall].
Qed.

Lemma py_max_spec l m :
  py_max l = Ok m -> In m l /\ Forall (fun y => y <= m) l.
Proof.
  destruct l as [|x l]; [discriminate|]. simpl. intros H. inversion H.
  destruct (fold_left_max_spec l x) as (Hin & Hle & Hall).
  split.
  - destruct Hin as [->|Hin]; [left; reflexivity|right; exact Hin].
  - constructor; assumption.
Qed.

Lemma resize_to_src cw im scale rim :
  resize_to cw im scale = Ok rim ->
  src rim = src im /\ 1 <= width rim /\ 1 <= height rim.
Proof.
  unfold resize_to.
  destruct (mul_int_float (width im) scale); [|discriminate]. cbn [bind].
  destruct (int_of_float a); [|discriminate]. cbn [bind].
  destruct (mul_int_float (height im) scale); [|discriminate]. cbn [bind].
  destruct (int_of_float a1); [|discriminate]. cbn [bind].
  intros H. inversion H. cbn [src width height].
  split; [reflexivity|]. split; lia.
Qed.

Lemma Forall2_combine_l {A B C} (R : A -> C -> Prop) (la : list A) (lb : list B) lc :
  List.length la = List.length lb ->
  Forall2 (fun p c => R (fst p) c) (combine la lb) lc ->
  Forall2 R la lc.
Proof.
  revert lb lc. induction la as [|a la IH]; intros [|b lb] lc Hlen H;
    try discriminate; simpl in *.
  - inversion H. constructor.
  - inversion H; subst. constructor; [assumption|].
    apply (IH lb); [lia|assumption].
Qed.

(** Lines 137 to 150, read backwards. *)
Lemma cell_geometry_ok a cols rows images g :
  cell_geometry a cols rows images = Ok g ->
  exists widest,
    py_max (map width images) = Ok widest /\
    cell_w g = Z.min (max_width a) widest /\
    Forall2 (fun im rim => src rim = src im /\ 1 <= width rim /\ 1 <= height rim)
            images (resized g) /\
    py_max (map height (resized g)) = Ok (cell_h g) /\
    label_height g = label_size a + 8 /\
    geo_sheet_w g = cols * cell_w g + (cols + 1) * grid_line_width /\
    geo_sheet_h g = rows * (cell_h g + label_height g)
                    + (rows + 1) * grid_line_width.
Proof.
  unfold cell_geometry.
  destruct (py_max (map width images)) as [widest|] eqn:Hw; [|discriminate].
  cbn [bind].
  destruct (mapM _ images) as [scales|] eqn:Hs; [|discriminate]. cbn [bind].
  destruct (mapM _ (combine images scales)) as [rs|] eqn:Hr; [|discriminate].
  cbn [bind].
  destruct (py_max (map height rs)) as [ch|] eqn:Hh; [|discriminate].
  cbn [bind]. intros H. inversion H. subst g. clear H. cbn.
  exists widest. repeat split; try reflexivity; try assumption.
  apply mapM_Forall2 in Hs, Hr.
  apply (Forall2_combine_l _ images scales).
  - exact (Forall2_length Hs).
  - eapply Forall2_impl; [|exact Hr].
    intros [im sc] rim Hrim. cbn [fst snd] in *.
    exact (resize_to_src _ _ _ _ Hrim).
Qed.

(** C4. On a successful run with Pillow, the sheet handed to [save] is
    [cols * cell_w + (cols + 1) * grid_line_width] pixels wide, where
    [cell_w] is the smaller of [--max-width] and the width of the
    widest selected frame and the width of a grid line is 1. *)
Theorem sheet_width_formula (a : Args) (w : World) (status : Z) :
  w_pil w = true -> outcome a w = Ok status ->
  exists cols rows indices selected images widest s,
    parse_grid (grid a) = Ok (cols, rows) /\
    select (discover (w_listing w)) (cols * rows) = Ok (indices, selected) /\
    Forall2 (decoded w) selected images /\
    In widest (map width images) /\
    Forall (fun im => width im <= widest) images /\
    saved (trace a w) = [s] /\
    sheet_w s = cols * Z.min (max_width a) widest
                + (cols + 1) * grid_line_width /\
    grid_line_width = 1.
Proof.
  intros Hpil Hok.
  destruct (run_ok_pillow a w status Hpil Hok)
    as (cols & rows & indices & selected & images & g & f & color & cells
        & Hp & Hsel & Himages & Hg & _ & _ & Hsaved).
  destruct (cell_geometry_ok _ _ _ _ _ Hg)
    as (widest & Hmax & Hcw & _ & _ & _ & Hsw & _).
  apply py_max_spec in Hmax as [Hin Hall].
  exists cols, rows, indices, selected, images, widest.
  eexists. split; [exact Hp|]. split; [exact Hsel|]. split; [exact Himages|].
  split; [exact Hin|]. split.
  { rewrite Forall_map in Hall. exact Hall. }
  split; [exact Hsaved|]. split; [|reflexivity].
  cbn [sheet_w]. rewrite Hsw, Hcw. reflexivity.
Qed.

(** ** The cells of the sheet *)

Lemma Forall2_nth_l {A B} (R : A -> B -> Prop) l l' i a :
  Forall2 R l l' -> nth_error l i = Some a ->
  exists b, nth_error l' i = Some b /\ R a b.
Proof.
  intros H. revert i. induction H as [|x y l l' Hxy _ IH]; intros i Hi.
  - destruct i; discriminate.
  - destruct i as [|i]; simpl in *.
    + inversion Hi. subst. eauto.
    + apply IH. exact Hi.
Qed.

Lemma enumerate_from_nth {A} (l : list A) s i x :
  nth_error l i = Some x ->
  nth_error (enumerate_from s l) i = Some (s + Z.of_nat i, x).
Proof.
  revert s i. induction l as [|y l IH]; intros s i Hi.
  - destruct i; discriminate.
  - destruct i as [|i]; simpl in *.
    + inversion Hi. subst. do 2 f_equal. lia.
    + rewrite (IH (s + 1) i Hi). do 2 f_equal. lia.
Qed.

Lemma concat_nth_pairs {A} (ls : list (list A)) i a b :
  Forall (fun l => List.length l = 2%nat) ls ->
  nth_error ls i = Some [a; b] ->
  nth_error (List.concat ls) (2 * i) = Some a /\
  nth_error (List.concat ls) (2 * i + 1) = Some b.
Proof.
  intros H. revert i. induction H as [|l ls Hl _ IH]; intros i Hi.
  - destruct i; discriminate.
  - destruct i as [|i]; simpl in Hi.
    + inversion Hi. subst. simpl. auto.
    + destruct l as [|x [|y [|? ?]]]; try discriminate.
      replace (2 * S i)%nat with (S (S (2 * i))) by lia.
      simpl. apply IH. exact Hi.
Qed.

(** Lines 168 to 192, read backwards: the two drawing operations of
    one loop iteration. *)
Lemma draw_cell_ok a cols g selected indices f idx im cell :
  draw_cell a cols g selected indices f idx im = Ok cell ->
  exists frame_idx frame_name label,
    cols <> 0 /\
    getitem indices idx = Ok frame_idx /\
    getitem selected idx = Ok frame_name /\
    match truthy_int (fps a) with
    | Some rate =>
        exists time_sec,
          true_div frame_idx rate = Ok time_sec /\
          label = (frame_name ++ " (" ++ format_2f time_sec ++ "s)")%string
    | None => label = frame_name
    end /\
    cell =
      [Paste im (cell_x g (idx mod cols) + (cell_w g - width im) / 2)
                (cell_y g (idx / cols) + (cell_h g - height im) / 2);
       Text (cell_x g (idx mod cols) + 2)
            (cell_y g (idx / cols) + cell_h g + 2)
            label f (255, 255, 255)].
Proof.
  unfold draw_cell, floordiv, modulo.
  destruct (Z.eqb_spec cols 0) as [Hc|Hc]; [discriminate|]. cbn [bind].
  destruct (getitem indices idx) as [frame_idx|]; [|discriminate]. cbn [bind].
  destruct (getitem selected idx) as [frame_name|]; [|discriminate]. cbn [bind].
  intros H.
  assert (Hpos : forall label,
    [Paste im (idx mod cols * cell_w g + (idx mod cols + 1) * grid_line_width
               + (cell_w g - width im) / 2)
              (idx / cols * (cell_h g + label_height g)
               + (idx / cols + 1) * grid_line_width + (cell_h g - height im) / 2);
     Text (idx mod cols * cell_w g + (idx mod cols + 1) * grid_line_width + 2)
          (idx / cols * (cell_h g + label_height g)
           + (idx / cols + 1) * grid_line_width + cell_h g + 2)
          label f (255, 255, 255)]
    = [Paste im (cell_x g (idx mod cols) + (cell_w g - width im) / 2)
                (cell_y g (idx / cols) + (cell_h g - height im) / 2);
       Text (cell_x g (idx mod cols) + 2)
            (cell_y g (idx / cols) + cell_h g + 2)
            label f (255, 255, 255)]).
  { intros label. unfold cell_x, cell_y, line_x, line_y.
    replace (idx mod cols * cell_w g + (idx mod cols + 1) * grid_line_width)
      with (idx mod cols * cell_w g + idx mod cols * grid_line_width
            + grid_line_width) by ring.
    replace (idx / cols * (cell_h g + label_height g)
             + (idx / cols + 1) * grid_line_width)
      with (idx / cols * (cell_h g + label_height g)
            + idx / cols * grid_line_width + grid_line_width) by ring.
    reflexivity. }
  exists frame_idx, frame_name.
  destruct (truthy_int (fps a)) as [rate|].
  - destruct (true_div frame_idx rate) as [time_sec|] eqn:Ht; [|discriminate].
    cbn [bind] in H. inversion H.
    eexists. split; [exact Hc|]. split; [reflexivity|]. split; [reflexivity|].
    split; [exists time_sec; split; reflexivity|]. apply Hpos.
  - cbn [bind] in H. inversion H.
    eexists. split; [exact Hc|]. split; [reflexivity|]. split; [reflexivity|].
    split; [reflexivity|]. apply Hpos.
Qed.

Lemma draw_cells_nth a cols g selected indices f cells i im :
  draw_cells a cols g selected indices f = Ok cells ->
  nth_error (resized g) i = Some im ->
  exists paste text,
    draw_cell a cols g selected indices f (Z.of_nat i) im = Ok [paste; text] /\
    nth_error cells (2 * i) = Some paste /\
    nth_error cells (2 * i + 1) = Some text /\
    (2 * i + 1 < List.length cells)%nat.
Proof.
  unfold draw_cells. intros H Hi.
  destruct (mapM _ (enumerate (resized g))) as [ls|] eqn:Hls; [|discriminate].
  cbn [bind] in H. inversion H. subst cells. clear H.
  apply mapM_Forall2 in Hls.
  assert (Hlen : Forall (fun l : list draw_op => List.length l = 2%nat) ls).
  { clear - Hls. induction Hls as [|p l ps ls Hp _ IH]; constructor; [|exact IH].
    apply draw_cell_ok in Hp as (? & ? & ? & _ & _ & _ & _ & ->). reflexivity. }
  pose proof (enumerate_from_nth (resized g) 0 i im Hi) as He.
  destruct (Forall2_nth_l _ _ _ _ _ Hls He) as (cell & Hcell & Hdraw).
  cbn [fst snd] in Hdraw. rewrite Z.add_0_l in Hdraw.
  pose proof Hdraw as Hshape.
  apply draw_cell_ok in Hshape as (? & ? & ? & _ & _ & _ & _ & Hshape).
  rewrite Hshape in Hcell, Hdraw.
  destruct (concat_nth_pairs ls i _ _ Hlen Hcell) as [H0 H1].
  eexists. eexists. split; [exact Hdraw|]. split; [exact H0|].
  split; [exact H1|].
  apply nth_error_Some. rewrite H1. discriminate.
Qed.

(** ** Selected indices are never negative *)

Lemma round_aux_unsigned M E l :
  unsigned (binary_round_aux prec emax false M E l).
Proof.
  unfold binary_round_aux.
  destruct (shr_fexp prec emax M E l) as [mrs' e'].
  destruct (shr_fexp prec emax _ e' loc_Exact) as [mrs'' e''].
  destruct (shr_m mrs'') as [|m|m]; [reflexivity| |exact I].
  destruct (Z.leb e'' (emax - prec)); reflexivity.
Qed.

Lemma true_div_unsigned a b x :
  0 <= a -> 0 < b -> true_div a b = Ok x -> unsigned x.
Proof.
  intros Ha Hb. unfold true_div.
  destruct (Z.eqb_spec b 0); [lia|].
  destruct b as [|pb|pb]; try lia.
  destruct a as [|pa|pa]; try lia; cbn [Z2SF SFdiv xorb].
  - intros H. inversion H. reflexivity.
  - destruct (SFdiv_core_binary prec emax (Zpos pa) 0 (Zpos pb) 0) as [[mz ez] lz].
    pose proof (round_aux_unsigned mz ez lz) as Hu.
    destruct (binary_round_aux prec emax false mz ez lz);
      intros H; inversion H; subst; exact Hu.
Qed.

Lemma float_of_int_unsigned i x :
  0 <= i -> float_of_int i = Ok x -> unsigned x.
Proof.
  intros Hi. unfold float_of_int, binary_normalize.
  destruct i as [|p|p]; try lia.
  - intros H. inversion H. reflexivity.
  - unfold binary_round.
    destruct (shl_align p 0 _) as [mz ez].
    pose proof (round_aux_unsigned (Zpos mz) ez loc_Exact) as Hu.
    destruct (binary_round_aux prec emax false (Zpos mz) ez loc_Exact);
      intros H; inversion H; subst; exact Hu.
Qed.

Lemma SFmul_unsigned x y :
  unsigned x -> unsigned y -> unsigned (SFmul prec emax x y).
Proof.
  destruct x as [sx|sx| |sx mx ex], y as [sy|sy| |sy my ey];
    cbn [unsigned SFmul]; intros Hx Hy; subst; cbn [xorb]; auto.
  apply round_aux_unsigned.
Qed.

Lemma round_half_even_nonneg m e : 0 <= round_half_even m e.
Proof.
  unfold round_half_even. destruct e as [|p|p]; [lia|lia|].
  cbv zeta.
  assert (0 <= Zpos m / 2 ^ Zpos p) by (apply Z.div_pos; lia).
  destruct (2 * (Zpos m mod 2 ^ Zpos p) ?= 2 ^ Zpos p); [|lia|lia].
  destruct (Z.even _); lia.
Qed.

Lemma round_float_nonneg x z :
  unsigned x -> round_float x = Ok z -> 0 <= z.
Proof.
  destruct x as [s|s| |s m e]; cbn [unsigned round_float]; intros Hx H;
    inversion H; subst; [lia|].
  cbn [cond_Zopp]. apply round_half_even_nonneg.
Qed.

Lemma sample_nonneg step i z :
  match step with Int k => 0 <= k | Float q => unsigned q end ->
  0 <= i -> sample step i = Ok z -> 0 <= z.
Proof.
  intros Hstep Hi. unfold sample, int_mul. destruct step as [k|q].
  - cbn [bind int_round]. intros H. inversion H. nia.
  - unfold mul_int_float.
    destruct (float_of_int i) as [fi|] eqn:Hfi; [|discriminate].
    cbn [bind int_round]. apply round_float_nonneg.
    apply SFmul_unsigned; [|exact Hstep].
    exact (float_of_int_unsigned i fi Hi Hfi).
Qed.

Lemma select_indices_nonneg n total l :
  0 <= n -> select_indices n total = Ok l -> Forall (fun i => 0 <= i) l.
Proof.
  intros Hn. unfold select_indices.
  destruct (Z.ltb_spec n total) as [Hlt|Hge].
  - intros H. inversion H. apply Forall_forall. intros i Hi.
    apply in_range in Hi. lia.
  - assert (Hall : forall step l,
              match step with Int k => 0 <= k | Float q => unsigned q end ->
              mapM (sample step) (range total) = Ok l ->
              Forall (fun i => 0 <= i) l).
    { intros step l' Hstep Hl. apply mapM_Forall2 in Hl.
      assert (Hr : Forall (fun i => 0 <= i) (range total)).
      { apply Forall_forall. intros i Hi. apply in_range in Hi. lia. }
      clear - Hl Hr Hstep. induction Hl as [|i z li lz Hz _ IH]; constructor.
      - inversion Hr; subst. exact (sample_nonneg step i z Hstep H1 Hz).
      - inversion Hr; subst. apply IH. assumption. }
    destruct (Z.ltb_spec 1 total) as [Ht|Ht].
    + destruct (true_div (n - 1) (total - 1)) as [q|] eqn:Hq; [|discriminate].
      cbn [bind]. apply Hall.
      apply (true_div_unsigned (n - 1) (total - 1)); [lia|lia|exact Hq].
    + cbn [bind]. apply Hall. lia.
Qed.

(** ** The sheet of a successful run, cell by cell *)

Lemma in_vertical_lines cols g color col :
  0 <= col <= cols ->
  In (Rect (line_x g col) 0 (line_x g col + grid_line_width - 1)
           (geo_sheet_h g) color)
     (vertical_lines cols g color).
Proof.
  intros H. unfold vertical_lines. apply in_map_iff. exists col.
  split; [reflexivity|]. apply in_range. lia.
Qed.

Lemma in_horizontal_lines rows g color row :
  0 <= row <= rows ->
  In (Rect 0 (line_y g row) (geo_sheet_w g)
           (line_y g row + grid_line_width - 1) color)
     (horizontal_lines rows g color).
Proof.
  intros H. unfold horizontal_lines. apply in_map_iff. exists row.
  split; [reflexivity|]. apply in_range. lia.
Qed.

Lemma run_cells a w status :
  w_pil w = true -> outcome a w = Ok status ->
  exists cols rows indices selected g f color s,
    parse_grid (grid a) = Ok (cols, rows) /\
    select (discover (w_listing w)) (cols * rows) = Ok (indices, selected) /\
    saved (trace a w) = [s] /\
    sheet_w s = cols * cell_w g + (cols + 1) * grid_line_width /\
    sheet_h s = rows * (cell_h g + label_height g)
                + (rows + 1) * grid_line_width /\
    (forall col, 0 <= col <= cols ->
       In (Rect (line_x g col) 0 (line_x g col + grid_line_width - 1)
                (sheet_h s) color) (ops s)) /\
    (forall row, 0 <= row <= rows ->
       In (Rect 0 (line_y g row) (sheet_w s)
                (line_y g row + grid_line_width - 1) color) (ops s)) /\
    forall i name,
      nth_error selected i = Some name ->
      exists im idx label,
        src im = name /\
        nth_error indices i = Some idx /\
        0 <= idx /\
        nth_error (discover (w_listing w)) (Z.to_nat idx) = Some name /\
        nth_error (ops s) (2 * i) =
          Some (Paste im
                  (cell_x g (Z.of_nat i mod cols) + (cell_w g - width im) / 2)
                  (cell_y g (Z.of_nat i / cols) + (cell_h g - height im) / 2)) /\
        nth_error (ops s) (2 * i + 1) =
          Some (Text (cell_x g (Z.of_nat i mod cols) + 2)
                     (cell_y g (Z.of_nat i / cols) + cell_h g + 2)
                     label f (255, 255, 255)) /\
        match truthy_int (fps a) with
        | Some rate =>
            exists time_sec,
              true_div idx rate = Ok time_sec /\
              label = (name ++ " (" ++ format_2f time_sec ++ "s)")%string
        | None => label = name
        end.
Proof.
  intros Hpil Hok.
  destruct (run_ok_pillow a w status Hpil Hok)
    as (cols & rows & indices & selected & images & g & f & color & cells
        & Hp & Hsel & Himages & Hg & Hcolor & Hcells & Hsaved).
  destruct (cell_geometry_ok _ _ _ _ _ Hg)
    as (widest & _ & _ & Hres & _ & _ & Hsw & Hsh).
  exists cols, rows, indices, selected, g, f, color.
  eexists. split; [exact Hp|]. split; [exact Hsel|]. split; [exact Hsaved|].
  cbn [sheet_w sheet_h ops].
  split; [exact Hsw|]. split; [exact Hsh|].
  split.
  { intros col Hcol. apply in_or_app. right. apply in_or_app. left.
    apply in_vertical_lines. exact Hcol. }
  split.
  { intros row Hrow. apply in_or_app. right. apply in_or_app. right.
    apply in_horizontal_lines. exact Hrow. }
  intros i name Hi.
  destruct (Forall2_nth_l _ _ _ _ _ Himages Hi) as (im0 & Him0 & Hdec).
  destruct (Forall2_nth_l _ _ _ _ _ Hres Him0) as (im & Him & Hsrc & _).
  destruct Hdec as (wd & ht & _ & ->). cbn [src] in Hsrc.
  destruct (draw_cells_nth _ _ _ _ _ _ _ _ _ Hcells Him)
    as (paste & text & Hdraw & H0 & H1 & Hlen).
  apply draw_cell_ok in Hdraw
    as (idx & name' & label & _ & Hidx & Hname & Hlabel & Hcell).
  inversion Hcell. subst paste text. clear Hcell.
  apply getitem_inv in Hidx; [|lia]. apply getitem_inv in Hname; [|lia].
  rewrite Nat2Z.id in Hidx, Hname.
  rewrite Hi in Hname. inversion Hname. subst name'. clear Hname.
  (* the index in the full list *)
  unfold select in Hsel.
  destruct (select_indices _ _) as [ind|] eqn:Hind; [|discriminate].
  cbn [bind] in Hsel.
  destruct (mapM _ ind) as [sel|] eqn:Hget; [|discriminate].
  cbn [bind] in Hsel. inversion Hsel. subst ind sel. clear Hsel.
  apply select_indices_nonneg in Hind; [|unfold len; lia].
  apply mapM_Forall2 in Hget.
  destruct (Forall2_nth_l _ _ _ _ _ Hget Hidx) as (name' & Hname' & Hframe).
  rewrite Hi in Hname'. inversion Hname'. subst name'. clear Hname'.
  assert (Hnn : 0 <= idx).
  { rewrite Forall_forall in Hind. apply Hind.
    eapply nth_error_In. exact Hidx. }
  exists im, idx, label.
  split; [exact Hsrc|]. split; [exact Hidx|]. split; [exact Hnn|].
  split; [apply getitem_inv; assumption|].
  split; [rewrite nth_error_app1 by lia; exact H0|].
  split; [rewrite nth_error_app1 by lia; exact H1|].
  exact Hlabel.
Qed.

Lemma sheet_width_formula_witness :
  exists widest s,
    saved (trace (Demo.args "2x2" (Some 2) None) (Demo.world true Demo.listing))
      = [s] /\
    sheet_w s = 2 * Z.min 320 widest + (2 + 1) * grid_line_width.
Proof.
  destruct (sheet_width_formula (Demo.args "2x2" (Some 2) None)
              (Demo.world true Demo.listing) 0)
    as (cols & rows & indices & selected & images & widest & s
        & Hp & _ & _ & _ & _ & Hsaved & Hw & _).
  - reflexivity.
  - vm_compute. reflexivity.
  - vm_compute in Hp. inversion Hp. subst cols rows.
    exists widest, s. split; [exact Hsaved | exact Hw].
Defined.



(** C6, as the code has it.  On a successful run with Pillow every
    cell has a label, drawn two pixels below the cell's image area and
    two pixels right of the cell's left edge.  Without a frame rate, or
    with the frame rate 0, the label is the file name of the frame.
    With a non-zero frame rate it is the file name followed by a
    space and, in parentheses, the index of the frame in the full
    sorted list divided by the frame rate, with two decimals and the
    unit [s].  Frame rate 2 and index 5 give [2.50s]. *)
Theorem cell_labels (a : Args) (w : World) (status : Z) :
  w_pil w = true -> outcome a w = Ok status ->
  (exists cols rows indices selected g f s,
     parse_grid (grid a) = Ok (cols, rows) /\
     select (discover (w_listing w)) (cols * rows) = Ok (indices, selected) /\
     saved (trace a w) = [s] /\
     forall i name,
       nth_error selected i = Some name ->
       exists idx label,
         nth_error indices i = Some idx /\
         0 <= idx /\
         nth_error (discover (w_listing w)) (Z.to_nat idx) = Some name /\
         nth_error (ops s) (2 * i + 1) =
           Some (Text (cell_x g (Z.of_nat i mod cols) + 2)
                      (cell_y g (Z.of_nat i / cols) + cell_h g + 2)
                      label f (255, 255, 255)) /\
         match fps a with
         | None => label = name
         | Some rate =>
             (rate = 0 -> label = name) /\
             (rate <> 0 ->
              exists time_sec,
                true_div idx rate = Ok time_sec /\
                label = (name ++ " (" ++ format_2f time_sec ++ "s)")%string)
         end) /\
  exists time_sec,
    true_div 5 2 = Ok time_sec /\
    (format_2f time_sec ++ "s")%string = "2.50s"%string.
Proof.
  intros Hpil Hok. split.
  - destruct (run_cells a w status Hpil Hok)
      as (cols & rows & indices & selected & g & f & color & s
          & Hp & Hsel & Hsaved & _ & _ & _ & _ & Hcells).
    exists cols, rows, indices, selected, g, f, s.
    repeat (split; [assumption|]).
    intros i name Hi.
    destruct (Hcells i name Hi)
      as (im & idx & label & _ & Hidx & Hnn & Hframe & _ & Htext & Hlabel).
    exists idx, label. repeat (split; [assumption|]).
    destruct (fps a) as [rate|]; cbn [truthy_int] in Hlabel; [|exact Hlabel].
    destruct rate as [|p|p]; cbn [truthy_int] in Hlabel.
    + split; [intros _; exact Hlabel | intros H; contradiction H; reflexivity].
    + split; [discriminate | intros _; exact Hlabel].
    + split; [discriminate | intros _; exact Hlabel].
  - eexists. split; vm_compute; reflexivity.
Qed.

Lemma cell_labels_witness :
  exists s idx label time_sec,
    saved (trace (Demo.args "2x2" (Some 2) None) (Demo.world true Demo.listing))
      = [s] /\
    nth_error (discover Demo.listing) (Z.to_nat idx)
      = Some "frame_0003.png"%string /\
    true_div idx 2 = Ok time_sec /\
    label = ("frame_0003.png" ++ " (" ++ format_2f time_sec ++ "s)")%string.
Proof.
  destruct (cell_labels (Demo.args "2x2" (Some 2) None)
              (Demo.world true Demo.listing) 0)
    as ((cols & rows & indices & selected & g & f & s
         & Hp & Hsel & Hsaved & Hcells) & _).
  - reflexivity.
  - vm_compute. reflexivity.
  - vm_compute in Hp. inversion Hp. subst cols rows. clear Hp.
    vm_compute in Hsel. inversion Hsel. subst indices selected. clear Hsel.
    destruct (Hcells 1%nat "frame_0003.png"%string eq_refl)
      as (idx & label & _ & _ & Hframe & _ & Hlabel).
    cbn [fps Demo.args] in Hlabel. destruct Hlabel as [_ Hlabel].
    destruct Hlabel as (time_sec & Ht & Hl); [discriminate|].
    exists s, idx, label, time_sec.
    split; [exact Hsaved|]. split; [exact Hframe|]. split; assumption.
Defined.

(** C6 as stated fails for the frame rate 0, which the command line
    accepts: the guard on the frame rate takes it for no frame rate,
    and the labels carry no time. *)
Lemma zero_frame_rate_gives_no_time :
  fps (Demo.args "2x2" (Some 0) None) = Some 0 /\
  outcome (Demo.args "2x2" (Some 0) None) (Demo.world true Demo.listing)
    = Ok 0 /\
  exists s,
    saved (trace (Demo.args "2x2" (Some 0) None) (Demo.world true Demo.listing))
      = [s] /\
    nth_error (ops s) 1 =
      Some (Text 3 183 "frame_0000.png"%string DefaultFont (255, 255, 255)).
Proof.
  split; [reflexivity|]. split; [vm_compute; reflexivity|].
  eexists. split; vm_compute; reflexivity.
Qed.

(** ** Sorting file names *)

Lemma ascii_compare_lt_trans a b c :
  Ascii.compare a b = Lt -> Ascii.compare b c = Lt -> Ascii.compare a c = Lt.
Proof.
  unfold Ascii.compare. rewrite !N.compare_lt_iff. apply N.lt_trans.
Qed.

Lemma string_compare_lt_trans a : forall b c,
  String.compare a b = Lt -> String.compare b c = Lt -> String.compare a c = Lt.
Proof.
  induction a as [|x a IH]; intros [|y b] [|z c]; simpl; try congruence.
  destruct (Ascii.compare x y) eqn:Hxy; try discriminate;
    destruct (Ascii.compare y z) eqn:Hyz; try discriminate.
  - apply Ascii.compare_eq_iff in Hxy, Hyz. subst.
    rewrite (proj2 (N.compare_eq_iff _ _) eq_refl : Ascii.compare z z = Eq).
    apply IH.
  - apply Ascii.compare_eq_iff in Hxy. subst. rewrite Hyz. reflexivity.
  - apply Ascii.compare_eq_iff in Hyz. subst. rewrite Hxy. reflexivity.
  - rewrite (ascii_compare_lt_trans _ _ _ Hxy Hyz). reflexivity.
Qed.

Lemma name_le_trans x y z : name_le x y -> name_le y z -> name_le x z.
Proof.
  unfold name_le, String.leb. intros Hxy Hyz.
  destruct (String.compare x y) eqn:Cxy; try discriminate.
  - apply String.compare_eq_iff in Cxy. subst. exact Hyz.
  - destruct (String.compare y z) eqn:Cyz; try discriminate.
    + apply String.compare_eq_iff in Cyz. subst. rewrite Cxy. reflexivity.
    + rewrite (string_compare_lt_trans _ _ _ Cxy Cyz). reflexivity.
Qed.

Lemma name_le_total x y : name_le x y \/ name_le y x.
Proof. apply String.leb_total. Qed.

Lemma name_le_antisym x y : name_le x y -> name_le y x -> x = y.
Proof. apply String.leb_antisym. Qed.

Lemma insert_sorted_perm x l : Permutation (insert_sorted x l) (x :: l).
Proof.
  induction l as [|y l IH]; simpl; [reflexivity|].
  destruct (String.leb x y); [reflexivity|].
  rewrite IH. apply perm_swap.
Qed.

Lemma sorted_perm l : Permutation (sorted l) l.
Proof.
  induction l as [|x l IH]; simpl; [reflexivity|].
  unfold sorted in *. simpl. rewrite insert_sorted_perm.
  apply perm_skip. exact IH.
Qed.

Lemma insert_sorted_sorted x l :
  StronglySorted name_le l -> StronglySorted name_le (insert_sorted x l).
Proof.
  induction 1 as [|y l Hl IH Hy]; simpl.
  - constructor; constructor.
  - destruct (String.leb x y) eqn:Hxy.
    + constructor; [constructor; assumption|].
      constructor; [exact Hxy|].
      eapply Forall_impl; [|exact Hy].
      intros z Hz. exact (name_le_trans _ _ _ Hxy Hz).
    + constructor; [exact IH|].
      assert (Hyx : name_le y x).
      { destruct (name_le_total x y) as [H'|H']; [|exact H'].
        unfold name_le in H'. congruence. }
      rewrite insert_sorted_perm. constructor; assumption.
Qed.

Lemma sorted_sorted l : StronglySorted name_le (sorted l).
Proof.
  induction l as [|x l IH]; simpl; [constructor|].
  apply insert_sorted_sorted. exact IH.
Qed.

(** Two sorted lists with the same elements are the same list. *)
Lemma sorted_unique l1 : forall l2,
  StronglySorted name_le l1 -> StronglySorted name_le l2 ->
  Permutation l1 l2 -> l1 = l2.
Proof.
  induction l1 as [|x l1 IH]; intros l2 H1 H2 HP.
  - apply Permutation_nil in HP. subst. reflexivity.
  - destruct l2 as [|y l2].
    { symmetry in HP. apply Permutation_nil in HP. discriminate. }
    inversion H1 as [|? ? H1' Hx]; subst.
    inversion H2 as [|? ? H2' Hy]; subst.
    assert (x = y).
    { assert (Hxin : In x (y :: l2)).
      { eapply Permutation_in; [exact HP|left; reflexivity]. }
      assert (Hyin : In y (x :: l1)).
      { eapply Permutation_in; [symmetry; exact HP|left; reflexivity]. }
      rewrite Forall_forall in Hx, Hy.
      destruct Hxin as [->|Hxin]; [reflexivity|].
      destruct Hyin as [->|Hyin]; [reflexivity|].
      apply name_le_antisym; [apply Hx|apply Hy]; assumption. }
    subst y. f_equal. apply IH; try assumption.
    eapply Permutation_cons_inv. exact HP.
Qed.

Lemma filter_perm {A} (p : A -> bool) l1 l2 :
  Permutation l1 l2 -> Permutation (filter p l1) (filter p l2).
Proof.
  induction 1 as [|x l1 l2 _ IH|x y l|l1 l2 l3 _ IH1 _ IH2]; simpl.
  - reflexivity.
  - destruct (p x); [apply perm_skip|]; exact IH.
  - destruct (p x), (p y); try reflexivity. apply perm_swap.
  - etransitivity; eassumption.
Qed.

(** ** Frame discovery *)

Lemma discover_perm l :
  Permutation (discover l) (filter (fun name => endswith name ".png") l).
Proof. unfold discover. apply sorted_perm. Qed.

Lemma discover_sorted l : StronglySorted name_le (discover l).
Proof. unfold discover. apply sorted_sorted. Qed.

Lemma discover_in l name :
  In name (discover l) <-> In name l /\ endswith name ".png" = true.
Proof.
  split.
  - intros H. apply (Permutation_in _ (discover_perm l)) in H.
    apply filter_In in H. exact H.
  - intros H. apply (Permutation_in _ (Permutation_sym (discover_perm l))).
    apply filter_In. exact H.
Qed.

(** The frame list does not depend on the order in which the system
    enumerates the directory. *)
Lemma discover_order l1 l2 :
  Permutation l1 l2 -> discover l1 = discover l2.
Proof.
  intros HP. apply sorted_unique; try apply discover_sorted.
  rewrite !discover_perm. apply filter_perm. exact HP.
Qed.

(** ** The layout does not depend on the font *)

Lemma mapM_post {A B C} (f : A -> result B) (g : A -> result C) (h : B -> C) l :
  (forall x, g x = bind (f x) (fun y => Ok (h y))) ->
  mapM g l = bind (mapM f l) (fun ys => Ok (map h ys)).
Proof.
  intros H. induction l as [|x l IH]; simpl; [reflexivity|].
  rewrite H, IH. destruct (f x); simpl; [|reflexivity].
  destruct (mapM f l); reflexivity.
Qed.

Lemma draw_cell_unfont a cols g selected indices f idx im :
  draw_cell a cols g selected indices DefaultFont idx im =
  bind (draw_cell a cols g selected indices f idx im)
       (fun cell => Ok (map unfont cell)).
Proof.
  unfold draw_cell.
  destruct (floordiv idx cols); [|reflexivity]. cbn [bind].
  destruct (modulo idx cols); [|reflexivity]. cbn [bind].
  destruct (getitem indices idx); [|reflexivity]. cbn [bind].
  destruct (getitem selected idx); [|reflexivity]. cbn [bind].
  destruct (truthy_int (fps a)); [|reflexivity].
  destruct (true_div _ _); reflexivity.
Qed.

Lemma draw_cells_unfont a cols g selected indices f :
  draw_cells a cols g selected indices DefaultFont =
  bind (draw_cells a cols g selected indices f)
       (fun cells => Ok (map unfont cells)).
Proof.
  unfold draw_cells.
  rewrite (mapM_post
             (fun p => draw_cell a cols g selected indices f (fst p) (snd p))
             (fun p => draw_cell a cols g selected indices DefaultFont (fst p) (snd p))
             (map unfont)).
  - destruct (mapM _ (enumerate (resized g))) as [ls|]; [|reflexivity].
    cbn [bind]. rewrite concat_map. reflexivity.
  - intros p. apply draw_cell_unfont.
Qed.

Lemma unfont_lines_v cols g color :
  map unfont (vertical_lines cols g color) = vertical_lines cols g color.
Proof.
  unfold vertical_lines. rewrite map_map. reflexivity.
Qed.

Lemma unfont_lines_h rows g color :
  map unfont (horizontal_lines rows g color) = horizontal_lines rows g color.
Proof.
  unfold horizontal_lines. rewrite map_map. reflexivity.
Qed.

Lemma decoded_agree w1 w2 names images1 images2 :
  (forall name, w_decode w1 name = w_decode w2 name) ->
  Forall2 (decoded w1) names images1 ->
  Forall2 (decoded w2) names images2 ->
  images1 = images2.
Proof.
  intros Hd H1. revert images2.
  induction H1 as [|name im1 names ims1 Him1 _ IH]; intros images2 H2.
  - inversion H2. reflexivity.
  - inversion H2 as [|? im2 ? ims2 Him2 Hrest]; subst.
    f_equal; [|apply IH; exact Hrest].
    destruct Him1 as (wd1 & h1 & Hd1 & ->).
    destruct Him2 as (wd2 & h2 & Hd2 & ->).
    rewrite Hd in Hd1. rewrite Hd1 in Hd2. inversion Hd2. reflexivity.
Qed.

(** C9. Two successful runs with Pillow, with the same arguments, on
    directories with the same entries (in whatever order the system
    enumerates them) and the same decodable contents select the same
    indices and the same frames and hand sheets of the same layout to
    [save]: the same dimensions and the same images, labels and
    separator lines at the same positions.  Fonts, installed tools and
    the fate of [save] may differ between the two runs. *)
Theorem layout_is_deterministic (a : Args) (w1 w2 : World) :
  Permutation (w_listing w1) (w_listing w2) ->
  (forall name, w_decode w1 name = w_decode w2 name) ->
  discover (w_listing w1) = discover (w_listing w2) /\
  (forall total,
     select (discover (w_listing w1)) total
     = select (discover (w_listing w2)) total) /\
  forall st1 st2,
    w_pil w1 = true -> w_pil w2 = true ->
    outcome a w1 = Ok st1 -> outcome a w2 = Ok st2 ->
    exists cols rows indices selected s1 s2,
      parse_grid (grid a) = Ok (cols, rows) /\
      select (discover (w_listing w1)) (cols * rows) = Ok (indices, selected) /\
      select (discover (w_listing w2)) (cols * rows) = Ok (indices, selected) /\
      saved (trace a w1) = [s1] /\
      saved (trace a w2) = [s2] /\
      layout s1 = layout s2.
Proof.
  intros Hperm Hdec.
  split; [apply discover_order; exact Hperm|].
  split; [intros total; rewrite (discover_order _ _ Hperm); reflexivity|].
  intros st1 st2 Hp1 Hp2 Hok1 Hok2.
  destruct (run_ok_pillow a w1 st1 Hp1 Hok1)
    as (cols & rows & indices & selected & images & g & f & color & cells
        & Hp & Hsel & Himages & Hg & Hcolor & Hcells & Hsaved).
  destruct (run_ok_pillow a w2 st2 Hp2 Hok2)
    as (cols' & rows' & indices' & selected' & images' & g' & f' & color' & cells'
        & Hp' & Hsel' & Himages' & Hg' & Hcolor' & Hcells' & Hsaved').
  rewrite Hp in Hp'. inversion Hp'. subst cols' rows'. clear Hp'.
  pose proof Hsel' as Hsame.
  rewrite <- (discover_order _ _ Hperm), Hsel in Hsame.
  inversion Hsame. subst indices' selected'. clear Hsame.
  pose proof (decoded_agree _ _ _ _ _ Hdec Himages Himages'). subst images'.
  rewrite Hg in Hg'. inversion Hg'. subst g'.
  rewrite Hcolor in Hcolor'. inversion Hcolor'. subst color'.
  exists cols, rows, indices, selected.
  eexists. eexists.
  split; [exact Hp|]. split; [exact Hsel|]. split; [exact Hsel'|].
  split; [exact Hsaved|]. split; [exact Hsaved'|].
  unfold layout. cbn [sheet_w sheet_h ops]. f_equal.
  rewrite !map_app. f_equal.
  pose proof (draw_cells_unfont a cols g selected indices f) as E1.
  pose proof (draw_cells_unfont a cols g selected indices f') as E2.
  rewrite Hcells in E1. rewrite Hcells' in E2. cbn [bind] in E1, E2.
  rewrite E1 in E2. inversion E2. reflexivity.
Qed.

Lemma layout_is_deterministic_witness :
  discover Demo.listing = discover (List.rev Demo.listing) /\
  exists s1 s2,
    saved (trace (Demo.args "2x2" (Some 2) None)
                 (Demo.world true Demo.listing)) = [s1] /\
    saved (trace (Demo.args "2x2" (Some 2) None)
                 (Demo.world true (List.rev Demo.listing))) = [s2] /\
    layout s1 = layout s2.
Proof.
  destruct (layout_is_deterministic (Demo.args "2x2" (Some 2) None)
              (Demo.world true Demo.listing)
              (Demo.world true (List.rev Demo.listing)))
    as (Hd & _ & H).
  - apply Permutation_rev.
  - reflexivity.
  - split; [exact Hd|].
    destruct (H 0 0) as (cols & rows & indices & selected & s1 & s2
                         & _ & _ & _ & H1 & H2 & HL).
    + reflexivity.
    + reflexivity.
    + vm_compute. reflexivity.
    + vm_compute. reflexivity.
    + exists s1, s2. split; [exact H1|]. split; [exact H2|exact HL].
Defined.

(** ** The output file as a directory entry *)

Local Open Scope string_scope.

Lemma entry_of_plain name : plain_name name -> entry_of name = Some name.
Proof.
  intros (Hne & Hdot & Hdots & Hsep). unfold entry_of.
  destruct name as [|c name]; [contradiction Hne; reflexivity|].
  destruct (Ascii.eqb_spec c "/") as [->|_].
  { exfalso. apply (Hsep "/"%char); [left|]; reflexivity. }
  rewrite (split_no_separator _ _ Hsep). cbn [filter].
  destruct (String.eqb_spec (String c name) EmptyString) as [|_]; [discriminate|].
  destruct (String.eqb_spec (String c name) ".") as [|_]; [contradiction|].
  cbn [negb andb].
  destruct (String.eqb_spec (String c name) "..") as [|_]; [contradiction|].
  reflexivity.
Qed.

Lemma substring_all s : substring 0 (String.length s) s = s.
Proof. induction s as [|c s IH]; simpl; [reflexivity|]. rewrite IH. reflexivity. Qed.

Lemma substring_skip s t k :
  substring (String.length s) k (s ++ t) = substring 0 k t.
Proof. induction s as [|c s IH]; simpl; [reflexivity|exact IH]. Qed.

Lemma length_append s t :
  String.length (s ++ t) = (String.length s + String.length t)%nat.
Proof. induction s as [|c s IH]; simpl; [reflexivity|]. rewrite IH. reflexivity. Qed.

Lemma endswith_append s suffix : endswith (s ++ suffix) suffix = true.
Proof.
  unfold endswith. rewrite length_append.
  replace (String.length s + String.length suffix - String.length suffix)%nat
    with (String.length s) by lia.
  rewrite substring_skip, substring_all, String.eqb_refl.
  destruct (Nat.leb_spec (String.length suffix)
              (String.length s + String.length suffix)); [reflexivity|lia].
Qed.

Lemma plain_sheet_name scene :
  (forall c, In c (list_ascii_of_string scene) -> c <> "/"%char) ->
  plain_name (scene ++ "_sheet.png").
Proof.
  intros Hsep.
  assert (Hlen : (10 <= String.length (scene ++ "_sheet.png"))%nat).
  { rewrite length_append. simpl. lia. }
  repeat split.
  - intros E. rewrite E in Hlen. simpl in Hlen. lia.
  - intros E. rewrite E in Hlen. simpl in Hlen. lia.
  - intros E. rewrite E in Hlen. simpl in Hlen. lia.
  - intros c Hc. rewrite chars_append in Hc. apply in_app_or in Hc.
    destruct Hc as [Hc|Hc]; [apply Hsep; exact Hc|].
    simpl in Hc. intuition (subst; discriminate).
Qed.

Lemma created_entry out name w w' :
  created out w [] = (Ok tt, w', []) ->
  entry_of out = Some name ->
  In name (w_listing w').
Proof.
  unfold created. intros H Hentry. rewrite Hentry in H.
  inversion H. subst w'. clear H. cbn [w_listing].
  destruct (existsb (String.eqb name) (w_listing w)) eqn:Hex.
  - apply existsb_exists in Hex as (x & Hx & Heq).
    apply String.eqb_eq in Heq. subst. exact Hx.
  - apply in_or_app. right. left. reflexivity.
Qed.

(** C10, as the code has it.  Discovery returns the entries of the
    directory whose names end in [.png], each as often as it is
    listed, sorted by name, and leaves nothing out, the output of an
    earlier run included.  After a successful run whose output file
    name is an entry [name] of the frame directory ending in [.png],
    the frame discovery of any later run returns a list that contains
    [name].  This is the case for the default names:
    [contact_sheet.png], and [<scene>_sheet.png] when the scene name
    has no path separator. *)
Theorem discovery_sees_previous_output (a : Args) (w : World) (status : Z) :
  (forall l,
     Permutation (discover l) (filter (fun name => endswith name ".png") l) /\
     StronglySorted name_le (discover l)) /\
  (outcome a w = Ok status ->
   forall name,
     entry_of (output_filename a) = Some name ->
     endswith name ".png" = true ->
     forall dir t, exists frames,
       glob_png dir (world_after a w) t
         = (Ok frames, world_after a w, (t ++ [Glob dir "*.png"])%list) /\
       In name frames) /\
  (truthy_str (output a) = None ->
   match truthy_str (scene_name a) with
   | Some scene =>
       (forall c, In c (list_ascii_of_string scene) -> c <> "/"%char) ->
       entry_of (output_filename a) = Some (scene ++ "_sheet.png") /\
       endswith (scene ++ "_sheet.png") ".png" = true
   | None =>
       entry_of (output_filename a) = Some "contact_sheet.png" /\
       endswith "contact_sheet.png" ".png" = true
   end).
Proof.
  split; [|split].
  - intros l. split; [apply discover_perm | apply discover_sorted].
  - intros Hok name Hentry Hpng dir t.
    exists (discover (w_listing (world_after a w))).
    split; [reflexivity|].
    apply discover_in. split; [|exact Hpng].
    pose proof (run_writes_once a w) as H.
    rewrite Hok in H. destruct H as (_ & Hcreated & _).
    exact (created_entry _ _ _ _ Hcreated Hentry).
  - intros Hout. unfold output_filename. rewrite Hout.
    destruct (truthy_str (scene_name a)) as [scene|].
    + intros Hsep. split.
      * apply entry_of_plain. apply plain_sheet_name. exact Hsep.
      * replace (scene ++ "_sheet.png") with ((scene ++ "_sheet") ++ ".png").
        -- apply endswith_append.
        -- clear. induction scene as [|c s IH]; simpl; [reflexivity|].
           rewrite IH. reflexivity.
    + split; reflexivity.
Qed.

Lemma discovery_sees_previous_output_witness :
  exists frames,
    glob_png "media/images/foo"
      (world_after (Demo.args "2x2" (Some 2) None) (Demo.world true Demo.listing))
      []
    = (Ok frames,
       world_after (Demo.args "2x2" (Some 2) None) (Demo.world true Demo.listing),
       ([] ++ [Glob "media/images/foo" "*.png"])%list) /\
    In "Foo_sheet.png" frames.
Proof.
  destruct (discovery_sees_previous_output (Demo.args "2x2" (Some 2) None)
              (Demo.world true Demo.listing) 0) as (_ & H & _).
  apply H.
  - vm_compute. reflexivity.
  - reflexivity.
  - reflexivity.
Defined.

(** C10 as stated fails for an explicit output name that does not end
    in [.png]: the run writes [sheet.jpg] into the frame directory and
    a later run discovers the same frames as the first. *)
Lemma explicit_output_name_not_rediscovered :
  outcome (Demo.args "2x2" None (Some "sheet.jpg"))
          (Demo.world true Demo.listing) = Ok 0%Z /\
  output_filename (Demo.args "2x2" None (Some "sheet.jpg")) = "sheet.jpg" /\
  In "sheet.jpg"
     (w_listing (world_after (Demo.args "2x2" None (Some "sheet.jpg"))
                             (Demo.world true Demo.listing))) /\
  ~ In "sheet.jpg"
       (discover
          (w_listing (world_after (Demo.args "2x2" None (Some "sheet.jpg"))
                                  (Demo.world true Demo.listing)))) /\
  discover
    (w_listing (world_after (Demo.args "2x2" None (Some "sheet.jpg"))
                            (Demo.world true Demo.listing)))
  = discover Demo.listing.
Proof.
  split; [vm_compute; reflexivity|]. split; [reflexivity|].
  split; [vm_compute; tauto|].
  split; [|vm_compute; reflexivity].
  intros H. apply discover_in in H as [_ H]. vm_compute in H. discriminate.
Qed.

(* ================================================================== *)
(** * Part III: more of the two scripts *)
(* ================================================================== *)

Import Drawn.
Local Open Scope Z_scope.

(* ------------------------------------------------------------------ *)
(** * [hex_to_rgb] *)

Lemma digit_val_hex c : digit_val 16 c = hex_value c.
Proof.
  destruct c as [[] [] [] [] [] [] [] []]; vm_compute; reflexivity.
Qed.

Lemma hex_value_facts c d :
  hex_value c = Some d ->
  0 <= d <= 15 /\ is_space c = false /\
  Ascii.eqb c "+" = false /\ Ascii.eqb c "-" = false /\
  Ascii.eqb c "_" = false /\ Ascii.eqb c "#" = false /\
  Ascii.eqb c "x" = false /\ Ascii.eqb c "X" = false.
Proof.
  destruct c as [[] [] [] [] [] [] [] []]; vm_compute; intros H;
    try discriminate H; inversion H; subst d;
    repeat split; discriminate.
Qed.

Lemma lstrip_char_hashes pre c s :
  hashes pre -> Ascii.eqb c "#" = false ->
  lstrip_char "#" (pre ++ String c s) = String c s.
Proof.
  intros Hpre Hc. induction pre as [|a pre IH]; simpl.
  - rewrite Hc. reflexivity.
  - rewrite (Hpre a (or_introl eq_refl)). simpl. apply IH.
    intros b Hb. apply Hpre. right. exact Hb.
Qed.

(** Two hexadecimal digits read in base 16. *)
Lemma py_int_hex_pair a b da db :
  hex_value a = Some da -> hex_value b = Some db ->
  py_int 16 (String a (String b EmptyString)) = Ok (16 * da + db).
Proof.
  intros Ha Hb.
  destruct (hex_value_facts a da Ha) as (_ & Hsa & Hpa & Hma & Hua & _ & _ & _).
  destruct (hex_value_facts b db Hb) as (_ & Hsb & _ & _ & Hub & _ & Hxb & HXb).
  unfold py_int, strip.
  rewrite lstrip_solid by exact Hsa.
  change (rev (String a (String b EmptyString)))
    with (String b (String a EmptyString)).
  rewrite lstrip_solid by exact Hsb.
  change (rev (String b (String a EmptyString)))
    with (String a (String b EmptyString)).
  cbn [split_sign]. rewrite Hpa, Hma.
  cbn [skip_prefix]. rewrite Hxb, HXb, andb_false_r.
  cbn [parse_digits]. rewrite Hua, Hub, !digit_val_hex, Ha, Hb.
  f_equal. lia.
Qed.

(** X1. [hex_to_rgb] reads six hexadecimal digits, of either case and
    after any number of [#] characters, as three channels: each is
    sixteen times the first digit of its pair plus the second, a value
    from 0 to 255. *)
Theorem hex_to_rgb_reads_hex_digits
    (pre : string) (c1 c2 c3 c4 c5 c6 : ascii) (d1 d2 d3 d4 d5 d6 : Z) :
  hashes pre ->
  hex_value c1 = Some d1 -> hex_value c2 = Some d2 ->
  hex_value c3 = Some d3 -> hex_value c4 = Some d4 ->
  hex_value c5 = Some d5 -> hex_value c6 = Some d6 ->
  hex_to_rgb (pre ++ String c1 (String c2 (String c3 (String c4
                       (String c5 (String c6 EmptyString))))))
  = Ok (16 * d1 + d2, 16 * d3 + d4, 16 * d5 + d6) /\
  0 <= 16 * d1 + d2 <= 255 /\ 0 <= 16 * d3 + d4 <= 255 /\
  0 <= 16 * d5 + d6 <= 255.
Proof.
  intros Hpre H1 H2 H3 H4 H5 H6.
  destruct (hex_value_facts c1 d1 H1) as (B1 & _ & _ & _ & _ & Hh & _).
  destruct (hex_value_facts c2 d2 H2) as (B2 & _).
  destruct (hex_value_facts c3 d3 H3) as (B3 & _).
  destruct (hex_value_facts c4 d4 H4) as (B4 & _).
  destruct (hex_value_facts c5 d5 H5) as (B5 & _).
  destruct (hex_value_facts c6 d6 H6) as (B6 & _).
  split; [|lia].
  unfold hex_to_rgb. rewrite lstrip_char_hashes by assumption.
  cbn [String.length Nat.eqb negb substring].
  rewrite (py_int_hex_pair c1 c2 d1 d2 H1 H2),
          (py_int_hex_pair c3 c4 d3 d4 H3 H4),
          (py_int_hex_pair c5 c6 d5 d6 H5 H6).
  reflexivity.
Qed.

Lemma hex_to_rgb_reads_hex_digits_witness :
  hex_to_rgb "#1aB2c3" = Ok (26, 178, 195).
Proof.
  refine (proj1 (hex_to_rgb_reads_hex_digits "#" "1" "a" "B" "2" "c" "3"
                   1 10 11 2 12 3 _ eq_refl eq_refl eq_refl eq_refl
                   eq_refl eq_refl)).
  intros c [<-|[]]. reflexivity.
Defined.

(** ** What [int(s, 16)] can return for a short string *)

Lemma parse_digits_hex_bound s : forall acc prev z,
  parse_digits 16 s acc prev = Some z -> 0 <= acc ->
  acc <= z < (acc + 1) * 16 ^ Z.of_nat (String.length s).
Proof.
  induction s as [|c s IH]; intros acc prev z H Hacc.
  - cbn in H. destruct prev; [|discriminate]. inversion H. subst.
    cbn. lia.
  - cbn [parse_digits] in H. cbn [String.length].
    rewrite Nat2Z.inj_succ, Z.pow_succ_r by lia.
    assert (Hp : 0 < 16 ^ Z.of_nat (String.length s)) by (apply Z.pow_pos_nonneg; lia).
    destruct (Ascii.eqb c "_").
    + destruct prev; [|discriminate].
      apply IH in H; [|exact Hacc]. nia.
    + destruct (digit_val 16 c) as [d|] eqn:Hd; [|discriminate].
      rewrite digit_val_hex in Hd.
      destruct (hex_value_facts c d Hd) as (Hrange & _).
      apply IH in H; [|lia]. nia.
Qed.

Lemma strip_length s : (String.length (strip s) <= String.length s)%nat.
Proof.
  destruct (strip_decompose s) as (pre & post & _ & _ & Hs).
  rewrite Hs at 2. rewrite !length_append. lia.
Qed.

Lemma skip_prefix_length base u :
  (String.length (skip_prefix base u) <= String.length u)%nat.
Proof.
  destruct u as [|a [|x r]]; cbn [skip_prefix]; try lia.
  destruct ((base =? 16) && Ascii.eqb a "0"
            && (Ascii.eqb x "x" || Ascii.eqb x "X")); [|lia].
  destruct r as [|y r']; [cbn; lia|].
  destruct (Ascii.eqb y "_"); cbn; lia.
Qed.

Lemma py_int_hex_pair_range t z :
  String.length t = 2%nat -> py_int 16 t = Ok z -> -15 <= z <= 255.
Proof.
  intros Hlen. unfold py_int.
  pose proof (strip_length t) as Hs. rewrite Hlen in Hs.
  destruct (split_sign (strip t)) as [neg u] eqn:Hsign.
  pose proof (skip_prefix_length 16 u) as Hk.
  destruct (parse_digits 16 (skip_prefix 16 u) 0 false) as [v|] eqn:Hv;
    [|discriminate].
  apply parse_digits_hex_bound in Hv; [|lia].
  intros H. inversion H. subst z. clear H.
  assert (Hpow : forall n m : nat, (n <= m)%nat ->
                   16 ^ Z.of_nat n <= 16 ^ Z.of_nat m).
  { intros n m Hnm. apply Z.pow_le_mono_r; lia. }
  destruct (split_sign_cases (strip t))
    as [[E _]|[(r & Ht & E)|(r & Ht & E)]];
    rewrite E in Hsign; inversion Hsign; subst neg u; clear Hsign.
  - pose proof (Hpow _ 2%nat (Nat.le_trans _ _ _ Hk Hs)).
    change (16 ^ Z.of_nat 2) with 256 in *. lia.
  - rewrite Ht in Hs. cbn [String.length] in Hs.
    assert (Hr : (String.length (skip_prefix 16 r) <= 1)%nat) by lia.
    pose proof (Hpow _ 1%nat Hr). change (16 ^ Z.of_nat 1) with 16 in *. lia.
  - rewrite Ht in Hs. cbn [String.length] in Hs.
    assert (Hr : (String.length (skip_prefix 16 r) <= 1)%nat) by lia.
    pose proof (Hpow _ 1%nat Hr). change (16 ^ Z.of_nat 1) with 16 in *. lia.
Qed.

Lemma six_characters h :
  String.length h = 6%nat ->
  exists c1 c2 c3 c4 c5 c6,
    h = String c1 (String c2 (String c3 (String c4
          (String c5 (String c6 EmptyString))))).
Proof.
  intros H.
  destruct h as [|c1 [|c2 [|c3 [|c4 [|c5 [|c6 [|c7 h]]]]]]]; try discriminate.
  repeat eexists.
Qed.

(** What a successful call has done. *)
Lemma hex_to_rgb_ok s r g b :
  hex_to_rgb s = Ok (r, g, b) ->
  exists c1 c2 c3 c4 c5 c6,
    lstrip_char "#" s = String c1 (String c2 (String c3 (String c4
                          (String c5 (String c6 EmptyString))))) /\
    py_int 16 (String c1 (String c2 EmptyString)) = Ok r /\
    py_int 16 (String c3 (String c4 EmptyString)) = Ok g /\
    py_int 16 (String c5 (String c6 EmptyString)) = Ok b.
Proof.
  unfold hex_to_rgb.
  destruct (Nat.eqb_spec (String.length (lstrip_char "#" s)) 6) as [Hlen|Hlen];
    cbn [negb]; [|discriminate].
  destruct (six_characters _ Hlen) as (c1 & c2 & c3 & c4 & c5 & c6 & ->).
  cbn [substring].
  destruct (py_int 16 (String c1 (String c2 EmptyString))) as [r'|] eqn:Hr;
    [|discriminate].
  destruct (py_int 16 (String c3 (String c4 EmptyString))) as [g'|] eqn:Hg;
    [|discriminate].
  destruct (py_int 16 (String c5 (String c6 EmptyString))) as [b'|] eqn:Hb;
    [|discriminate].
  cbn [bind]. intros H. inversion H. subst.
  exists c1, c2, c3, c4, c5, c6. auto.
Qed.

(** X2. The channels [hex_to_rgb] returns are the values of two
    characters read by [int(_, 16)]: never more than 255, and never
    less than -15, the value of a minus sign followed by [f]. *)
Theorem hex_to_rgb_channel_range (s : string) (r g b : Z) :
  hex_to_rgb s = Ok (r, g, b) ->
  -15 <= r <= 255 /\ -15 <= g <= 255 /\ -15 <= b <= 255.
Proof.
  intros H.
  destruct (hex_to_rgb_ok s r g b H)
    as (c1 & c2 & c3 & c4 & c5 & c6 & _ & Hr & Hg & Hb).
  repeat split;
    eapply py_int_hex_pair_range; try eassumption; reflexivity.
Qed.

Lemma hex_to_rgb_channel_range_witness :
  hex_to_rgb "#-fFf 9" = Ok (-15, 255, 9) /\
  -15 <= -15 <= 255 /\ -15 <= 255 <= 255 /\ -15 <= 9 <= 255.
Proof.
  split; [reflexivity|].
  apply (hex_to_rgb_channel_range "#-fFf 9" (-15) 255 9). reflexivity.
Defined.



(* ------------------------------------------------------------------ *)
(** * How many frames are selected *)

Lemma mapM_length {A B} (f : A -> result B) l l' :
  mapM f l = Ok l' -> List.length l' = List.length l.
Proof.
  intros H. apply mapM_Forall2 in H. symmetry. exact (Forall2_length H).
Qed.

Lemma getitem_In {A} (l : list A) i a : getitem l i = Ok a -> In a l.
Proof.
  unfold getitem.
  destruct ((0 <=? _) && (_ <? _)); [|discriminate].
  destruct (nth_error l _) as [b|] eqn:H; [|discriminate].
  intros E. inversion E. subst. exact (nth_error_In _ _ H).
Qed.

(** What a successful selection returns. *)
Lemma select_ok {A} (frames : list A) (total : Z)
    (indices : list Z) (selected : list A) :
  0 < total ->
  select frames total = Ok (indices, selected) ->
  len selected = Z.min (len frames) total /\
  len indices = len selected /\
  Forall2 (fun i frame => getitem frames i = Ok frame /\ In frame frames)
          indices selected.
Proof.
  intros Ht. unfold select.
  destruct (select_indices (len frames) total) as [l|] eqn:Hl; [|discriminate].
  cbn [bind].
  destruct (mapM (getitem frames) l) as [sel|] eqn:Hsel; [|discriminate].
  cbn [bind]. intros H. inversion H. subst l sel. clear H.
  pose proof (mapM_length _ _ _ Hsel) as Hlen.
  assert (Hn : List.length indices = Z.to_nat (Z.min (len frames) total)).
  { unfold select_indices in Hl.
    destruct (Z.ltb_spec (len frames) total) as [Hlt|Hge].
    - inversion Hl. rewrite length_range. f_equal. lia.
    - destruct (if 1 <? total
                then q <- true_div (len frames - 1) (total - 1);; Ok (Float q)
                else Ok (Int 1)) as [step|]; [|discriminate].
      cbn [bind] in Hl. apply mapM_length in Hl.
      rewrite Hl, length_range. f_equal. lia. }
  unfold len in *. split; [|split].
  - rewrite Hlen, Hn. unfold len. lia.
  - rewrite Hlen. reflexivity.
  - apply mapM_Forall2 in Hsel.
    eapply Forall2_impl; [|exact Hsel].
    intros i a Hi. split; [exact Hi | exact (getitem_In _ _ _ Hi)].
Qed.


(** X4. Whenever the selection succeeds, for a grid of [total >= 1]
    cells, it holds [min(len(frames), total)] frames: never more than
    the grid has cells, and never more than there are frames.  There
    are as many indices as frames, and every selected frame is the
    frame of the list at its index. *)
Theorem selection_size {A} (frames : list A) (total : Z)
    (indices : list Z) (selected : list A) :
  0 < total ->
  select frames total = Ok (indices, selected) ->
  len selected = Z.min (len frames) total /\
  len indices = len selected /\
  Forall2 (fun i frame => getitem frames i = Ok frame /\ In frame frames)
          indices selected.
Proof. exact (select_ok frames total indices selected). Qed.

Lemma selection_size_witness :
  exists indices selected,
    select ["a"; "b"; "c"; "d"; "e"] 4 = Ok (indices, selected) /\
    len selected = 4.
Proof.
  exists [0; 1; 3; 4], ["a"; "b"; "d"; "e"].
  split; [reflexivity|].
  apply (selection_size ["a"; "b"; "c"; "d"; "e"] 4
           [0; 1; 3; 4] ["a"; "b"; "d"; "e"]); [lia | reflexivity].
Defined.

(* ------------------------------------------------------------------ *)
(** * No frame is selected twice *)

Local Open Scope Q_scope.

Section Spacing.
Variables (a b : Z) (x : float) (vs : Q).
Hypothesis Hb : (1 <= b <= a)%Z.
Hypothesis Ha : (a < 2 ^ 51)%Z.
Hypothesis Hx : is_float x vs.
Hypothesis Hstep : Qabs (vs * inject_Z b - inject_Z a) <= inject_Z a * u.

(** The first step leaves index 0. *)
Lemma sample_one z : sample (Float x) 1 = Ok z -> (1 <= z)%Z.
Proof.
  intros Hz.
  destruct (sample_point a b x vs Hb Ha Hx Hstep 1) as (z' & v & Hz' & Hzv & Hv);
    [lia|].
  rewrite Hz in Hz'. inversion Hz'. subst z'. clear Hz'.
  destruct (step_bounds a b vs Hb Ha Hstep) as (H1 & H2 & H3 & H4 & H5 & H6).
  apply Qabs_Qle_condition in Hzv, Hv.
  change (inject_Z 1) with 1 in Hv.
  assert (H : inject_Z 0 < inject_Z z).
  { change (inject_Z 0) with 0. unfold u in *. lra. }
  rewrite <- Zlt_Qlt in H. lia.
Qed.

(** With as many frames as cells the step is 1 up to rounding, and the
    sample at [i] is [i]. *)
Lemma sample_identity i z :
  a = b -> (0 <= i <= b)%Z -> sample (Float x) i = Ok z -> z = i.
Proof.
  intros Hab Hi Hz.
  destruct (Z.eq_dec i 0) as [->|Hi0].
  { rewrite (sample_zero x vs Hx) in Hz. inversion Hz. reflexivity. }
  destruct (sample_point a b x vs Hb Ha Hx Hstep i) as (z' & v & Hz' & Hzv & Hv);
    [lia|].
  rewrite Hz in Hz'. inversion Hz'. subst z'. clear Hz'.
  destruct (step_bounds a b vs Hb Ha Hstep) as (H1 & H2 & H3 & H4 & H5 & H6).
  subst a.
  set (B := inject_Z b) in *. set (I := inject_Z i) in *.
  assert (HI1 : 1 <= I).
  { unfold I. change 1 with (inject_Z 1). rewrite <- Zle_Qle. lia. }
  assert (HIB : I <= B) by (unfold I, B; rewrite <- Zle_Qle; lia).
  assert (HR : 0 < / B) by (apply Qinv_lt_0_compat; lra).
  assert (HRB : B * / B == 1) by (apply Qmult_inv_r; lra).
  assert (Hlo : 1 - u <= vs) by exact H6.
  assert (Hhi : vs <= 1 + u).
  { assert (E : vs == vs * B * / B).
    { rewrite <- Qmult_assoc, HRB. ring. }
    rewrite E.
    apply Qle_trans with (B * (1 + u) * / B).
    - apply Qmult_le_compat_r; [exact H5 | lra].
    - assert (E2 : B * (1 + u) * / B == (B * / B) * (1 + u)) by ring.
      rewrite E2, HRB. lra. }
  assert (HP1 : I * (1 - u) <= I * vs).
  { rewrite !(Qmult_comm I). apply Qmult_le_compat_r; [exact Hlo | lra]. }
  assert (HP2 : I * vs <= I * (1 + u)).
  { rewrite !(Qmult_comm I). apply Qmult_le_compat_r; [exact Hhi | lra]. }
  apply Qabs_Qle_condition in Hzv, Hv.
  set (P := I * vs) in *. clearbody P.
  assert (Hl : inject_Z (i - 1) < inject_Z z).
  { unfold Z.sub. rewrite inject_Z_plus, inject_Z_opp. fold I.
    change (inject_Z 1) with 1. unfold u in *. lra. }
  assert (Hu : inject_Z z < inject_Z (i + 1)).
  { rewrite inject_Z_plus. fold I. change (inject_Z 1) with 1.
    unfold u in *. lra. }
  rewrite <- Zlt_Qlt in Hl, Hu. lia.
Qed.

(** With more frames than cells, and not too many cells, consecutive
    products are more than 1 apart, rounding included. *)
Lemma sample_apart i z z' :
  (b < a)%Z -> (b * (b + 1) < 2 ^ 52)%Z -> (1 <= i < b)%Z ->
  sample (Float x) i = Ok z -> sample (Float x) (i + 1) = Ok z' ->
  (z < z')%Z.
Proof.
  intros Hab Hsmall Hi Hz Hz'.
  destruct (sample_point a b x vs Hb Ha Hx Hstep i)
    as (z1 & v1 & Hz1 & Hzv1 & Hv1); [lia|].
  destruct (sample_point a b x vs Hb Ha Hx Hstep (i + 1))
    as (z2 & v2 & Hz2 & Hzv2 & Hv2); [lia|].
  rewrite Hz in Hz1. inversion Hz1. subst z1. clear Hz1.
  rewrite Hz' in Hz2. inversion Hz2. subst z2. clear Hz2.
  destruct (step_bounds a b vs Hb Ha Hstep) as (H1 & H2 & H3 & H4 & H5 & H6).
  set (A := inject_Z a) in *. set (B := inject_Z b) in *.
  set (I := inject_Z i) in *.
  assert (HAB : B + 1 <= A).
  { unfold A, B. change 1 with (inject_Z 1).
    rewrite <- inject_Z_plus, <- Zle_Qle. lia. }
  assert (HI1 : 1 <= I).
  { unfold I. change 1 with (inject_Z 1). rewrite <- Zle_Qle. lia. }
  assert (HIB : I <= B - 1).
  { unfold I, B. change 1 with (inject_Z 1).
    setoid_replace (inject_Z b - inject_Z 1) with (inject_Z (b - 1))
      by (unfold Z.sub; rewrite inject_Z_plus, inject_Z_opp; reflexivity).
    rewrite <- Zle_Qle. lia. }
  assert (HBB : B * (B + 1) <= 4503599627370495).
  { unfold B. change 1 with (inject_Z 1).
    rewrite <- inject_Z_plus, <- inject_Z_mult.
    change 4503599627370495 with (inject_Z (2 ^ 52 - 1)).
    rewrite <- Zle_Qle. lia. }
  assert (HR : 0 < / B) by (apply Qinv_lt_0_compat; lra).
  assert (HRB : B * / B == 1) by (apply Qmult_inv_r; lra).
  set (R := / B) in *.
  (* the cells are few: [B + 1 <= (2^52 - 1) / B] *)
  assert (HBR : B + 1 <= 4503599627370495 * R).
  { assert (E : B + 1 == (B * (B + 1)) * R).
    { setoid_replace (B * (B + 1) * R) with ((B * R) * (B + 1)) by ring.
      rewrite HRB. ring. }
    rewrite E. apply Qmult_le_compat_r; [exact HBB | lra]. }
  (* the step is at least [(1 + 1/B) (1 - u)] *)
  assert (Hvs : (1 + R) * (1 - u) <= vs).
  { assert (E : vs == vs * B * R).
    { rewrite <- Qmult_assoc, HRB. ring. }
    rewrite E.
    apply Qle_trans with ((B + 1) * (1 - u) * R).
    - setoid_replace ((B + 1) * (1 - u) * R)
        with ((B * R) * (1 - u) + R * (1 - u)) by ring.
      rewrite HRB. unfold u. lra.
    - apply Qmult_le_compat_r; [|lra].
      apply Qle_trans with (A * (1 - u)); [|exact H4].
      apply Qmult_le_compat_r; [exact HAB | unfold u; lra]. }
  assert (Hvs0 : 0 <= vs) by (unfold u in *; lra).
  (* the product before [i + 1] *)
  assert (HP : I * vs <= vs * B - vs).
  { setoid_replace (vs * B - vs) with ((B - 1) * vs) by ring.
    apply Qmult_le_compat_r; assumption. }
  assert (HP3 : inject_Z (i + 1) * vs == I * vs + vs).
  { rewrite inject_Z_plus. fold I. change (inject_Z 1) with 1. ring. }
  rewrite HP3 in Hv2.
  (* [vs (1 + u - 2 u B)] is more than 1 *)
  assert (Hk : 0 <= 1 + u - 2 * u * B).
  { assert (B <= 4503599627370495 * R) by lra.
    assert (HB1 : 1 <= B) by exact H1.
    assert (HR1 : 1 * R <= B * R) by (apply Qmult_le_compat_r; lra).
    rewrite HRB in HR1.
    unfold u. lra. }
  assert (Hprod : (1 + R) * (1 - u) * (1 + u - 2 * u * B)
                  <= vs * (1 + u - 2 * u * B)).
  { apply Qmult_le_compat_r; assumption. }
  assert (E1 : (1 + R) * (1 - u) * (1 + u - 2 * u * B)
               == (1 - u) * (1 + u) - 2 * u * (1 - u) * B
                  + R * (1 - u) * (1 + u) - 2 * u * (1 - u) * (B * R)) by ring.
  rewrite E1, HRB in Hprod.
  assert (E2 : vs * (1 + u - 2 * u * B) == vs * (1 + u) - 2 * u * (vs * B)) by ring.
  rewrite E2 in Hprod.
  apply Qabs_Qle_condition in Hzv1, Hzv2, Hv1, Hv2.
  set (P := I * vs) in *. set (Q := vs * B) in *. clearbody P Q.
  assert (H : inject_Z z < inject_Z z').
  { unfold u in *. lra. }
  rewrite <- Zlt_Qlt in H. exact H.
Qed.

End Spacing.

Local Open Scope Z_scope.

(** Neighbours in order make a list read off a range a chain. *)
Lemma Forall2_seq_chain (R : Z -> Z -> Prop) (S : Z -> Z -> Prop) k :
  forall s l,
  Forall2 R (map Z.of_nat (seq s k)) l ->
  (forall i z z', Z.of_nat s <= i < Z.of_nat s + Z.of_nat k - 1 ->
                  R i z -> R (i + 1) z' -> S z z') ->
  Sorted S l.
Proof.
  induction k as [|k IH]; intros s l HF Hadj; simpl in HF.
  - inversion HF. constructor.
  - inversion HF as [|i z l1 l2 Hz Hrest]; subst.
    constructor.
    + apply (IH (Datatypes.S s)); [exact Hrest|].
      intros i z1 z2 Hi. apply Hadj. lia.
    + destruct k as [|k]; simpl in Hrest.
      * inversion Hrest. constructor.
      * inversion Hrest as [|i' z' ? ? Hz' ?]; subst. constructor.
        apply (Hadj (Z.of_nat s) z z'); [lia | exact Hz |].
        replace (Z.of_nat s + 1) with (Z.of_nat (Datatypes.S s)) by lia.
        exact Hz'.
Qed.

(** The sampling branch of the selection, read backwards. *)
Lemma select_indices_sampled n total l :
  2 <= total -> total <= n ->
  select_indices n total = Ok l ->
  exists x,
    true_div (n - 1) (total - 1) = Ok x /\
    Forall2 (fun i z => sample (Float x) i = Ok z) (range total) l.
Proof.
  intros Ht Hn. unfold select_indices.
  destruct (Z.ltb_spec n total); [lia|].
  destruct (Z.ltb_spec 1 total); [|lia].
  destruct (true_div (n - 1) (total - 1)) as [x|]; [|discriminate].
  cbn [bind]. intros Hl. exists x. split; [reflexivity|].
  apply mapM_Forall2. exact Hl.
Qed.

Lemma range_identity t l :
  Forall2 (fun i z : Z => z = i) (range t) l -> l = range t.
Proof.
  generalize (range t). intros r H.
  induction H as [|i z r l Hz _ IH]; [reflexivity|]. subst. reflexivity.
Qed.

Lemma range_Sorted t : Sorted Z.lt (range t).
Proof.
  unfold range.
  apply (Forall2_seq_chain (fun i z => z = i) Z.lt (Z.to_nat t) 0%nat).
  - generalize (map Z.of_nat (seq 0 (Z.to_nat t))). intros r.
    induction r; constructor; auto.
  - intros i z z' _ -> ->. lia.
Qed.

Lemma Forall2_impl_In {A B} (R S : A -> B -> Prop) l l' :
  (forall a b, In a l -> R a b -> S a b) ->
  Forall2 R l l' -> Forall2 S l l'.
Proof.
  intros H HF. induction HF as [|a b l l' Hab _ IH]; constructor.
  - apply H; [left; reflexivity | exact Hab].
  - apply IH. intros a' b' Ha'. apply H. right. exact Ha'.
Qed.

(** With one cell the only index is 0, otherwise the indices climb. *)
Lemma climbing_indices n total :
  1 <= total -> total <= n -> n <= 2 ^ 51 -> total <= 2 ^ 26 ->
  exists l,
    select_indices n total = Ok l /\ Sorted Z.lt l /\
    Forall (fun i => 0 <= i < n) l /\
    (n = total -> l = range n).
Proof.
  intros Ht Hn Hmax Hcells.
  destruct (Z.eq_dec total 1) as [->|Ht1].
  { exists [0]. split; [|split; [|split]].
    - unfold select_indices. destruct (Z.ltb_spec n 1); [lia|]. reflexivity.
    - repeat constructor.
    - repeat constructor; lia.
    - intros ->. reflexivity. }
  destruct (sampled_indices n total) as (l & Hl & _ & _ & _ & Hin & _);
    [lia | lia | lia |].
  exists l. split; [exact Hl|].
  destruct (select_indices_sampled n total l) as (x & Hdiv & HF);
    [lia | lia | exact Hl |].
  assert (Hp1 : 2 ^ 51 < 2 ^ 1000) by (apply Z.pow_lt_mono_r; lia).
  destruct (true_div_accurate (n - 1) (total - 1)) as (x' & vs & Hdiv' & Hx & Herr);
    [lia | lia |].
  rewrite Hdiv in Hdiv'. inversion Hdiv'. subst x'. clear Hdiv'.
  rewrite pow2_m53 in Herr.
  assert (Hb : 1 <= total - 1 <= n - 1) by lia.
  assert (Ha : n - 1 < 2 ^ 51) by lia.
  assert (Hsame : n = total -> l = range n).
  { intros E. rewrite E. apply range_identity.
    apply (Forall2_impl_In (fun i z => sample (Float x) i = Ok z)); [|exact HF].
    intros i z Hi Hz. apply in_range in Hi.
    apply (sample_identity (n - 1) (total - 1) x vs Hb Ha Hx Herr i z);
      [lia | lia | exact Hz]. }
  split; [|split; [exact Hin | exact Hsame]].
  destruct (Z.eq_dec n total) as [E|E].
  - rewrite (Hsame E). apply range_Sorted.
  - unfold range in HF.
    apply (Forall2_seq_chain _ Z.lt _ _ _ HF).
    intros i z z' Hi Hz Hz'.
    destruct (Z.eq_dec i 0) as [->|Hi0].
    + rewrite (sample_zero x vs Hx) in Hz. inversion Hz. subst z.
      pose proof (sample_one (n - 1) (total - 1) x vs Hb Ha Hx Herr z' Hz').
      lia.
    + apply (sample_apart (n - 1) (total - 1) x vs Hb Ha Hx Herr i z z');
        [lia | | lia | exact Hz | exact Hz'].
      assert (total - 1 < 2 ^ 26) by lia.
      change (2 ^ 52) with (2 ^ 26 * 2 ^ 26). nia.
Qed.

Lemma Sorted_lt_NoDup l : Sorted Z.lt l -> NoDup l.
Proof.
  intros H. apply Sorted_StronglySorted in H; [|intros ? ? ? ? ?; lia].
  induction H as [|a l _ IH Ha]; constructor; [|exact IH].
  intros Hin. rewrite Forall_forall in Ha. specialize (Ha a Hin). lia.
Qed.

(** Distinct places of a list without repetition hold distinct
    elements. *)
Lemma distinct_places {A} (frames : list A) indices selected :
  NoDup frames -> NoDup indices -> Forall (fun i => 0 <= i) indices ->
  Forall2 (fun i a => getitem frames i = Ok a) indices selected ->
  NoDup selected.
Proof.
  intros Hframes Hnd Hpos HF.
  induction HF as [|i a indices selected Hia HF IH]; [constructor|].
  inversion Hnd as [|? ? Hni Hnd']; subst.
  inversion Hpos as [|? ? Hi Hpos']; subst.
  constructor; [|apply IH; assumption].
  intros Hin.
  assert (Hj : exists j, In j indices /\ getitem frames j = Ok a).
  { clear - HF Hin. induction HF as [|j b indices selected Hjb _ IH];
      [contradiction|].
    destruct Hin as [->|Hin].
    - exists j. split; [left; reflexivity | exact Hjb].
    - destruct (IH Hin) as (k & Hk & Hka). exists k. split; [right|]; assumption. }
  destruct Hj as (j & Hj & Hja).
  rewrite Forall_forall in Hpos'. pose proof (Hpos' j Hj) as Hj0.
  apply getitem_inv in Hia; [|exact Hi].
  apply getitem_inv in Hja; [|exact Hj0].
  assert (Hlt : (Z.to_nat i < List.length frames)%nat).
  { apply nth_error_Some. congruence. }
  pose proof (proj1 (NoDup_nth_error frames) Hframes (Z.to_nat i) (Z.to_nat j) Hlt
                (eq_trans Hia (eq_sym Hja))) as E.
  apply Hni. replace i with j by lia. exact Hj.
Qed.

(** X5. With exactly as many frames as the grid has cells, up to
    [2^51], every frame is selected, in order: rounding does not
    disturb a step of 1. *)
Theorem full_grid_selects_all {A} (frames : list A) (c r : Z) :
  0 < c -> 0 < r -> len frames = c * r -> len frames <= 2 ^ 51 ->
  select frames (c * r) = Ok (range (len frames), frames).
Proof.
  intros Hc Hr Hn Hmax.
  destruct (Z.eq_dec (c * r) 1) as [E1|E1].
  { rewrite E1 in *. unfold select, select_indices. rewrite Hn.
    cbn [Z.ltb Z.compare bind mapM range Z.to_nat Pos.to_nat Pos.iter_op seq map].
    destruct frames as [|f [|f' frames]]; try (unfold len in Hn; simpl in Hn; lia).
    reflexivity. }
  assert (Ht : 2 <= c * r) by nia.
  destruct (sampled_indices (len frames) (c * r)) as (l & Hl & _);
    [lia | lia | lia |].
  destruct (select_indices_sampled (len frames) (c * r) l) as (x & Hdiv & HF);
    [lia | lia | exact Hl |].
  assert (Hp1 : 2 ^ 51 < 2 ^ 1000) by (apply Z.pow_lt_mono_r; lia).
  destruct (true_div_accurate (len frames - 1) (c * r - 1))
    as (x' & vs & Hdiv' & Hx & Herr); [lia | lia |].
  rewrite Hdiv in Hdiv'. inversion Hdiv'. subst x'. clear Hdiv'.
  rewrite pow2_m53 in Herr.
  assert (Hb : 1 <= c * r - 1 <= len frames - 1) by lia.
  assert (Ha : len frames - 1 < 2 ^ 51) by lia.
  assert (El : l = range (c * r)).
  { apply range_identity.
    apply (Forall2_impl_In (fun i z => sample (Float x) i = Ok z)); [|exact HF].
    intros i z Hi Hz. apply in_range in Hi.
    apply (sample_identity (len frames - 1) (c * r - 1) x vs Hb Ha Hx Herr i z);
      [lia | lia | exact Hz]. }
  unfold select. rewrite Hl, El, <- Hn. cbn [bind].
  rewrite mapM_getitem_range. reflexivity.
Qed.

Lemma full_grid_selects_all_witness :
  select ["a"; "b"; "c"; "d"; "e"; "f"]%string (3 * 2)
  = Ok ([0; 1; 2; 3; 4; 5], ["a"; "b"; "c"; "d"; "e"; "f"]%string).
Proof.
  apply (full_grid_selects_all ["a"; "b"; "c"; "d"; "e"; "f"]%string 3 2);
    [lia | lia | reflexivity | vm_compute; discriminate].
Defined.

(** X6. With at least as many frames as cells, at most [2^51] frames
    and at most [2^26] cells, the selection succeeds with strictly
    increasing indices: no index comes twice, and when the frames are
    pairwise distinct, as directory entries are, no frame comes twice
    on the sheet. *)
Theorem selection_never_repeats {A} (frames : list A) (c r : Z) :
  0 < c -> 0 < r -> c * r <= len frames ->
  len frames <= 2 ^ 51 -> c * r <= 2 ^ 26 ->
  exists indices selected,
    select frames (c * r) = Ok (indices, selected) /\
    Sorted Z.lt indices /\ NoDup indices /\
    (NoDup frames -> NoDup selected).
Proof.
  intros Hc Hr Hn Hmax Hcells.
  destruct (climbing_indices (len frames) (c * r))
    as (l & Hl & Hsorted & Hin & _); [nia | lia | lia | lia |].
  destruct (mapM_total (getitem frames) l) as [sel Hsel].
  { intros i Hi. rewrite Forall_forall in Hin.
    apply getitem_in_range. apply Hin. exact Hi. }
  exists l, sel. unfold select. rewrite Hl. cbn [bind]. rewrite Hsel. cbn [bind].
  split; [reflexivity|]. split; [exact Hsorted|].
  pose proof (Sorted_lt_NoDup l Hsorted) as Hnd.
  split; [exact Hnd|].
  intros Hframes. apply mapM_Forall2 in Hsel.
  apply (distinct_places frames l sel Hframes Hnd); [|exact Hsel].
  eapply Forall_impl; [|exact Hin]. intros i Hi. cbv beta in Hi. lia.
Qed.

Lemma selection_never_repeats_witness :
  exists indices selected,
    select ["a"; "b"; "c"; "d"; "e"; "f"; "g"]%string (2 * 2)
      = Ok (indices, selected) /\
    NoDup indices /\ NoDup selected.
Proof.
  destruct (selection_never_repeats
              ["a"; "b"; "c"; "d"; "e"; "f"; "g"]%string 2 2)
    as (indices & selected & Hsel & _ & Hnd & Hsel_nd);
    [lia | lia | vm_compute; discriminate | vm_compute; discriminate
     | vm_compute; discriminate |].
  exists indices, selected. split; [exact Hsel|]. split; [exact Hnd|].
  apply Hsel_nd.
  repeat (constructor; [simpl; intuition discriminate|]). constructor.
Defined.

(* ------------------------------------------------------------------ *)
(** * Frames and their cells *)

Local Open Scope Q_scope.

(** [int] of a positive float: the integer part of its value. *)
Lemma int_of_float_floor x v :
  is_float x v ->
  exists z, int_of_float x = Ok z /\ inject_Z z <= v /\ v < inject_Z z + 1.
Proof.
  intros (m & e & -> & _ & Hv). cbn [int_of_float cond_Zopp].
  eexists. split; [reflexivity|]. rewrite <- Hv. unfold F2Q.
  destruct (Z_le_gt_dec 0 e) as [He|He].
  - rewrite Z.shiftl_mul_pow2 by lia.
    rewrite inject_Z_mult, <- pow2_Z by lia. split; lra.
  - rewrite Z.shiftl_div_pow2 by lia.
    assert (Hd : (0 < 2 ^ (- e))%Z) by (apply Z.pow_pos_nonneg; lia).
    pose proof (Z.div_mod (Zpos m) (2 ^ (- e)) ltac:(lia)) as Hdm.
    pose proof (Z.mod_pos_bound (Zpos m) (2 ^ (- e)) Hd) as Hr.
    assert (Hp : inject_Z (2 ^ (- e)) * pow2 e == 1).
    { rewrite <- pow2_Z, <- pow2_add by lia.
      replace (- e + e)%Z with 0%Z by lia. reflexivity. }
    set (d := (2 ^ (- e))%Z) in *. clearbody d.
    set (q := (Zpos m / d)%Z) in *. set (r := (Zpos m mod d)%Z) in *.
    clearbody q r. rewrite Hdm.
    rewrite inject_Z_plus, inject_Z_mult.
    assert (E : (inject_Z d * inject_Z q + inject_Z r) * pow2 e
                == inject_Z q * (inject_Z d * pow2 e) + inject_Z r * pow2 e) by ring.
    rewrite E, Hp.
    pose proof (pow2_pos e) as Hpe.
    assert (H0 : 0 <= inject_Z r * pow2 e).
    { apply Qmult_le_0_compat; [|lra].
      change 0 with (inject_Z 0). rewrite <- Zle_Qle. lia. }
    assert (H1 : inject_Z r * pow2 e < inject_Z d * pow2 e).
    { apply Qmult_lt_compat_r; [exact Hpe|]. rewrite <- Zlt_Qlt. lia. }
    rewrite Hp in H1. split; lra.
Qed.

(** Scaling a width of [w] to a cell width of [c] through the float
    [c / w] gives [c], or one less when the product falls short. *)
Lemma scaled_width c w scale p z :
  (1 <= c <= 2 ^ 50)%Z -> (1 <= w <= 2 ^ 50)%Z ->
  true_div c w = Ok scale ->
  mul_int_float w scale = Ok p -> int_of_float p = Ok z ->
  (c - 1 <= z <= c)%Z.
Proof.
  intros Hc Hw Hdiv Hmul Hint.
  assert (Hp1 : (2 ^ 50 < 2 ^ 1000)%Z) by (apply Z.pow_lt_mono_r; lia).
  assert (Hp2 : (2 ^ 50 < 2 ^ 53)%Z) by (apply Z.pow_lt_mono_r; lia).
  destruct (true_div_accurate c w) as (x' & v & Hdiv' & Hx & Herr);
    [lia | lia |].
  rewrite Hdiv in Hdiv'. inversion Hdiv'. subst x'. clear Hdiv'.
  rewrite pow2_m53 in Herr.
  destruct (float_of_int_exact w) as (fw & Hfw & Hfwv); [lia|].
  set (C := inject_Z c) in *. set (W := inject_Z w) in *.
  assert (HC1 : 1 <= C).
  { unfold C. change 1 with (inject_Z 1). rewrite <- Zle_Qle. lia. }
  assert (HC2 : C <= 1125899906842624).
  { unfold C. change 1125899906842624 with (inject_Z (2 ^ 50)).
    rewrite <- Zle_Qle. lia. }
  apply Qabs_Qle_condition in Herr.
  assert (HT : W * v == v * W) by ring.
  destruct (mul_accurate fw scale W v Hfwv Hx) as (v' & Hv' & Herr').
  - apply Qle_trans with (1 # 2); [discriminate|].
    rewrite HT. unfold u in *. lra.
  - apply Qle_lt_trans with 4503599627370496; [|reflexivity].
    rewrite HT. unfold u in *. lra.
  - unfold mul_int_float in Hmul. rewrite Hfw in Hmul. cbn [bind] in Hmul.
    inversion Hmul. subst p. clear Hmul.
    destruct (int_of_float_floor _ _ Hv') as (z' & Hz' & Hlo & Hhi).
    rewrite Hint in Hz'. inversion Hz'. subst z'. clear Hz'.
    rewrite pow2_m53 in Herr'. apply Qabs_Qle_condition in Herr'.
    rewrite HT in Herr'.
    set (T := v * W) in *. clearbody T.
    assert (Hl : inject_Z (c - 2) < inject_Z z).
    { unfold Z.sub. rewrite inject_Z_plus, inject_Z_opp. fold C.
      change (inject_Z 2) with 2. unfold u in *. lra. }
    assert (Hu : inject_Z z < inject_Z (c + 1)).
    { rewrite inject_Z_plus. fold C. change (inject_Z 1) with 1.
      unfold u in *. lra. }
    rewrite <- Zlt_Qlt in Hl, Hu. lia.
Qed.

Local Open Scope Z_scope.

(** ** What is drawn on the sheet *)

Lemma pastes_of_app l1 l2 :
  pastes_of (l1 ++ l2) = (pastes_of l1 ++ pastes_of l2)%list.
Proof. apply flat_map_app. Qed.

Lemma rects_of_app l1 l2 :
  rects_of (l1 ++ l2) = (rects_of l1 ++ rects_of l2)%list.
Proof. apply flat_map_app. Qed.

Lemma pastes_of_lines {A} (f : A -> draw_op) l :
  (forall a, match f a with Rect _ _ _ _ _ => True | _ => False end) ->
  pastes_of (map f l) = [].
Proof.
  intros H. induction l as [|a l IH]; [reflexivity|]. simpl.
  specialize (H a). destruct (f a); try contradiction. exact IH.
Qed.

Lemma draw_cells_drawn a cols g selected indices f cells :
  draw_cells a cols g selected indices f = Ok cells ->
  pastes_of cells = map (placed cols g) (enumerate (resized g)) /\
  rects_of cells = [].
Proof.
  unfold draw_cells, enumerate.
  destruct (mapM _ (enumerate_from 0 (resized g))) as [ls|] eqn:Hls;
    [|discriminate].
  cbn [bind]. intros H. inversion H. subst cells. clear H.
  apply mapM_Forall2 in Hls.
  induction Hls as [|[idx im] cell ps ls Hcell _ [IH1 IH2]]; [split; reflexivity|].
  cbn [fst snd] in Hcell.
  apply draw_cell_ok in Hcell as (? & ? & ? & _ & _ & _ & _ & ->).
  cbn [List.concat]. rewrite pastes_of_app, rects_of_app, IH1, IH2.
  split; reflexivity.
Qed.

Lemma enumerate_from_nth_inv {A} (l : list A) s i idx x :
  nth_error (enumerate_from s l) i = Some (idx, x) ->
  idx = s + Z.of_nat i /\ nth_error l i = Some x.
Proof.
  revert s i. induction l as [|y l IH]; intros s i H.
  - destruct i; discriminate.
  - destruct i as [|i]; simpl in H.
    + inversion H. subst. split; [lia | reflexivity].
    + apply IH in H as [-> H]. split; [lia | exact H].
Qed.

Lemma enumerate_from_length {A} (l : list A) s :
  List.length (enumerate_from s l) = List.length l.
Proof.
  revert s. induction l as [|y l IH]; intros s; simpl; [reflexivity|].
  rewrite IH. reflexivity.
Qed.

(** The sheet of a successful run with Pillow: its frames and its
    lines. *)
Lemma run_layout a w status :
  w_pil w = true -> outcome a w = Ok status ->
  exists cols rows indices selected images g s,
    parse_grid (grid a) = Ok (cols, rows) /\
    select (discover (w_listing w)) (cols * rows) = Ok (indices, selected) /\
    Forall2 (decoded w) selected images /\
    cell_geometry a cols rows images = Ok g /\
    saved (trace a w) = [s] /\
    sheet_w s = geo_sheet_w g /\ sheet_h s = geo_sheet_h g /\
    pastes s = map (placed cols g) (enumerate (resized g)) /\
    rects s =
      (map (fun col => (line_x g col, 0, line_x g col + grid_line_width - 1,
                        geo_sheet_h g)) (range (cols + 1)) ++
       map (fun row => (0, line_y g row, geo_sheet_w g,
                        line_y g row + grid_line_width - 1))
           (range (rows + 1)))%list /\
    exists cells lines,
      ops s = (cells ++ lines)%list /\
      rects_of cells = [] /\ pastes_of lines = [].
Proof.
  intros Hpil Hok.
  destruct (run_ok_pillow a w status Hpil Hok)
    as (cols & rows & indices & selected & images & g & f & color & cells
        & Hp & Hsel & Himages & Hg & Hcolor & Hcells & Hsaved).
  destruct (draw_cells_drawn _ _ _ _ _ _ _ Hcells) as [Hpc Hrc].
  exists cols, rows, indices, selected, images, g.
  eexists. split; [exact Hp|]. split; [exact Hsel|]. split; [exact Himages|].
  split; [exact Hg|]. split; [exact Hsaved|].
  split; [reflexivity|]. split; [reflexivity|].
  unfold pastes, rects. cbn [ops].
  assert (Hlines : pastes_of (vertical_lines cols g color
                              ++ horizontal_lines rows g color) = []).
  { rewrite pastes_of_app. unfold vertical_lines, horizontal_lines.
    rewrite !pastes_of_lines by (intros; exact I). reflexivity. }
  rewrite pastes_of_app, Hlines, !rects_of_app, Hpc, Hrc.
  rewrite !app_nil_r. split; [reflexivity|].
  split; [|exists cells; eexists; split; [reflexivity|]; split; assumption].
  unfold vertical_lines, horizontal_lines. cbn [app].
  f_equal.
  - generalize (range (cols + 1)). intros l.
    induction l as [|c l IH]; [reflexivity|]. simpl. rewrite IH. reflexivity.
  - generalize (range (rows + 1)). intros l.
    induction l as [|c l IH]; [reflexivity|]. simpl. rewrite IH. reflexivity.
Qed.

(** ** The size of the resized frames *)

Lemma cell_geometry_resized a cols rows images g :
  cell_geometry a cols rows images = Ok g ->
  Forall2 (fun im rim =>
             exists scale p z,
               true_div (cell_w g) (width im) = Ok scale /\
               mul_int_float (width im) scale = Ok p /\
               int_of_float p = Ok z /\
               width rim = Z.max 1 z)
          images (resized g).
Proof.
  unfold cell_geometry.
  destruct (py_max (map width images)) as [widest|] eqn:Hw; [|discriminate].
  cbn [bind].
  destruct (mapM _ images) as [scales|] eqn:Hs; [|discriminate]. cbn [bind].
  destruct (mapM _ (combine images scales)) as [rs|] eqn:Hr; [|discriminate].
  cbn [bind].
  destruct (py_max (map height rs)) as [ch|] eqn:Hh; [|discriminate].
  cbn [bind]. intros H. inversion H. subst g. clear H. cbn [cell_w resized].
  apply mapM_Forall2 in Hs, Hr.
  clear Hw Hh. revert rs Hr.
  induction Hs as [|im sc images scales Hsc _ IH]; intros rs Hr; simpl in Hr.
  - inversion Hr. constructor.
  - inversion Hr as [|? rim ? rs' Hrim Hrest]; subst. constructor.
    + cbn [fst snd] in Hrim. unfold resize_to in Hrim.
      destruct (mul_int_float (width im) sc) as [p|] eqn:Hp; [|discriminate].
      cbn [bind] in Hrim.
      destruct (int_of_float p) as [z|] eqn:Hz; [|discriminate].
      cbn [bind] in Hrim.
      destruct (mul_int_float (height im) sc) as [ph|]; [|discriminate].
      cbn [bind] in Hrim.
      destruct (int_of_float ph) as [zh|]; [|discriminate].
      cbn [bind] in Hrim. inversion Hrim. cbn [width].
      exists sc, p, z. auto.
    + apply IH. exact Hrest.
Qed.

Lemma Forall2_in_r {A B} (R : A -> B -> Prop) l l' b :
  Forall2 R l l' -> In b l' -> exists a, In a l /\ R a b.
Proof.
  intros H. induction H as [|x y l l' Hxy _ IH]; intros Hb; [contradiction|].
  destruct Hb as [->|Hb].
  - exists x. split; [left; reflexivity | exact Hxy].
  - destruct (IH Hb) as (a & Ha & Hab). exists a. split; [right|]; assumption.
Qed.

(** For frames between 1 and [2^50] pixels wide and a positive
    [--max-width], every resized frame is as wide as the cell or one
    pixel narrower, and at most as high. *)
Lemma fitted_frames a cols rows images g :
  1 <= max_width a ->
  Forall (fun im => 1 <= width im <= 2 ^ 50) images ->
  cell_geometry a cols rows images = Ok g ->
  1 <= cell_w g /\ 1 <= cell_h g /\ 
  List.length (resized g) = List.length images /\
  Forall (fun rim => cell_w g - 1 <= width rim <= cell_w g /\
                     1 <= width rim /\
                     1 <= height rim <= cell_h g) (resized g).
Proof.
  intros Hmax Himages Hg.
  pose proof (cell_geometry_resized _ _ _ _ _ Hg) as Hres.
  destruct (cell_geometry_ok _ _ _ _ _ Hg)
    as (widest & Hw & Hcw & Hsrc & Hch & _).
  apply py_max_spec in Hw as [Hwin _].
  apply py_max_spec in Hch as [Hchin Hchall].
  assert (Hwidest : 1 <= widest <= 2 ^ 50).
  { apply in_map_iff in Hwin as (im & <- & Him).
    rewrite Forall_forall in Himages. apply Himages. exact Him. }
  assert (Hcell : 1 <= cell_w g <= 2 ^ 50) by (rewrite Hcw; lia).
  assert (Hheights : Forall (fun rim => 1 <= height rim <= cell_h g) (resized g)).
  { rewrite Forall_map in Hchall.
    assert (H1 : Forall (fun rim => 1 <= height rim) (resized g)).
    { clear - Hsrc. induction Hsrc as [|? ? ? ? (_ & _ & H) _ IH];
        constructor; assumption. }
    rewrite Forall_forall in *. intros rim Hrim.
    split; [apply H1 | apply Hchall]; assumption. }
  split; [lia|]. split.
  { apply in_map_iff in Hchin as (rim & <- & Hrim).
    rewrite Forall_forall in Hheights. apply Hheights. exact Hrim. }
  split; [symmetry; exact (Forall2_length Hres)|].
  rewrite Forall_forall in *. intros rim Hrim.
  destruct (Forall2_in_r _ _ _ _ Hres Hrim)
    as (im & Him & sc & p & z & Hsc & Hp & Hz & Hwr).
  pose proof (scaled_width _ _ _ _ _ Hcell (Himages im Him) Hsc Hp Hz).
  split; [lia|]. split; [lia|]. apply Hheights. exact Hrim.
Qed.

(** ** Every frame in its cell *)

Lemma decoded_widths (w : World) (P : Z -> Prop) selected images :
  (forall name wd ht, w_decode w name = Some (wd, ht) -> P wd) ->
  Forall2 (decoded w) selected images ->
  Forall (fun im => P (width im)) images.
Proof.
  intros Hw H. induction H as [|name im ? ? (wd & ht & Hd & ->) _ IH];
    constructor; [|exact IH].
  cbn [width]. exact (Hw name wd ht Hd).
Qed.

(** The frames of a successful run with Pillow, for frames between 1
    and [2^50] pixels wide and a positive [--max-width]. *)
Lemma run_frames_fit a w status :
  w_pil w = true -> outcome a w = Ok status ->
  1 <= max_width a ->
  (forall name wd ht, w_decode w name = Some (wd, ht) -> 1 <= wd <= 2 ^ 50) ->
  exists cols rows indices selected g s,
    parse_grid (grid a) = Ok (cols, rows) /\
    select (discover (w_listing w)) (cols * rows) = Ok (indices, selected) /\
    saved (trace a w) = [s] /\
    0 < cols /\ 0 < rows /\
    sheet_w s = cols * cell_w g + (cols + 1) * grid_line_width /\
    sheet_h s = rows * (cell_h g + label_height g)
                + (rows + 1) * grid_line_width /\
    label_height g = label_size a + 8 /\
    1 <= cell_w g /\ 1 <= cell_h g /\
    List.length (pastes s) = List.length selected /\
    rects s =
      (map (fun col => (line_x g col, 0, line_x g col + grid_line_width - 1,
                        sheet_h s)) (range (cols + 1)) ++
       map (fun row => (0, line_y g row, sheet_w s,
                        line_y g row + grid_line_width - 1))
           (range (rows + 1)))%list /\
    forall i im x y,
      nth_error (pastes s) i = Some (im, x, y) ->
      0 <= Z.of_nat i mod cols < cols /\
      0 <= Z.of_nat i / cols < rows /\
      cell_w g - 1 <= width im <= cell_w g /\
      1 <= height im <= cell_h g /\
      x = cell_x g (Z.of_nat i mod cols) /\
      cell_y g (Z.of_nat i / cols) <= y /\
      y + height im <= cell_y g (Z.of_nat i / cols) + cell_h g.
Proof.
  intros Hpil Hok Hmax Hdec.
  destruct (run_layout a w status Hpil Hok)
    as (cols & rows & indices & selected & images & g & s
        & Hp & Hsel & Himages & Hg & Hsaved & Hsw & Hsh & Hpastes & Hrects & _).
  pose proof (decoded_widths w (fun wd => 1 <= wd <= 2 ^ 50) _ _ Hdec Himages)
    as Hwidths.
  destruct (fitted_frames _ _ _ _ _ Hmax Hwidths Hg)
    as (Hcw & Hch & Hlen & Hfit).
  destruct (cell_geometry_ok _ _ _ _ _ Hg)
    as (_ & _ & _ & _ & _ & Hlh & Hgw & Hgh).
  pose proof (proj1 (parse_grid_ok _ _ _) Hp) as (_ & _ & _ & _ & _ & Hcols & Hrows).
  assert (Htotal : 0 < cols * rows) by nia.
  destruct (select_ok _ _ _ _ Htotal Hsel) as (Hsize & _ & _).
  assert (Hn : List.length (pastes s) = List.length selected).
  { rewrite Hpastes, length_map. unfold enumerate.
    rewrite enumerate_from_length, Hlen.
    symmetry. exact (Forall2_length Himages). }
  exists cols, rows, indices, selected, g, s.
  split; [exact Hp|]. split; [exact Hsel|]. split; [exact Hsaved|].
  split; [exact Hcols|]. split; [exact Hrows|].
  split; [rewrite Hsw; exact Hgw|]. split; [rewrite Hsh; exact Hgh|].
  split; [exact Hlh|]. split; [exact Hcw|]. split; [exact Hch|].
  split; [exact Hn|].
  split; [rewrite Hrects, Hsw, Hsh; reflexivity|].
  intros i im x y Hi.
  assert (Hilt : (i < List.length selected)%nat).
  { rewrite <- Hn. apply nth_error_Some. congruence. }
  rewrite Hpastes, nth_error_map in Hi.
  destruct (nth_error (enumerate (resized g)) i) as [[idx im']|] eqn:He;
    [|discriminate].
  cbn [option_map placed] in Hi. inversion Hi. subst im'. clear Hi.
  apply enumerate_from_nth_inv in He as [-> He]. rewrite Z.add_0_l in *.
  rewrite Forall_forall in Hfit.
  destruct (Hfit im (nth_error_In _ _ He)) as (Hw & _ & Hh).
  unfold len in Hsize.
  assert (Hi : 0 <= Z.of_nat i < cols * rows) by lia.
  split; [apply Z.mod_pos_bound; exact Hcols|].
  split.
  { split; [apply Z.div_pos; lia|].
    apply Z.div_lt_upper_bound; [exact Hcols | lia]. }
  split; [exact Hw|]. split; [exact Hh|].
  assert (Hoff : (cell_w g - width im) / 2 = 0).
  { apply Z.div_small. lia. }
  split; [lia|].
  assert (Hv : 0 <= (cell_h g - height im) / 2 <= cell_h g - height im).
  { split; [apply Z.div_pos; lia|].
    apply Z.div_le_upper_bound; lia. }
  split; lia.
Qed.


(** X8. Under the same conditions and with a label size of at least
    -8, the frames on the sheet keep clear of each other and of the
    grid: every pixel under a frame is a pixel of the sheet, no pixel
    is under two frames, and no pixel under a frame is under a
    separator line. *)
Theorem frames_keep_clear (a : Args) (w : World) (status : Z) :
  w_pil w = true -> outcome a w = Ok status ->
  1 <= max_width a -> -8 <= label_size a ->
  (forall name wd ht, w_decode w name = Some (wd, ht) -> 1 <= wd <= 2 ^ 50) ->
  exists s,
    saved (trace a w) = [s] /\
    (forall p px py,
       In p (pastes s) -> paste_covers p px py ->
       0 <= px < sheet_w s /\ 0 <= py < sheet_h s) /\
    (forall i j p q px py,
       nth_error (pastes s) i = Some p -> nth_error (pastes s) j = Some q ->
       paste_covers p px py -> paste_covers q px py -> i = j) /\
    (forall p r px py,
       In p (pastes s) -> In r (rects s) ->
       paste_covers p px py -> ~ rect_covers r px py).
Proof.
  intros Hpil Hok Hmax Hlabel Hdec.
  destruct (run_frames_fit a w status Hpil Hok Hmax Hdec)
    as (cols & rows & indices & selected & g & s & Hp & Hsel & Hsaved
        & Hcols & Hrows & Hsw & Hsh & Hlh & Hcw & Hch & Hn & Hrects & Hfit).
  exists s. split; [exact Hsaved|].
  assert (Hlh0 : 0 <= label_height g) by lia.
  (* the cell of a covered pixel *)
  assert (Hpix : forall i p px py,
            nth_error (pastes s) i = Some p -> paste_covers p px py ->
            let col := Z.of_nat i mod cols in
            let row := Z.of_nat i / cols in
            0 <= col < cols /\ 0 <= row < rows /\
            col * (cell_w g + 1) + 1 <= px < (col + 1) * (cell_w g + 1) /\
            row * (cell_h g + label_height g + 1) + 1 <= py
              < row * (cell_h g + label_height g + 1) + 1 + cell_h g).
  { intros i [[im x] y] px py Hi [Hx Hy].
    destruct (Hfit i im x y Hi) as (Hc & Hr & Hw & Hh & -> & Hy1 & Hy2).
    unfold cell_x, cell_y, line_x, line_y, grid_line_width in *.
    cbv zeta. split; [exact Hc|]. split; [exact Hr|]. split; nia. }
  split; [|split].
  - intros p px py Hin Hcov.
    apply In_nth_error in Hin as [i Hi].
    destruct (Hpix i p px py Hi Hcov) as (Hc & Hr & Hx & Hy).
    rewrite Hsw, Hsh. unfold grid_line_width. split; nia.
  - intros i j p q px py Hi Hj Hp' Hq'.
    destruct (Hpix i p px py Hi Hp') as (Hc & Hr & Hx & Hy).
    destruct (Hpix j q px py Hj Hq') as (Hc' & Hr' & Hx' & Hy').
    assert (Ecol : Z.of_nat i mod cols = Z.of_nat j mod cols) by nia.
    assert (Erow : Z.of_nat i / cols = Z.of_nat j / cols) by nia.
    pose proof (Z.div_mod (Z.of_nat i) cols ltac:(lia)).
    pose proof (Z.div_mod (Z.of_nat j) cols ltac:(lia)).
    apply Nat2Z.inj. congruence.
  - intros p r px py Hin Hr Hcov Hrc.
    apply In_nth_error in Hin as [i Hi].
    destruct (Hpix i p px py Hi Hcov) as (Hc & Hrow & Hx & Hy).
    set (col := Z.of_nat i mod cols) in *.
    set (row := Z.of_nat i / cols) in *.
    clearbody col row.
    rewrite Hrects in Hr. apply in_app_or in Hr as [Hr|Hr];
      apply in_map_iff in Hr as (k & <- & Hk); apply in_range in Hk;
      destruct Hrc as [Hrx Hry];
      unfold line_x, line_y, grid_line_width in *.
    + assert (Epx : px = k * (cell_w g + 1)) by lia.
      clear - Epx Hx Hcw.
      destruct (Z_le_gt_dec k col); nia.
    + assert (Epy : py = k * (cell_h g + label_height g + 1)) by lia.
      clear - Epy Hy Hch Hlh0.
      destruct (Z_le_gt_dec k row); nia.
Qed.


Lemma frames_keep_clear_witness :
  exists s,
    saved (trace (Demo.args "2x2" (Some 2) None) (Demo.world true Demo.listing))
      = [s] /\
    forall i j p q px py,
      nth_error (pastes s) i = Some p -> nth_error (pastes s) j = Some q ->
      paste_covers p px py -> paste_covers q px py -> i = j.
Proof.
  destruct (frames_keep_clear (Demo.args "2x2" (Some 2) None)
              (Demo.world true Demo.listing) 0)
    as (s & Hsaved & _ & Hapart & _).
  - reflexivity.
  - vm_compute. reflexivity.
  - vm_compute. discriminate.
  - vm_compute. discriminate.
  - intros name wd ht H. vm_compute in H. inversion H. subst.
    split; [lia | vm_compute; discriminate].
  - exists s. split; [exact Hsaved | exact Hapart].
Defined.

(* ------------------------------------------------------------------ *)
(** * Without Pillow *)

Local Open Scope string_scope.

(** The options that shape the sheet drawn by Pillow play no part in
    the hand-over to ImageMagick. *)
Lemma fallback_same a a' cols rows selected :
  image_dir a = image_dir a' -> scene_name a = scene_name a' ->
  output a = output a' -> max_width a = max_width a' ->
  fallback a cols rows selected = fallback a' cols rows selected.
Proof.
  intros Hd Hs Ho Hm. unfold fallback, output_filename.
  rewrite Hd, Hs, Ho, Hm. reflexivity.
Qed.

(** X9. Without Pillow the options [--fps], [--grid-color] and
    [--label-size] have no effect at all: two command lines that agree
    on everything else give the same result, the same interactions and
    the same final state.  In particular a grid colour that
    [hex_to_rgb] rejects goes unnoticed. *)
Theorem fallback_ignores_decoration (a a' : Args) (w : World) :
  w_pil w = false ->
  image_dir a = image_dir a' -> scene_name a = scene_name a' ->
  output a = output a' -> grid a = grid a' ->
  max_width a = max_width a' ->
  run a w = run a' w.
Proof.
  intros Hpil Hd Hs Ho Hg Hm. unfold run.
  destruct (parse_grid (grid a)) as [[cols rows]|e] eqn:Hp.
  - rewrite (main_parsed a w [] cols rows Hp).
    rewrite Hg in Hp. rewrite (main_parsed a' w [] cols rows Hp).
    rewrite Hpil, Hd.
    destruct (w_is_dir w); [|reflexivity].
    unfold render. rewrite Hd.
    destruct (discover (w_listing w)); [reflexivity|].
    unfold bindM, lift.
    destruct (select _ _) as [sel|]; [|reflexivity].
    rewrite (fallback_same a a' cols rows (snd sel) Hd Hs Ho Hm).
    reflexivity.
  - rewrite (main_rejected a w [] e Hp).
    rewrite Hg in Hp. rewrite (main_rejected a' w [] e Hp). reflexivity.
Qed.

Lemma fallback_ignores_decoration_witness :
  run {| image_dir := "media/images/foo"; scene_name := Some "Foo";
         output := None; grid := "2x2"; max_width := 320; fps := Some 2;
         grid_color := "not a colour"; label_size := 12 |}
      {| w_is_dir := true; w_listing := Demo.listing; w_pil := false;
         w_decode := fun _ => None;
         w_which := fun p => if String.eqb p "montage"
                             then Some "/usr/bin/montage" else None;
         w_run := fun _ => true;
         w_font := fun _ _ => Raise OSError; w_save := fun _ => Ok tt;
         w_leftover := fun _ => Untouched;
         w_resolve := fun p => "/home/user/" ++ p |}
  = run (Demo.args "2x2" None None)
      {| w_is_dir := true; w_listing := Demo.listing; w_pil := false;
         w_decode := fun _ => None;
         w_which := fun p => if String.eqb p "montage"
                             then Some "/usr/bin/montage" else None;
         w_run := fun _ => true;
         w_font := fun _ _ => Raise OSError; w_save := fun _ => Ok tt;
         w_leftover := fun _ => Untouched;
         w_resolve := fun p => "/home/user/" ++ p |}.
Proof.
  apply fallback_ignores_decoration; reflexivity.
Defined.

(** The hand-over, step by step. *)
Lemma fallback_run a cols rows selected w t :
  let lookups := [Which "magick"; Which "montage"] in
  let warning := Stderr
    "Warning: Pillow not available, using ImageMagick fallback (no gridlines or labels)." in
  let out := join (image_dir a) (output_filename a) in
  let tail := ["-tile"; str_of_Z cols ++ "x" ++ str_of_Z rows;
               "-geometry";
               str_of_Z (max_width a) ++ "x" ++ str_of_Z (max_width a) ++ "+0+0";
               out] in
  let go prog :=
    let cmd := (prog ++ map (join (image_dir a)) selected ++ tail)%list in
    if w_run w cmd
    then (Ok 0, snd (fst (created (output_filename a) w [])),
          (t ++ lookups ++ [warning; Run cmd;
                            Stdout ("Wrote contact sheet: "
                                    ++ w_resolve w out)])%list)
    else (Raise CalledProcessError,
          snd (fst (left_behind (image_dir a) (output_filename a) w [])),
          (t ++ lookups ++ [warning; Run cmd])%list) in
  fallback a cols rows selected w t =
  match truthy_str (w_which w "magick"), truthy_str (w_which w "montage") with
  | Some m, _ => go [m; "montage"]
  | None, Some m => go [m]
  | None, None =>
      (Raise (SystemExit
         "Pillow not installed and ImageMagick not found (magick/montage)."),
       w, (t ++ lookups)%list)
  end.
Proof.
  cbv zeta.
  unfold fallback, which, run_montage, report, log, ask, ret, raise, bindM.
  cbv beta iota.
  destruct (truthy_str (w_which w "magick")) as [m|];
    [|destruct (truthy_str (w_which w "montage")) as [m|]];
    cbv beta iota; rewrite <- ?app_assoc; cbn [app];
    try reflexivity;
    match goal with |- context [w_run w ?c] => destruct (w_run w c) end;
    [rewrite created_log | rewrite left_behind_log
    |rewrite created_log | rewrite left_behind_log];
    cbv beta iota; rewrite <- ?app_assoc; reflexivity.
Qed.

(** X10. The hand-over to ImageMagick (lines 117 to 134) looks up
    [magick] and [montage], both and in this order.  With neither it
    raises [SystemExit] with its message and runs nothing.  Otherwise
    it warns on standard error and runs one command: [magick montage]
    when [magick] was found, whatever [montage] is, and [montage]
    alone otherwise; the command continues with the path
    [image_dir / name] of each selected frame, in order, and ends with
    the tile [COLSxROWS], the geometry [WxW+0+0] for the maximal width
    [W] and the output path [image_dir / output_filename].  A command
    that fails raises [CalledProcessError] as the last interaction,
    with nothing reported on standard output; the script cleans
    nothing up, the machine is as the failed command left it.  A
    command that succeeds has created the output file and is followed
    by one line on standard output, with the absolute output path, and
    the result 0. *)
Theorem fallback_prefers_magick (a : Args) (cols rows : Z)
    (selected : list string) (w : World) (t : list event) :
  let lookups := [Which "magick"; Which "montage"] in
  let warning := Stderr
    "Warning: Pillow not available, using ImageMagick fallback (no gridlines or labels)." in
  let result := fst (fst (fallback a cols rows selected w t)) in
  let after := snd (fst (fallback a cols rows selected w t)) in
  let log := snd (fallback a cols rows selected w t) in
  let tile := str_of_Z cols ++ "x" ++ str_of_Z rows in
  let geometry :=
    str_of_Z (max_width a) ++ "x" ++ str_of_Z (max_width a) ++ "+0+0" in
  let out := join (image_dir a) (output_filename a) in
  (truthy_str (w_which w "magick") = None ->
   truthy_str (w_which w "montage") = None ->
   result = Raise (SystemExit
     "Pillow not installed and ImageMagick not found (magick/montage).") /\
   after = w /\ log = (t ++ lookups)%list) /\
  (forall m prog,
     (truthy_str (w_which w "magick") = Some m /\ prog = [m; "montage"]) \/
     (truthy_str (w_which w "magick") = None /\
      truthy_str (w_which w "montage") = Some m /\ prog = [m]) ->
     let cmd := (prog ++ map (join (image_dir a)) selected
                 ++ ["-tile"; tile; "-geometry"; geometry; out])%list in
     (w_run w cmd = false ->
      result = Raise CalledProcessError /\
      log = (t ++ lookups ++ [warning; Run cmd])%list /\
      left_behind (image_dir a) (output_filename a) w [] = (Ok tt, after, [])) /\
     (w_run w cmd = true ->
      result = Ok 0 /\
      log = (t ++ lookups
               ++ [warning; Run cmd;
                   Stdout ("Wrote contact sheet: " ++ w_resolve w out)])%list /\
      created (output_filename a) w [] = (Ok tt, after, []))).
Proof.
  cbv zeta. rewrite fallback_run. cbv zeta. split.
  - intros -> ->. repeat split; reflexivity.
  - intros m prog Hprog.
    assert (E :
      match truthy_str (w_which w "magick"),
            truthy_str (w_which w "montage") with
      | Some m', _ => [m'; "montage"]
      | None, Some m' => [m']
      | None, None => []
      end = prog /\
      (truthy_str (w_which w "magick") <> None \/
       truthy_str (w_which w "montage") <> None)).
    { destruct Hprog as [[-> ->]|(-> & -> & ->)]; split; try reflexivity;
        [left | right]; discriminate. }
    destruct E as [E Hsome].
    destruct (truthy_str (w_which w "magick")) as [m1|];
      [|destruct (truthy_str (w_which w "montage")) as [m2|]];
      try (exfalso; destruct Hsome as [H|H]; apply H; reflexivity);
      subst prog;
      (split; intros Hrun; rewrite Hrun; cbn [fst snd];
       (split; [reflexivity|]); (split; [reflexivity|]);
       [apply left_behind_world | reflexivity]).
Qed.

Lemma fallback_prefers_magick_witness :
  fst (fst (fallback (Demo.args "2x2" None None) 2 2 ["a.png"; "b.png"]
              (Demo.no_pillow false) []))
  = Raise CalledProcessError /\
  snd (fallback (Demo.args "2x2" None None) 2 2 ["a.png"; "b.png"]
         (Demo.no_pillow false) [])
  = [Which "magick"; Which "montage";
     Stderr "Warning: Pillow not available, using ImageMagick fallback (no gridlines or labels).";
     Run ["/opt/bin/magick"; "montage";
          "media/images/foo/a.png"; "media/images/foo/b.png";
          "-tile"; "2x2"; "-geometry"; "320x320+0+0";
          "media/images/foo/Foo_sheet.png"]].
Proof.
  destruct (fallback_prefers_magick (Demo.args "2x2" None None) 2 2
              ["a.png"; "b.png"] (Demo.no_pillow false) []) as [_ H].
  destruct (H "/opt/bin/magick" ["/opt/bin/magick"; "montage"]) as [Hfail _].
  - left. split; reflexivity.
  - destruct Hfail as (Hr & Hl & _); [reflexivity|].
    split; [exact Hr | exact Hl].
Defined.

Local Open Scope Z_scope.

(* ------------------------------------------------------------------ *)
(** * Colours and lines of the sheet *)

Lemma draw_cells_colours a cols g selected indices f cells :
  draw_cells a cols g selected indices f = Ok cells ->
  Forall (fun op => match op with
                    | Rect _ _ _ _ _ => False
                    | Text _ _ _ _ fill => fill = (255, 255, 255)
                    | Paste _ _ _ => True
                    end) cells.
Proof.
  unfold draw_cells.
  destruct (mapM _ (enumerate (resized g))) as [ls|] eqn:Hls; [|discriminate].
  cbn [bind]. intros H. inversion H. subst cells. clear H.
  apply mapM_Forall2 in Hls.
  induction Hls as [|[idx im] cell ps ls Hcell _ IH]; [constructor|].
  cbn [fst snd] in Hcell.
  apply draw_cell_ok in Hcell as (? & ? & ? & _ & _ & _ & _ & ->).
  cbn [List.concat app]. constructor; [exact I|]. constructor; [reflexivity|].
  exact IH.
Qed.

(** X11. A run with Pillow succeeds only if [hex_to_rgb] accepts the
    grid colour, and then every rectangle drawn on the sheet is filled
    with exactly that colour, every label is white and the background
    is the dark grey (16, 16, 16). *)
Theorem sheet_colours (a : Args) (w : World) (status : Z) :
  w_pil w = true -> outcome a w = Ok status ->
  exists color s,
    hex_to_rgb (grid_color a) = Ok color /\
    saved (trace a w) = [s] /\
    background s = (16, 16, 16) /\
    forall op, In op (ops s) ->
      match op with
      | Rect _ _ _ _ fill => fill = color
      | Text _ _ _ _ fill => fill = (255, 255, 255)
      | Paste _ _ _ => True
      end.
Proof.
  intros Hpil Hok.
  destruct (run_ok_pillow a w status Hpil Hok)
    as (cols & rows & indices & selected & images & g & f & color & cells
        & _ & _ & _ & _ & Hcolor & Hcells & Hsaved).
  exists color. eexists. split; [exact Hcolor|]. split; [exact Hsaved|].
  split; [reflexivity|]. cbn [ops]. intros op Hop.
  apply in_app_or in Hop as [Hop|Hop].
  - pose proof (draw_cells_colours _ _ _ _ _ _ _ Hcells) as Hall.
    rewrite Forall_forall in Hall. specialize (Hall op Hop).
    destruct op; [exact I | exact Hall | contradiction].
  - apply in_app_or in Hop as [Hop|Hop];
      apply in_map_iff in Hop as (k & <- & _); reflexivity.
Qed.

Lemma sheet_colours_witness :
  exists s,
    saved (trace (Demo.args "2x2" (Some 2) None) (Demo.world true Demo.listing))
      = [s] /\
    forall x0 y0 x1 y1 fill,
      In (Rect x0 y0 x1 y1 fill) (ops s) -> fill = (128, 128, 128).
Proof.
  destruct (sheet_colours (Demo.args "2x2" (Some 2) None)
              (Demo.world true Demo.listing) 0)
    as (color & s & Hcolor & Hsaved & _ & Hops).
  - reflexivity.
  - vm_compute. reflexivity.
  - vm_compute in Hcolor. inversion Hcolor. subst color.
    exists s. split; [exact Hsaved|].
    intros x0 y0 x1 y1 fill Hin. exact (Hops _ Hin).
Defined.

Lemma rects_of_none l :
  rects_of l = [] -> Forall (fun op => is_rect op = false) l.
Proof.
  induction l as [|op l IH]; intros H; [constructor|].
  destruct op; cbn in H; try discriminate;
    (constructor; [reflexivity | apply IH; exact H]).
Qed.

(** X12. On the sheet of a successful run with Pillow the drawing ends
    with [cols + 1] vertical separator lines followed by [rows + 1]
    horizontal ones, all in the grid colour, and these are the only
    rectangles: everything drawn before them is a frame or a label, so
    the lines are drawn after all frames and labels.  The vertical
    line number [col] is the pixel column [col * (cell_width + 1)],
    from the top of the sheet to one past its bottom; the horizontal
    line number [row] is the pixel row [row * (row_height + 1)], from the
    left of the sheet to one past its right; the widths and heights of
    the cells and lines add up to the size of the sheet, so the
    outermost lines lie on the first and the last pixel column and row
    of the sheet. *)
Theorem lines_frame_the_sheet (a : Args) (w : World) (status : Z) :
  w_pil w = true -> outcome a w = Ok status ->
  exists cols rows s cells vertical horizontal color cell_width row_height,
    parse_grid (grid a) = Ok (cols, rows) /\
    saved (trace a w) = [s] /\
    hex_to_rgb (grid_color a) = Ok color /\
    ops s = (cells ++ vertical ++ horizontal)%list /\
    Forall (fun op => is_rect op = false) cells /\
    sheet_w s = cols * cell_width + (cols + 1) /\
    sheet_h s = rows * row_height + (rows + 1) /\
    vertical =
      map (fun col => Rect (col * (cell_width + 1)) 0
                           (col * (cell_width + 1)) (sheet_h s) color)
          (range (cols + 1)) /\
    horizontal =
      map (fun row => Rect 0 (row * (row_height + 1))
                           (sheet_w s) (row * (row_height + 1)) color)
          (range (rows + 1)) /\
    len vertical = cols + 1 /\
    len horizontal = rows + 1 /\
    In (Rect 0 0 0 (sheet_h s) color) vertical /\
    In (Rect (sheet_w s - 1) 0 (sheet_w s - 1) (sheet_h s) color) vertical /\
    In (Rect 0 0 (sheet_w s) 0 color) horizontal /\
    In (Rect 0 (sheet_h s - 1) (sheet_w s) (sheet_h s - 1) color) horizontal.
Proof.
  intros Hpil Hok.
  destruct (run_ok_pillow a w status Hpil Hok)
    as (cols & rows & indices & selected & images & g & f & color & cells
        & Hp & Hsel & Himages & Hg & Hcolor & Hcells & Hsaved).
  destruct (draw_cells_drawn _ _ _ _ _ _ _ Hcells) as [_ Hrc].
  destruct (cell_geometry_ok _ _ _ _ _ Hg)
    as (_ & _ & _ & _ & _ & _ & Hgw & Hgh).
  pose proof (proj1 (parse_grid_ok _ _ _) Hp) as (_ & _ & _ & _ & _ & Hcols & Hrows).
  unfold grid_line_width in Hgw, Hgh.
  exists cols, rows. eexists.
  exists cells, (vertical_lines cols g color), (horizontal_lines rows g color),
         color, (cell_w g), (cell_h g + label_height g).
  split; [exact Hp|]. split; [exact Hsaved|]. split; [exact Hcolor|].
  cbn [ops sheet_w sheet_h].
  split; [reflexivity|]. split; [apply rects_of_none; exact Hrc|].
  split; [lia|]. split; [lia|].
  assert (Hv : vertical_lines cols g color =
               map (fun col => Rect (col * (cell_w g + 1)) 0
                                    (col * (cell_w g + 1)) (geo_sheet_h g) color)
                   (range (cols + 1))).
  { unfold vertical_lines, grid_line_width. apply map_ext. intros col.
    f_equal; lia. }
  assert (Hh : horizontal_lines rows g color =
               map (fun row => Rect 0 (row * (cell_h g + label_height g + 1))
                                    (geo_sheet_w g)
                                    (row * (cell_h g + label_height g + 1)) color)
                   (range (rows + 1))).
  { unfold horizontal_lines, grid_line_width. apply map_ext. intros row.
    f_equal; lia. }
  split; [exact Hv|]. split; [exact Hh|].
  rewrite Hv, Hh. unfold len. rewrite !length_map, !length_range.
  split; [lia|]. split; [lia|].
  split; [|split; [|split]]; apply in_map_iff.
  - exists 0. split; [f_equal; lia | apply in_range; lia].
  - exists cols. split; [f_equal; lia | apply in_range; lia].
  - exists 0. split; [f_equal; lia | apply in_range; lia].
  - exists rows. split; [f_equal; lia | apply in_range; lia].
Qed.

Lemma lines_frame_the_sheet_witness :
  exists s cells vertical horizontal,
    saved (trace (Demo.args "2x2" (Some 2) None) (Demo.world true Demo.listing))
      = [s] /\
    ops s = (cells ++ vertical ++ horizontal)%list /\
    Forall (fun op => is_rect op = false) cells /\
    len vertical = 3 /\ len horizontal = 3 /\
    In (Rect (sheet_w s - 1) 0 (sheet_w s - 1) (sheet_h s) (128, 128, 128))
       vertical.
Proof.
  destruct (lines_frame_the_sheet (Demo.args "2x2" (Some 2) None)
              (Demo.world true Demo.listing) 0)
    as (cols & rows & s & cells & vertical & horizontal & color & cw & rh
        & Hp & Hsaved & Hcolor & Hops & Hcells & _ & _ & _ & _ & Hnv & Hnh
        & _ & Hlast & _).
  - reflexivity.
  - vm_compute. reflexivity.
  - vm_compute in Hp. inversion Hp. subst cols rows.
    vm_compute in Hcolor. inversion Hcolor. subst color.
    exists s, cells, vertical, horizontal.
    split; [exact Hsaved|]. split; [exact Hops|]. split; [exact Hcells|].
    split; [exact Hnv|]. split; [exact Hnh | exact Hlast].
Defined.

(* ------------------------------------------------------------------ *)
(** * Numbers written and read back *)

Local Open Scope string_scope.

Lemma parse_digits_uint_acc d : forall acc,
  parse_digits 10 (NilEmpty.string_of_uint d) (Zpos acc) true
  = Some (Zpos (Pos.of_uint_acc d acc)).
Proof.
  induction d; intros acc; cbn [NilEmpty.string_of_uint Pos.of_uint_acc];
    try reflexivity;
    cbn [parse_digits]; 
    match goal with
    | |- context [Ascii.eqb ?c "_"] => change (Ascii.eqb c "_") with false
    end; cbv iota;
    match goal with
    | |- context [digit_val 10 ?c] =>
        let v := eval vm_compute in (digit_val 10 c) in
        change (digit_val 10 c) with v
    end; cbv iota;
    rewrite <- IHd; f_equal; lia.
Qed.

Lemma parse_digits_uint d : forall prev,
  d <> Decimal.Nil \/ prev = true ->
  parse_digits 10 (NilEmpty.string_of_uint d) 0 prev
  = Some (Z.of_N (Pos.of_uint d)).
Proof.
  induction d; intros prev Hd;
    cbn [NilEmpty.string_of_uint Pos.of_uint];
    try (cbn [parse_digits];
         match goal with
         | |- context [Ascii.eqb ?c "_"] => change (Ascii.eqb c "_") with false
         end; cbv iota;
         match goal with
         | |- context [digit_val 10 ?c] =>
             let v := eval vm_compute in (digit_val 10 c) in
             change (digit_val 10 c) with v
         end; cbv iota).
  - destruct Hd as [Hd| ->]; [contradiction Hd; reflexivity | reflexivity].
  - apply IHd. right. reflexivity.
  - exact (parse_digits_uint_acc d 1).
  - exact (parse_digits_uint_acc d 2).
  - exact (parse_digits_uint_acc d 3).
  - exact (parse_digits_uint_acc d 4).
  - exact (parse_digits_uint_acc d 5).
  - exact (parse_digits_uint_acc d 6).
  - exact (parse_digits_uint_acc d 7).
  - exact (parse_digits_uint_acc d 8).
  - exact (parse_digits_uint_acc d 9).
Qed.

(** The digits [str] writes for a natural number are a numeral of that
    value. *)
Lemma str_of_N_numeral n :
  numeral (str_of_N n) /\ numeral_value (str_of_N n) = Z.of_N n.
Proof.
  assert (H : parse_digits 10 (str_of_N n) 0 false = Some (Z.of_N n)).
  { unfold str_of_N, NilZero.string_of_uint.
    assert (Hnil : N.to_uint n <> Decimal.Nil).
    { destruct n; [discriminate | apply DecimalPos.Unsigned.to_uint_nonnil]. }
    assert (E : match N.to_uint n with
                | Decimal.Nil => "0"
                | _ => NilEmpty.string_of_uint (N.to_uint n)
                end = NilEmpty.string_of_uint (N.to_uint n)).
    { destruct (N.to_uint n); try reflexivity. contradiction Hnil. reflexivity. }
    rewrite E, parse_digits_uint by (left; exact Hnil).
    change (Pos.of_uint (N.to_uint n)) with (N.of_uint (N.to_uint n)).
    rewrite DecimalN.Unsigned.of_to. reflexivity. }
  apply parse_digits_numeral in H as [Hn Hv]. split; [exact Hn | congruence].
Qed.

(** [int(str(z))] is [z]. *)
Lemma py_int_str z : py_int 10 (str_of_Z z) = Ok z.
Proof.
  apply py_int_literal. unfold integer_literal, str_of_Z.
  destruct (Z.ltb_spec z 0) as [Hz|Hz].
  - destruct (str_of_N_numeral (Z.to_N (- z))) as [Hn Hv].
    exists EmptyString, (str_of_N (Z.to_N (- z))), EmptyString.
    split; [apply blank_empty|]. split; [apply blank_empty|].
    split; [exact Hn|]. right. rewrite append_empty_r, Hv.
    split; [reflexivity | lia].
  - destruct (str_of_N_numeral (Z.to_N z)) as [Hn Hv].
    exists EmptyString, (str_of_N (Z.to_N z)), EmptyString.
    split; [apply blank_empty|]. split; [apply blank_empty|].
    split; [exact Hn|]. left. rewrite append_empty_r, Hv.
    split; [left; reflexivity | lia].
Qed.

Lemma integer_literal_str z : integer_literal (str_of_Z z) z.
Proof. apply py_int_literal. apply py_int_str. Qed.

(** X17. The tile that the hand-over to ImageMagick writes for a grid,
    [COLSxROWS] with both numbers in decimal (line 131), is a grid
    string that [parse_grid] reads back as the same grid. *)
Theorem tile_reads_back_as_grid (cols rows : Z) :
  0 < cols -> 0 < rows ->
  parse_grid (str_of_Z cols ++ "x" ++ str_of_Z rows) = Ok (cols, rows).
Proof.
  intros Hc Hr. apply parse_grid_reads.
  exists (str_of_Z cols), "x"%char, (str_of_Z rows).
  split; [reflexivity|]. split; [left; reflexivity|].
  split; [apply integer_literal_str|]. split; [apply integer_literal_str|].
  split; assumption.
Qed.

Lemma tile_reads_back_as_grid_witness :
  parse_grid (str_of_Z 12 ++ "x" ++ str_of_Z 3) = Ok (12, 3) /\
  str_of_Z 12 ++ "x" ++ str_of_Z 3 = "12x3".
Proof.
  split; [apply tile_reads_back_as_grid; lia | reflexivity].
Defined.

(** X18. [manim] and the contact-sheet script are given the same
    frame directory stem, scene name and frame rate: the frame rate is
    the same decimal string in both commands and, read as [int] reads
    it, as the [--fps] option of the contact-sheet script is, it is
    the frame rate of the command line. *)
Theorem frame_rate_is_handed_on (script : string) (a : Refresh.Args) :
  exists rate,
    nth_error (Refresh.manim_command a) 3 = Some rate /\
    nth_error (Refresh.sheet_command script a) 6 = Some rate /\
    nth_error (Refresh.sheet_command script a) 5 = Some "--fps" /\
    py_int 10 rate = Ok (Refresh.fps a) /\
    nth_error (Refresh.manim_command a) 7 = Some (Refresh.scene_name a) /\
    nth_error (Refresh.sheet_command script a) 4 = Some (Refresh.scene_name a) /\
    nth_error (Refresh.sheet_command script a) 2
      = Some (PyPath.to_string (Refresh.image_dir a)).
Proof.
  exists (str_of_Z (Refresh.fps a)).
  repeat split; try reflexivity. apply py_int_str.
Qed.

Local Open Scope Z_scope.

(* ------------------------------------------------------------------ *)
(** * The font of the labels *)

Local Open Scope string_scope.

(** The font [load_font] settles on. *)
Lemma load_font_choice size w t f w' t' :
  load_font size w t = (Ok f, w', t') ->
  let helvetica := "/System/Library/Fonts/Helvetica.ttc" in
  let liberation :=
    "/usr/share/fonts/truetype/liberation/LiberationSans-Regular.ttf" in
  match w_font w helvetica size with
  | Ok _ => f = TrueType helvetica size
  | Raise e =>
      e = OSError /\
      match w_font w liberation size with
      | Ok _ => f = TrueType liberation size
      | Raise e' => e' = OSError /\ f = DefaultFont
      end
  end.
Proof.
  cbv zeta. unfold load_font, try_truetype, log, ask, ret, raise, bindM.
  cbv beta iota.
  destruct (w_font w "/System/Library/Fonts/Helvetica.ttc" size) as [u|[]];
    cbv beta iota; intros H; inversion H; try reflexivity.
  split; [reflexivity|].
  destruct (w_font w _ size) as [u|[]]; cbv beta iota in *;
    inversion H; auto.
Qed.

(** The font and the cells of the sheet that [compose] saves. *)
Lemma compose_font a cols rows selected indices w t status w' t' :
  compose a cols rows selected indices w t = (Ok status, w', t') ->
  exists g f color cells t0 t1,
    load_font (label_size a) w t0 = (Ok f, w, t1) /\
    draw_cells a cols g selected indices f = Ok cells /\
    saved t' =
      (saved t ++
       [{| sheet_w := geo_sheet_w g;
           sheet_h := geo_sheet_h g;
           background := (16, 16, 16)%Z;
           ops := cells ++ vertical_lines cols g color
                  ++ horizontal_lines rows g color |}])%list.
Proof.
  unfold compose. intros H.
  apply bindM_ok in H as (images & w1 & t1 & H1 & H).
  apply quiet_inv in H1 as (-> & e1 & -> & He1);
    [|apply quiet_mapMM; intros; apply quiet_open_image].
  apply bindM_ok in H as (g & w2 & t2 & H2 & H).
  apply lift_ok in H2 as (Hg & -> & ->).
  apply bindM_ok in H as (x & w3 & t3 & H3 & H).
  apply quiet_inv in H3 as (-> & e3 & -> & He3).
  2:{ destruct ((geo_sheet_w g <? 0)%Z || (geo_sheet_h g <? 0)%Z); quiet_step. }
  apply bindM_ok in H as (f & w4 & t4 & H4 & H).
  pose proof H4 as Hfont.
  apply quiet_inv in H4 as (-> & e4 & -> & He4); [|apply quiet_load_font].
  apply bindM_ok in H as (color & w5 & t5 & H5 & H).
  apply lift_ok in H5 as (Hcolor & -> & ->).
  apply bindM_ok in H as (cells & w6 & t6 & H6 & H).
  apply lift_ok in H6 as (Hcells & -> & ->).
  exists g, f, color, cells. eexists. eexists.
  split; [exact Hfont|]. split; [exact Hcells|].
  unfold save, report, log, ask, raise, ret, bindM in H. cbv beta iota in H.
  destruct (w_save w (join (image_dir a) (output_filename a))) as [[]|e].
  2:{ rewrite left_behind_log in H. discriminate. }
  rewrite created_log in H. cbv beta iota in H. inversion H. subst. clear H.
  rewrite !saved_app, (saved_quiet e1), (saved_quiet e3), (saved_quiet e4)
    by assumption.
  rewrite !app_nil_r. reflexivity.
Qed.

Lemma draw_cells_font a cols g selected indices f cells :
  draw_cells a cols g selected indices f = Ok cells ->
  forall x y text f' fill, In (Text x y text f' fill) cells -> f' = f.
Proof.
  unfold draw_cells.
  destruct (mapM _ (enumerate (resized g))) as [ls|] eqn:Hls; [|discriminate].
  cbn [bind]. intros H. inversion H. subst cells. clear H.
  apply mapM_Forall2 in Hls.
  induction Hls as [|[idx im] cell ps ls Hcell _ IH]; [contradiction|].
  cbn [fst snd] in Hcell.
  apply draw_cell_ok in Hcell as (fi & fname & label & _ & _ & _ & _ & ->).
  intros x y text f' fill Hin. cbn [List.concat app] in Hin.
  destruct Hin as [Hin|[Hin|Hin]]; [discriminate | | eauto].
  inversion Hin. reflexivity.
Qed.

(** X19. On a successful run with Pillow all labels are drawn with one
    font, at the label size: Helvetica from its macOS path when that
    loads, else Liberation Sans from its Linux path when that loads,
    else Pillow's default font.  A font that fails to load fails with
    [OSError], which the script absorbs: any other failure would have
    ended the run. *)
Theorem labels_share_one_font (a : Args) (w : World) (status : Z) :
  w_pil w = true -> outcome a w = Ok status ->
  let helvetica := "/System/Library/Fonts/Helvetica.ttc" in
  let liberation :=
    "/usr/share/fonts/truetype/liberation/LiberationSans-Regular.ttf" in
  exists f s,
    saved (trace a w) = [s] /\
    (forall x y text f' fill, In (Text x y text f' fill) (ops s) -> f' = f) /\
    match w_font w helvetica (label_size a) with
    | Ok _ => f = TrueType helvetica (label_size a)
    | Raise e =>
        e = OSError /\
        match w_font w liberation (label_size a) with
        | Ok _ => f = TrueType liberation (label_size a)
        | Raise e' => e' = OSError /\ f = DefaultFont
        end
    end.
Proof.
  intros Hpil. cbv zeta. unfold outcome, trace, run.
  destruct (parse_grid (grid a)) as [[cols rows]|e] eqn:Hp.
  2:{ rewrite (main_rejected a w [] e Hp). discriminate. }
  rewrite (main_parsed a w [] cols rows Hp).
  destruct (w_is_dir w); [|discriminate].
  rewrite Hpil. unfold render.
  destruct (discover (w_listing w)) as [|frame frames] eqn:Hframes; [discriminate|].
  set (t0 := ([] ++ [IsDir (path_str (image_dir a)); ImportPIL;
                     Glob (path_str (image_dir a)) "*.png"])%list).
  destruct (bindM _ _ w t0) as [[r w'] t'] eqn:Hrun. cbn [fst snd].
  intros ->.
  apply bindM_ok in Hrun as ([indices selected] & w1 & t1 & H1 & H).
  apply lift_ok in H1 as (Hsel & -> & ->). cbn [fst snd] in H.
  apply compose_font in H as (g & f & color & cells & t2 & t3 & Hfont & Hcells & Hsaved).
  exists f. eexists. split; [rewrite Hsaved; reflexivity|].
  split.
  - cbn [ops]. intros x y text f' fill Hin.
    apply in_app_or in Hin as [Hin|Hin].
    + exact (draw_cells_font _ _ _ _ _ _ _ Hcells _ _ _ _ _ Hin).
    + apply in_app_or in Hin as [Hin|Hin];
        apply in_map_iff in Hin as (k & Hk & _); discriminate.
  - exact (load_font_choice _ _ _ _ _ _ Hfont).
Qed.

Lemma labels_share_one_font_witness :
  exists s,
    saved (trace (Demo.args "2x2" (Some 2) None) (Demo.world true Demo.listing))
      = [s] /\
    forall x y text f' fill,
      In (Text x y text f' fill) (ops s) -> f' = DefaultFont.
Proof.
  destruct (labels_share_one_font (Demo.args "2x2" (Some 2) None)
              (Demo.world true Demo.listing) 0)
    as (f & s & Hsaved & Hall & Hf).
  - reflexivity.
  - vm_compute. reflexivity.
  - cbn in Hf. destruct Hf as (_ & _ & ->).
    exists s. split; [exact Hsaved | exact Hall].
Defined.

Local Open Scope Z_scope.

(* ------------------------------------------------------------------ *)
(** * The frame directory of [refresh_frames.py] *)

Local Open Scope string_scope.

Lemma split_pieces sep s :
  forall piece, In piece (split sep s) ->
  forall c, In c (list_ascii_of_string piece) -> c <> sep.
Proof.
  induction s as [|a s IH]; intros piece Hin c Hc; simpl in Hin.
  - destruct Hin as [<-|[]]. contradiction.
  - destruct (Ascii.eqb_spec a sep) as [->|Hne].
    + destruct Hin as [<-|Hin]; [contradiction | exact (IH piece Hin c Hc)].
    + destruct (split sep s) as [|w ws] eqn:E.
      * destruct Hin as [<-|[]]. destruct Hc as [<-|[]]. exact Hne.
      * destruct Hin as [<-|Hin].
        -- destruct Hc as [<-|Hc]; [exact Hne|].
           apply (IH w); [left; reflexivity | exact Hc].
        -- apply (IH piece); [right; exact Hin | exact Hc].
Qed.

Lemma substring_chars n : forall m s c,
  In c (list_ascii_of_string (substring n m s)) ->
  In c (list_ascii_of_string s).
Proof.
  induction n as [|n IH]; intros m s c H.
  - revert s H. induction m as [|m IHm]; intros s H.
    + destruct s; contradiction.
    + destruct s as [|a s]; [contradiction|]. simpl in H.
      destruct H as [<-|H]; [left; reflexivity | right; exact (IHm s H)].
  - destruct s as [|a s]; [destruct m; contradiction|].
    simpl in H. right. exact (IH m s c H).
Qed.

(** The stem of a path is a piece of one component. *)
Lemma stem_plain s c :
  In c (list_ascii_of_string (PyPath.stem (PyPath.of_string s))) ->
  c <> "/"%char.
Proof.
  assert (Hname : forall c,
            In c (list_ascii_of_string (PyPath.name (PyPath.of_string s))) ->
            c <> "/"%char).
  { intros c' Hc'. unfold PyPath.name, PyPath.of_string in Hc'.
    destruct (PyPath.splitroot s) as [r rel]. cbn [PyPath.tail] in Hc'.
    destruct (PyPath.parts rel) as [|p ps] eqn:E; [contradiction|].
    assert (Hin : In (last (p :: ps) EmptyString) (PyPath.parts rel)).
    { rewrite E.
      destruct (exists_last (l := p :: ps) ltac:(discriminate)) as (l' & z & E').
      rewrite E', last_last. apply in_or_app. right. left. reflexivity. }
    unfold PyPath.parts in Hin. apply filter_In in Hin as [Hin _].
    exact (split_pieces "/" rel _ Hin c' Hc'). }
  unfold PyPath.stem.
  destruct (PyPath.rfind "." _) as [i|]; [|apply Hname].
  destruct ((0 <? i)%nat && (i <? _)%nat); [|apply Hname].
  intros H. apply Hname. exact (substring_chars _ _ _ _ H).
Qed.

(** X20. The only directory whose entries the script removes and
    counts is [media/images] itself or a single component below it,
    relative to the working directory: the stem of the scene file's
    name, which holds no separator.  The stem is dropped when it is
    empty or a single dot. *)
Theorem frame_directory_is_under_media (a : Refresh.Args) :
  let stem := PyPath.stem (PyPath.of_string (Refresh.file_path a)) in
  (forall c, In c (list_ascii_of_string stem) -> c <> "/"%char) /\
  PyPath.root (Refresh.image_dir a) = EmptyString /\
  ((stem = EmptyString \/ stem = ".") ->
   PyPath.tail (Refresh.image_dir a) = ["media"; "images"] /\
   PyPath.to_string (Refresh.image_dir a) = "media/images") /\
  (stem <> EmptyString -> stem <> "." ->
   PyPath.tail (Refresh.image_dir a) = ["media"; "images"; stem] /\
   PyPath.to_string (Refresh.image_dir a) = "media/images/" ++ stem).
Proof.
  cbv zeta. pose proof (stem_plain (Refresh.file_path a)) as Hplain.
  split; [exact Hplain|].
  unfold Refresh.image_dir.
  set (st := PyPath.stem (PyPath.of_string (Refresh.file_path a))) in *.
  clearbody st.
  change (PyPath.joinpath (PyPath.of_string "media") "images")
    with {| PyPath.root := EmptyString; PyPath.tail := ["media"; "images"] |}.
  destruct st as [|c st].
  { split; [reflexivity|]. split; [intros _; split; reflexivity|].
    intros H _. exfalso. apply H. reflexivity. }
  cbn [PyPath.joinpath].
  destruct (Ascii.eqb_spec c "/") as [->|Hc].
  { exfalso. apply (Hplain "/"%char); [left|]; reflexivity. }
  cbn [PyPath.root PyPath.tail].
  unfold PyPath.parts. rewrite (split_no_separator "/" (String c st) Hplain).
  cbn [filter]. change (String.eqb (String c st) EmptyString) with false.
  cbn [negb andb].
  destruct (String.eqb_spec (String c st) ".") as [E|E].
  - rewrite E. split; [reflexivity|]. split; [intros _; split; reflexivity|].
    intros _ H. exfalso. apply H. reflexivity.
  - cbn [negb]. split; [reflexivity|]. split.
    + intros [H|H]; [discriminate | contradiction].
    + intros _ _. split; reflexivity.
Qed.

Lemma frame_directory_is_under_media_witness :
  PyPath.to_string (Refresh.image_dir (RefreshDemo.args true))
  = "media/images/foo".
Proof.
  destruct (frame_directory_is_under_media (RefreshDemo.args true))
    as (_ & _ & _ & H).
  destruct H as [_ H]; [discriminate | discriminate | exact H].
Defined.

Local Open Scope Z_scope.


(* ------------------------------------------------------------------ *)
(** * [refresh_frames.py] *)

Import PyPath Refresh.
Local Open Scope string_scope.

Section RefreshRuns.
Context {W : Type} (host : Host W).

(** ** Logs *)

Lemma unlinked_app t1 t2 : unlinked (t1 ++ t2) = (unlinked t1 ++ unlinked t2)%list.
Proof. apply flat_map_app. Qed.

Lemma spawned_app t1 t2 : spawned (t1 ++ t2) = (spawned t1 ++ spawned t2)%list.
Proof. apply flat_map_app. Qed.

Lemma printed_app t1 t2 : printed (t1 ++ t2) = (printed t1 ++ printed t2)%list.
Proof. apply flat_map_app. Qed.

Lemma unlinked_unlinks l : unlinked (map Unlink l) = l.
Proof. induction l as [|p l IH]; [reflexivity|]. simpl. rewrite IH. reflexivity. Qed.

Lemma spawned_unlinks l : spawned (map Unlink l) = [].
Proof. induction l as [|p l IH]; [reflexivity|]. exact IH. Qed.

Lemma printed_unlinks l : printed (map Unlink l) = [].
Proof. induction l as [|p l IH]; [reflexivity|]. exact IH. Qed.

(** ** The removal loop *)

(** The loop removes the files in the order of the list and stops at
    the first removal that fails. *)
Lemma remove_all_run dir names : forall w t,
  exists k r w',
    remove_all host dir names w t =
      (r, w', (t ++ map Unlink (map (fun n => to_string (joinpath dir n))
                                    (firstn k names)))%list) /\
    (k <= List.length names)%nat /\
    (forall u, r = Ok u -> k = List.length names).
Proof.
  induction names as [|n names IH]; intros w t.
  - exists 0%nat, (Ok tt), w. cbn. rewrite app_nil_r. auto.
  - cbn [remove_all]. unfold bindM at 1. unfold remove, bindM, log.
    destruct (unlink host w (to_string (joinpath dir n))) as [w1|e].
    + destruct (IH w1 (t ++ [Unlink (to_string (joinpath dir n))])%list)
        as (k & r & w' & Hrun & Hk & Hr).
      exists (S k), r, w'. rewrite Hrun. cbn [firstn map List.length].
      rewrite <- app_assoc. split; [reflexivity|]. split; [lia|].
      intros u Hu. rewrite (Hr u Hu). reflexivity.
    + exists 1%nat, (Raise e), w. cbn [firstn map List.length].
      split; [reflexivity|]. split; [lia | discriminate].
Qed.

(** What the loop does to the machine does not depend on the log. *)
Lemma remove_all_world dir names : forall w t t',
  fst (remove_all host dir names w t) = fst (remove_all host dir names w t').
Proof.
  induction names as [|n names IH]; intros w t t'; [reflexivity|].
  cbn [remove_all]. unfold remove, log, bindM. cbv beta iota.
  destruct (unlink host w (to_string (joinpath dir n))) as [w1|e];
    [apply IH | reflexivity].
Qed.

Lemma delete_world a w t :
  snd (fst (delete_old_frames host a w t)) = swept host a w.
Proof.
  unfold swept, delete_old_frames, path_exists, glob_png, log, ask, ret, bindM.
  cbv beta iota.
  destruct (exists_ host w (to_string (image_dir a))); [|reflexivity].
  f_equal. apply remove_all_world.
Qed.

(** ** The report *)

(** The report reads and prints; it changes nothing and cannot
    fail. *)
Lemma report_events a elapsed w t :
  report host a elapsed w t =
  (Ok tt, w,
   (t ++ Exists (to_string (image_dir a))
      :: (if exists_ host w (to_string (image_dir a))
          then [Glob (to_string (image_dir a)) "*.png"] else [])
      ++ Stdout ("Rendered "
                 ++ str_of_Z (Z.of_nat (List.length (frames host a w)))
                 ++ " frames in " ++ format_1f elapsed ++ "s at "
                 ++ str_of_Z (fps a) ++ " FPS")
      :: match frames host a w with
         | [] => []
         | first_frame :: _ =>
             [Resolve (to_string (image_dir a));
              Stdout ("Frame images: "
                      ++ resolve host w (to_string (image_dir a)) ++ "/"
                      ++ first_frame ++ " to "
                      ++ last (frames host a w) EmptyString)]
         end)%list).
Proof.
  unfold report, frames, path_exists, glob_png, print, log, ask, ret, bindM.
  cbv beta iota.
  destruct (exists_ host w (to_string (image_dir a))); cbv beta iota.
  - destruct (sorted _) as [|f fs]; cbv beta iota;
      rewrite <- ?app_assoc; reflexivity.
  - rewrite <- ?app_assoc. reflexivity.
Qed.


(** ** The stages of a run *)

Lemma delete_run a w t :
  let dir := to_string (image_dir a) in
  exists k r w1,
    delete_old_frames host a w t =
      (r, w1,
       (t ++ Exists dir
          :: (if exists_ host w dir
              then Glob dir "*.png" :: map Unlink (firstn k (stale host a w))
              else []))%list) /\
    (exists_ host w dir = false -> r = Ok tt /\ w1 = w) /\
    (forall u, r = Ok u -> exists_ host w dir = true ->
               firstn k (stale host a w) = stale host a w).
Proof.
  cbv zeta. unfold delete_old_frames, path_exists, glob_png, log, ask, ret.
  unfold bindM at 1 2. cbv beta iota.
  destruct (exists_ host w (to_string (image_dir a))) eqn:Hdir.
  - unfold bindM at 1 2. cbv beta iota.
    destruct (remove_all_run (image_dir a)
                (filter (fun n => endswith n ".png")
                        (listdir host w (to_string (image_dir a))))
                w ((t ++ [Exists (to_string (image_dir a))])
                   ++ [Glob (to_string (image_dir a)) "*.png"])%list)
      as (k & r & w1 & Hrun & Hk & Hr).
    exists k, r, w1. rewrite Hrun. unfold stale. rewrite firstn_map.
    rewrite <- !app_assoc. split; [reflexivity|].
    split; [discriminate|].
    intros u Hu _. rewrite (Hr u Hu), firstn_all. reflexivity.
  - exists 0%nat, (Ok tt), w. split; [reflexivity|].
    split; [auto | discriminate].
Qed.

Lemma render_run a w t :
  let t2 := (t ++ [Stdout ("Rendering " ++ scene_name a ++ " from "
                           ++ to_string (of_string (file_path a))
                           ++ " at " ++ str_of_Z (fps a) ++ " FPS...");
                   Clock; Spawn (manim_command a)])%list in
  render_frames host a w t =
  match spawn host w (manim_command a) with
  | (Raise e, w2) => (Raise e, w2, t2)
  | (Ok status, w2) =>
      if (status =? 0)%Z
      then (Ok (Some (float_sub (clock host w2) (clock host w))), w2,
            (t2 ++ [Clock])%list)
      else (Ok None, w2,
            (t2 ++ [Stderr ("Error: Manim rendering failed with exit code "
                            ++ str_of_Z status)])%list)
  end.
Proof.
  cbv zeta.
  unfold render_frames, print, print_err, now, run_command, log, ask, ret, bindM.
  cbv beta iota.
  destruct (spawn host w (manim_command a)) as [[status|e] w2];
    [|rewrite <- !app_assoc; reflexivity].
  destruct (status =? 0)%Z; cbn [negb]; cbv beta iota;
    rewrite <- !app_assoc; reflexivity.
Qed.

Lemma make_sheet_run script a w t :
  make_sheet host script a w t =
  if contact_sheet a then
    let t' := (t ++ [Spawn (sheet_command script a)])%list in
    match spawn host w (sheet_command script a) with
    | (Raise e, w3) => (Raise e, w3, t')
    | (Ok status, w3) =>
        if (status =? 0)%Z then (Ok 0%Z, w3, t')
        else (Ok 1%Z, w3,
              (t' ++ [Stderr
                 ("Error: Contact sheet generation failed with exit code "
                  ++ str_of_Z status)])%list)
    end
  else (Ok 0%Z, w, t).
Proof.
  unfold make_sheet, run_command, print_err, log, ret, bindM.
  destruct (contact_sheet a); [|reflexivity].
  destruct (spawn host w (sheet_command script a)) as [[status|e] w3];
    [|reflexivity].
  destruct (status =? 0)%Z; reflexivity.
Qed.

Lemma main_missing script a w t :
  exists_ host w (to_string (of_string (file_path a))) = false ->
  main host script a w t =
  (Ok 1%Z, w,
   (t ++ [Exists (to_string (of_string (file_path a)));
          Stderr ("Error: File not found: "
                  ++ to_string (of_string (file_path a)))])%list).
Proof.
  intros H. unfold main, path_exists, print_err, log, ask, ret, bindM.
  rewrite H. cbn [negb]. rewrite <- app_assoc. reflexivity.
Qed.

Lemma main_present script a w t :
  exists_ host w (to_string (of_string (file_path a))) = true ->
  main host script a w t =
  bindM (delete_old_frames host a)
    (fun _ =>
       bindM (render_frames host a)
         (fun rendered =>
            match rendered with
            | None => ret 1%Z
            | Some elapsed =>
                bindM (report host a elapsed)
                      (fun _ => make_sheet host script a)
            end))
    w (t ++ [Exists (to_string (of_string (file_path a)))])%list.
Proof.
  intros H. unfold main, path_exists, log, ask.
  unfold bindM at 1 2. rewrite H. reflexivity.
Qed.


Lemma report_run a elapsed w t :
  report host a elapsed w t =
  (Ok tt, w, (t ++ report_log host a elapsed w)%list).
Proof.
  unfold report_log. rewrite !report_events. reflexivity.
Qed.

Lemma report_log_quiet a elapsed w :
  unlinked (report_log host a elapsed w) = [] /\
  spawned (report_log host a elapsed w) = [] /\
  printed (report_log host a elapsed w) =
    ("Rendered " ++ str_of_Z (Z.of_nat (List.length (frames host a w)))
       ++ " frames in " ++ format_1f elapsed ++ "s at "
       ++ str_of_Z (fps a) ++ " FPS")
    :: match frames host a w with
       | [] => []
       | first_frame :: _ =>
           ["Frame images: "
              ++ resolve host w (to_string (image_dir a)) ++ "/"
              ++ first_frame ++ " to " ++ last (frames host a w) EmptyString]
       end.
Proof.
  unfold report_log. rewrite report_events. cbn [snd app].
  destruct (exists_ host w (to_string (image_dir a)));
    destruct (frames host a w); repeat split; reflexivity.
Qed.

(** A run that finds the scene file, stage by stage. *)
Lemma run_shape script a w :
  exists_ host w (to_string (of_string (file_path a))) = true ->
  let file := to_string (of_string (file_path a)) in
  let dir := to_string (image_dir a) in
  exists k r1 w1,
    w1 = swept host a w /\
    (exists_ host w dir = false -> r1 = Ok tt /\ w1 = w) /\
    (forall u, r1 = Ok u -> exists_ host w dir = true ->
               firstn k (stale host a w) = stale host a w) /\
    let t1 := ([Exists file; Exists dir]
               ++ (if exists_ host w dir
                   then Glob dir "*.png"
                        :: map Unlink (firstn k (stale host a w))
                   else []))%list in
    match r1 with
    | Raise e => run host script a w = (Raise e, w1, t1)
    | Ok _ =>
        let t2 := (t1 ++ [Stdout ("Rendering " ++ scene_name a ++ " from "
                                  ++ file ++ " at " ++ str_of_Z (fps a)
                                  ++ " FPS...");
                          Clock; Spawn (manim_command a)])%list in
        match spawn host w1 (manim_command a) with
        | (Raise e, w2) => run host script a w = (Raise e, w2, t2)
        | (Ok status, w2) =>
            if (status =? 0)%Z
            then run host script a w =
                 make_sheet host script a w2
                   (t2 ++ Clock
                       :: report_log host a
                            (float_sub (clock host w2) (clock host w1)) w2)%list
            else run host script a w =
                 (Ok 1%Z, w2,
                  (t2 ++ [Stderr
                     ("Error: Manim rendering failed with exit code "
                      ++ str_of_Z status)])%list)
        end
    end.
Proof.
  intros Hfile. cbv zeta. unfold run.
  destruct (delete_run a w [Exists (to_string (of_string (file_path a)))])
    as (k & r1 & w1 & Hdel & Hnone & Hall).
  exists k, r1, w1.
  split.
  { rewrite <- (delete_world a w [Exists (to_string (of_string (file_path a)))]),
      Hdel. reflexivity. }
  split; [exact Hnone|]. split; [exact Hall|].
  assert (Hmain : main host script a w [] =
    match r1 with
    | Raise e =>
        (Raise e, w1,
         ([Exists (to_string (of_string (file_path a)));
           Exists (to_string (image_dir a))]
          ++ (if exists_ host w (to_string (image_dir a))
              then Glob (to_string (image_dir a)) "*.png"
                   :: map Unlink (firstn k (stale host a w))
              else []))%list)
    | Ok _ =>
        bindM (render_frames host a)
          (fun rendered =>
             match rendered with
             | None => ret 1%Z
             | Some elapsed =>
                 bindM (report host a elapsed)
                       (fun _ => make_sheet host script a)
             end)
          w1
          ([Exists (to_string (of_string (file_path a)));
            Exists (to_string (image_dir a))]
           ++ (if exists_ host w (to_string (image_dir a))
               then Glob (to_string (image_dir a)) "*.png"
                    :: map Unlink (firstn k (stale host a w))
               else []))%list
    end).
  { rewrite (main_present script a w [] Hfile).
    unfold bindM at 1. cbn [app]. rewrite Hdel.
    destruct r1; reflexivity. }
  rewrite Hmain. clear Hmain Hdel.
  destruct r1 as [[]|e]; [|reflexivity].
  destruct (spawn host w1 (manim_command a)) as [[status|e] w2] eqn:Hspawn.
  - destruct (status =? 0)%Z eqn:Hstatus;
      unfold bindM at 1; rewrite render_run, Hspawn, Hstatus; [|reflexivity].
    cbv beta iota. unfold bindM at 1. rewrite report_run.
    rewrite <- !app_assoc. reflexivity.
  - unfold bindM at 1. rewrite render_run, Hspawn. reflexivity.
Qed.


(** Every run that finds the scene file: the removal first, and then
    a rest in which nothing is removed. *)
Lemma run_split script a w :
  exists_ host w (to_string (of_string (file_path a))) = true ->
  exists k rest,
    trace host script a w =
      ([Exists (to_string (of_string (file_path a)));
        Exists (to_string (image_dir a))]
       ++ (if exists_ host w (to_string (image_dir a))
           then Glob (to_string (image_dir a)) "*.png"
                :: map Unlink (firstn k (stale host a w))
           else [])
       ++ rest)%list /\
    unlinked rest = [] /\
    (forall status, outcome host script a w = Ok status ->
       exists_ host w (to_string (image_dir a)) = true ->
       firstn k (stale host a w) = stale host a w) /\
    (spawned rest = [] \/
     spawned rest = [manim_command a] \/
     (contact_sheet a = true /\
      spawned rest = [manim_command a; sheet_command script a])) /\
    (forall status, outcome host script a w = Ok status ->
       (status = 1%Z /\
        (spawned rest = [manim_command a] \/
         spawned rest = [manim_command a; sheet_command script a])) \/
       (status = 0%Z /\
        spawned rest = manim_command a
                       :: (if contact_sheet a
                           then [sheet_command script a] else []))).
Proof.
  intros Hfile.
  destruct (run_shape script a w Hfile)
    as (k & r1 & w1 & _ & Hnone & Hall & Hrun).
  cbv zeta in Hrun. unfold trace, outcome.
  exists k.
  destruct r1 as [[]|e].
  2:{ exists []. rewrite Hrun. cbn [fst snd]. rewrite app_nil_r.
      split; [reflexivity|]. split; [reflexivity|].
      split; [discriminate|]. split; [left; reflexivity | discriminate]. }
  destruct (spawn host w1 (manim_command a)) as [[status|e] w2].
  2:{ eexists. rewrite Hrun. cbn [fst snd]. rewrite <- app_assoc.
      split; [reflexivity|]. split; [reflexivity|].
      split; [discriminate|].
      split; [right; left; reflexivity | discriminate]. }
  destruct (status =? 0)%Z.
  2:{ eexists. rewrite Hrun. cbn [fst snd]. rewrite <- !app_assoc.
      split; [reflexivity|]. split; [reflexivity|].
      split; [intros s _; exact (Hall tt eq_refl)|].
      split; [right; left; reflexivity|].
      intros s Hs. inversion Hs. left. split; [reflexivity|]. left. reflexivity. }
  destruct (report_log_quiet a (float_sub (clock host w2) (clock host w1)) w2)
    as (Hu & Hs & _).
  rewrite Hrun, make_sheet_run. clear Hrun.
  destruct (contact_sheet a).
  - cbv zeta.
    destruct (spawn host w2 (sheet_command script a)) as [[status3|e] w3];
      [destruct (status3 =? 0)%Z|];
      eexists; cbn [fst snd]; rewrite <- !app_assoc;
      (split; [reflexivity|]);
      unfold unlinked, spawned in *;
      rewrite ?flat_map_app; cbn [flat_map app];
      rewrite ?flat_map_app, ?Hu, ?Hs; cbn [flat_map app];
      (split; [reflexivity|]);
      (split; [intros s _; exact (Hall tt eq_refl)|]);
      (split; [right; right; split; reflexivity|]);
      intros s Hs'; inversion Hs'.
    + right. split; reflexivity.
    + left. split; [reflexivity|]. right. reflexivity.
  - eexists. cbn [fst snd]. rewrite <- !app_assoc.
    split; [reflexivity|].
    unfold unlinked, spawned in *.
    rewrite ?flat_map_app. cbn [flat_map app].
    rewrite ?flat_map_app, ?Hu, ?Hs. cbn [flat_map app].
    split; [reflexivity|].
    split; [intros s _; exact (Hall tt eq_refl)|].
    split; [right; left; reflexivity|].
    intros s Hs'. inversion Hs'. right. split; reflexivity.
Qed.


(** X13. The script removes nothing but stale frames: the files it
    tries to remove are, in the order of the listing, the entries of
    [media/images/<stem>] whose names end in [.png], as listed at the
    start.  It tries none when the scene file or that directory is
    missing, and all of them on every run that returns, whether the
    rendering then succeeds or not.  All removals come before the
    first command is started. *)
Theorem only_stale_frames_are_removed (script : string) (a : Args) (w : W) :
  let file := to_string (of_string (file_path a)) in
  let dir := to_string (image_dir a) in
  (exists k, unlinked (trace host script a w) = firstn k (stale host a w)) /\
  (exists_ host w file = false \/ exists_ host w dir = false ->
   unlinked (trace host script a w) = []) /\
  (forall status,
     outcome host script a w = Ok status ->
     exists_ host w file = true -> exists_ host w dir = true ->
     unlinked (trace host script a w) = stale host a w) /\
  exists before rest,
    trace host script a w = (before ++ rest)%list /\
    spawned before = [] /\ unlinked rest = [].
Proof.
  cbv zeta.
  destruct (exists_ host w (to_string (of_string (file_path a)))) eqn:Hfile.
  - destruct (run_split script a w Hfile)
      as (k & rest & Htrace & Hrest & Hall & _).
    assert (Hun : unlinked (trace host script a w) =
                  if exists_ host w (to_string (image_dir a))
                  then firstn k (stale host a w) else []).
    { rewrite Htrace, !unlinked_app, Hrest.
      destruct (exists_ host w (to_string (image_dir a))).
      - cbn [unlinked flat_map app]. fold (unlinked (map Unlink (firstn k (stale host a w)))).
        rewrite unlinked_unlinks, app_nil_r. reflexivity.
      - reflexivity. }
    split; [|split; [|split]].
    + rewrite Hun. destruct (exists_ host w (to_string (image_dir a)));
        [exists k | exists 0%nat]; reflexivity.
    + intros [H|H]; [discriminate|]. rewrite Hun, H. reflexivity.
    + intros status Hs _ Hdir. rewrite Hun, Hdir. exact (Hall status Hs Hdir).
    + eexists. exists rest. rewrite app_assoc in Htrace.
      split; [exact Htrace|]. split; [|exact Hrest].
      rewrite spawned_app.
      destruct (exists_ host w (to_string (image_dir a))); [|reflexivity].
      cbn [spawned flat_map app].
      fold (spawned (map Unlink (firstn k (stale host a w)))).
      apply spawned_unlinks.
  - unfold trace, run. rewrite (main_missing script a w [] Hfile). cbn [snd app].
    split; [exists 0%nat; reflexivity|]. split; [reflexivity|].
    split; [discriminate|].
    exists [], [Exists (to_string (of_string (file_path a)));
                Stderr ("Error: File not found: "
                        ++ to_string (of_string (file_path a)))].
    repeat split.
Qed.

(** X14. The script starts at most two commands: [manim], with the
    quality, frame rate, format, scene file and scene name of lines 63
    to 72, and after it, only when [--contact-sheet] is given, the
    contact-sheet script next to it, with the frame directory, the
    scene name and the same frame rate.  Without the scene file it
    starts nothing, reports the missing file on standard error,
    returns 1 and leaves everything as it is.  A run returns 0 or 1,
    and 0 only after [manim] and, when asked for, the contact-sheet
    script were both started. *)
Theorem refresh_commands (script : string) (a : Args) (w : W) :
  (exists_ host w (to_string (of_string (file_path a))) = false ->
   run host script a w =
     (Ok 1%Z, w,
      [Exists (to_string (of_string (file_path a)));
       Stderr ("Error: File not found: "
               ++ to_string (of_string (file_path a)))])) /\
  (spawned (trace host script a w) = [] \/
   spawned (trace host script a w) = [manim_command a] \/
   (contact_sheet a = true /\
    spawned (trace host script a w)
    = [manim_command a; sheet_command script a])) /\
  (forall status,
     outcome host script a w = Ok status -> status = 0%Z \/ status = 1%Z) /\
  (outcome host script a w = Ok 0%Z ->
   spawned (trace host script a w)
   = manim_command a
     :: (if contact_sheet a then [sheet_command script a] else [])).
Proof.
  split.
  { intros Hfile. unfold run. exact (main_missing script a w [] Hfile). }
  destruct (exists_ host w (to_string (of_string (file_path a)))) eqn:Hfile.
  - destruct (run_split script a w Hfile)
      as (k & rest & Htrace & _ & _ & Hcmds & Hstatus).
    assert (Hsp : spawned (trace host script a w) = spawned rest).
    { rewrite Htrace, !spawned_app.
      destruct (exists_ host w (to_string (image_dir a))); [|reflexivity].
      cbn [spawned flat_map app].
      fold (spawned (map Unlink (firstn k (stale host a w)))).
      rewrite spawned_unlinks. reflexivity. }
    rewrite Hsp. split; [exact Hcmds|]. split.
    + intros status Hs. destruct (Hstatus status Hs) as [[-> _]|[-> _]]; auto.
    + intros Hs. destruct (Hstatus 0%Z Hs) as [[H _]|[_ H]];
        [discriminate | exact H].
  - unfold trace, outcome, run. rewrite (main_missing script a w [] Hfile).
    cbn [fst snd app spawned flat_map].
    split; [left; reflexivity|]. split.
    + intros status Hs. inversion Hs. right. reflexivity.
    + discriminate.
Qed.

(** ** The sheet comes last *)

Lemma main_factor script a w t :
  main host script a w t =
  match main host script (without_sheet a) w t with
  | (Ok 0%Z, w2, t2) => make_sheet host script a w2 t2
  | other => other
  end.
Proof.
  destruct (exists_ host w (to_string (of_string (file_path a)))) eqn:Hfile.
  - rewrite (main_present script a w t Hfile).
    rewrite (main_present script (without_sheet a) w t Hfile).
    change (file_path (without_sheet a)) with (file_path a).
    change (delete_old_frames host (without_sheet a))
      with (delete_old_frames host a).
    change (render_frames host (without_sheet a)) with (render_frames host a).
    unfold bindM at 1 4.
    destruct (delete_old_frames host a w _) as [[[[]|e] w1] t1]; [|reflexivity].
    unfold bindM at 1 3.
    destruct (render_frames host a w1 t1) as [[[[elapsed|]|e] w2] t2];
      [|reflexivity|reflexivity].
    change (report host (without_sheet a) elapsed) with (report host a elapsed).
    unfold bindM. rewrite report_run.
    rewrite (make_sheet_run script (without_sheet a)).
    reflexivity.
  - rewrite (main_missing script a w t Hfile).
    rewrite (main_missing script (without_sheet a) w t Hfile).
    reflexivity.
Qed.

(** X15. The contact sheet is an epilogue: a run with [--contact-sheet]
    is the run without it, interaction for interaction, and when that
    run returns 0 it is followed by the start of the contact-sheet
    script in the state that run has left.  The result is then 0 when
    the script exits with 0, and 1, after an error message with the
    exit status, when it exits with anything else; when the script
    cannot be started the exception escapes. *)
Theorem sheet_is_an_epilogue (script : string) (a : Args) (w : W) :
  contact_sheet a = true ->
  (outcome host script (without_sheet a) w <> Ok 0%Z ->
   run host script a w = run host script (without_sheet a) w) /\
  (outcome host script (without_sheet a) w = Ok 0%Z ->
   let w2 := world_after host script (without_sheet a) w in
   let t2 := trace host script (without_sheet a) w in
   let cmd := sheet_command script a in
   world_after host script a w = snd (spawn host w2 cmd) /\
   match fst (spawn host w2 cmd) with
   | Raise e =>
       outcome host script a w = Raise e /\
       trace host script a w = (t2 ++ [Spawn cmd])%list
   | Ok status =>
       if (status =? 0)%Z
       then outcome host script a w = Ok 0%Z /\
            trace host script a w = (t2 ++ [Spawn cmd])%list
       else outcome host script a w = Ok 1%Z /\
            trace host script a w =
              (t2 ++ [Spawn cmd;
                      Stderr
                        ("Error: Contact sheet generation failed with exit code "
                         ++ str_of_Z status)])%list
   end).
Proof.
  intros Hsheet. unfold outcome, world_after, trace, run.
  rewrite (main_factor script a w []).
  destruct (main host script (without_sheet a) w []) as [[r w2] t2].
  cbn [fst snd]. split.
  - intros Hr. destruct r as [[|p|p]|e]; try reflexivity.
    exfalso. apply Hr. reflexivity.
  - intros ->. cbv zeta. rewrite make_sheet_run, Hsheet. cbv zeta.
    destruct (spawn host w2 (sheet_command script a)) as [[status|e] w3];
      cbn [fst snd].
    + destruct (status =? 0)%Z; cbn [fst snd].
      * repeat split.
      * rewrite <- app_assoc. repeat split.
    + repeat split.
Qed.


(** ** The report *)

Lemma name_le_refl x : name_le x x.
Proof. destruct (name_le_total x x); assumption. Qed.

(** In a sorted list the first element is the least and the last the
    greatest. *)
Lemma sorted_ends l first rest n :
  StronglySorted name_le l -> l = first :: rest -> In n l ->
  name_le first n /\ name_le n (last l EmptyString).
Proof.
  intros Hs -> Hn. split.
  - inversion Hs as [|? ? _ Hall]; subst. destruct Hn as [->|Hn].
    + apply name_le_refl.
    + rewrite Forall_forall in Hall. exact (Hall n Hn).
  - clear - Hs Hn. revert first Hs Hn.
    induction rest as [|y rest IH]; intros first Hs Hn.
    + destruct Hn as [->|[]]. apply name_le_refl.
    + inversion Hs as [|? ? Hs' Hall]; subst.
      destruct Hn as [->|Hn].
      * rewrite Forall_forall in Hall.
        change (last (n :: y :: rest) EmptyString)
          with (last (y :: rest) EmptyString).
        apply Hall.
        destruct (exists_last (l := y :: rest) ltac:(discriminate))
          as (l' & z & E).
        rewrite E, last_last. apply in_or_app. right. left. reflexivity.
      * change (last (first :: y :: rest) EmptyString)
          with (last (y :: rest) EmptyString).
        exact (IH y Hs' Hn).
Qed.

(** X16. When [manim] has exited with 0 the script prints three lines,
    or two when there is no frame: the announcement of the rendering,
    the number of entries of the frame directory whose names end in
    [.png], counted after the rendering, with the time to one decimal
    and the frame rate, and the range of the frames, from the least
    to the greatest name in code-point order.  The time is the
    difference of two readings of the clock: one on the machine as the
    run of [manim] left it, one on the machine as the removal of the
    old frames left it, before [manim] was started.  The report leaves
    the machine as it is, and the contact sheet adds no line. *)
Theorem report_of_rendered_frames (script : string) (a : Args) (w : W) :
  outcome host script (without_sheet a) w = Ok 0%Z ->
  let dir := to_string (image_dir a) in
  let w1 := swept host a w in
  let w2 := world_after host script (without_sheet a) w in
  let shown := frames host a w2 in
  w2 = snd (spawn host w1 (manim_command a)) /\
  elapsed_time host a w = float_sub (clock host w2) (clock host w1) /\
  printed (trace host script a w) =
    ("Rendering " ++ scene_name a ++ " from "
       ++ to_string (of_string (file_path a))
       ++ " at " ++ str_of_Z (fps a) ++ " FPS...")
    :: ("Rendered " ++ str_of_Z (len shown) ++ " frames in "
          ++ format_1f (elapsed_time host a w) ++ "s at "
          ++ str_of_Z (fps a) ++ " FPS")
    :: match shown with
       | [] => []
       | first_frame :: _ =>
           ["Frame images: " ++ resolve host w2 dir ++ "/"
              ++ first_frame ++ " to " ++ last shown EmptyString]
       end /\
  (forall n, In n shown <->
             exists_ host w2 dir = true /\
             In n (listdir host w2 dir) /\ endswith n ".png" = true) /\
  (forall n, In n shown ->
             name_le (hd EmptyString shown) n /\
             name_le n (last shown EmptyString)).
Proof.
  intros Hok. cbv zeta.
  assert (Hfile : exists_ host w (to_string (of_string (file_path a))) = true).
  { destruct (exists_ host w (to_string (of_string (file_path a)))) eqn:Hf;
      [reflexivity|].
    unfold outcome, run in Hok.
    rewrite (main_missing script (without_sheet a) w [] Hf) in Hok.
    discriminate. }
  assert (Hrun : world_after host script (without_sheet a) w
                 = snd (spawn host (swept host a w) (manim_command a)) /\
                 printed (trace host script (without_sheet a) w) =
                   ("Rendering " ++ scene_name a ++ " from "
                      ++ to_string (of_string (file_path a))
                      ++ " at " ++ str_of_Z (fps a) ++ " FPS...")
                   :: printed (report_log host a (elapsed_time host a w)
                                 (world_after host script (without_sheet a) w))).
  { destruct (run_shape script (without_sheet a) w Hfile)
      as (k & r1 & w1 & Hw1 & _ & _ & Hrun).
    change (swept host (without_sheet a) w) with (swept host a w) in Hw1.
    cbv zeta in Hrun. unfold outcome, world_after, trace in *.
    destruct r1 as [[]|e]; [|rewrite Hrun in Hok; discriminate].
    unfold elapsed_time. rewrite <- Hw1.
    change (manim_command a) with (manim_command (without_sheet a)).
    destruct (spawn host w1 (manim_command (without_sheet a)))
      as [[status|e] w2]; [|rewrite Hrun in Hok; discriminate].
    destruct (status =? 0)%Z; [|rewrite Hrun in Hok; discriminate].
    rewrite make_sheet_run in Hrun. cbn [contact_sheet without_sheet] in Hrun.
    rewrite Hrun. cbn [fst snd]. split; [reflexivity|].
    change (image_dir (without_sheet a)) with (image_dir a) in *.
    rewrite !printed_app.
    assert (Hnone : printed
              (if exists_ host w (to_string (image_dir a))
               then Glob (to_string (image_dir a)) "*.png"
                    :: map Unlink
                         (firstn k (stale host (without_sheet a) w))
               else []) = []).
    { destruct (exists_ host w (to_string (image_dir a))); [|reflexivity].
      cbn [printed flat_map app].
      fold (printed (map Unlink (firstn k (stale host (without_sheet a) w)))).
      apply printed_unlinks. }
    rewrite Hnone. cbn [printed flat_map app].
    reflexivity. }
  destruct Hrun as [Hw2 Hprinted].
  split; [exact Hw2|].
  split; [unfold elapsed_time; rewrite <- Hw2; reflexivity|].
  split; [|split].
  - (* the lines of the run without the sheet *)
    assert (Hsame : printed (trace host script a w)
                    = printed (trace host script (without_sheet a) w)).
    { unfold trace, run. rewrite (main_factor script a w []).
      unfold outcome, run in Hok.
      destruct (main host script (without_sheet a) w []) as [[r w2] t2].
      cbn [fst snd] in *. subst r.
      rewrite make_sheet_run.
      destruct (contact_sheet a); [|reflexivity]. cbv zeta.
      destruct (spawn host w2 (sheet_command script a)) as [[status|e] w3];
        [destruct (status =? 0)%Z|]; cbn [snd];
        rewrite ?printed_app; cbn [printed flat_map app];
        rewrite ?app_nil_r; reflexivity. }
    rewrite Hsame, Hprinted. clear Hsame Hprinted.
    destruct (report_log_quiet (without_sheet a) (elapsed_time host a w)
                (world_after host script (without_sheet a) w))
      as (_ & _ & Hp).
    change (frames host (without_sheet a)) with (frames host a) in Hp.
    change (image_dir (without_sheet a)) with (image_dir a) in Hp.
    change (report_log host (without_sheet a)) with (report_log host a) in Hp.
    rewrite Hp. reflexivity.
  - clear Hfile Hw2. intros n. unfold frames.
    destruct (exists_ host _ (to_string (image_dir a))).
    + split; intros H.
      * apply (Permutation_in n (sorted_perm _)) in H.
        apply filter_In in H. tauto.
      * apply (Permutation_in n (Permutation_sym (sorted_perm _))).
        apply filter_In. tauto.
    + split; [contradiction | intros [H _]; discriminate].
  - clear Hfile Hw2 Hprinted. intros n Hn.
    destruct (frames host a _) as [|first rest] eqn:Hshown; [contradiction|].
    cbn [hd]. rewrite <- Hshown in *.
    apply (sorted_ends _ first rest n); [|exact Hshown|exact Hn].
    unfold frames. destruct (exists_ host _ _); [apply sorted_sorted | constructor].
Qed.

End RefreshRuns.

Lemma only_stale_frames_are_removed_witness :
  unlinked (trace RefreshDemo.host "/opt/skill/scripts/refresh_frames.py"
              (RefreshDemo.args true) RefreshDemo.before)
  = ["media/images/foo/Foo0000.png"; "media/images/foo/Foo0007.png"].
Proof.
  destruct (only_stale_frames_are_removed RefreshDemo.host
              "/opt/skill/scripts/refresh_frames.py"
              (RefreshDemo.args true) RefreshDemo.before)
    as (_ & _ & H & _).
  rewrite (H 0%Z); reflexivity.
Defined.

Lemma refresh_commands_witness :
  spawned (trace RefreshDemo.host "/opt/skill/scripts/refresh_frames.py"
             (RefreshDemo.args true) RefreshDemo.before)
  = [["manim"; "-ql"; "--fps"; "2"; "--format=png"; "--silent"; "foo.py"; "Foo"];
     ["python3"; "/opt/skill/scripts/make_contact_sheet.py";
      "media/images/foo"; "--scene-name"; "Foo"; "--fps"; "2"]].
Proof.
  destruct (refresh_commands RefreshDemo.host
              "/opt/skill/scripts/refresh_frames.py"
              (RefreshDemo.args true) RefreshDemo.before)
    as (_ & _ & _ & H).
  rewrite H; reflexivity.
Defined.

Lemma sheet_is_an_epilogue_witness :
  trace RefreshDemo.host "/opt/skill/scripts/refresh_frames.py"
    (RefreshDemo.args true) RefreshDemo.before
  = (trace RefreshDemo.host "/opt/skill/scripts/refresh_frames.py"
       (RefreshDemo.args false) RefreshDemo.before
     ++ [Spawn ["python3"; "/opt/skill/scripts/make_contact_sheet.py";
                "media/images/foo"; "--scene-name"; "Foo"; "--fps"; "2"]])%list.
Proof.
  destruct (sheet_is_an_epilogue RefreshDemo.host
              "/opt/skill/scripts/refresh_frames.py"
              (RefreshDemo.args true) RefreshDemo.before eq_refl)
    as [_ H].
  destruct (H eq_refl) as [_ Htrace].
  exact (proj2 Htrace).
Defined.

Lemma report_of_rendered_frames_witness :
  printed (trace RefreshDemo.host "/opt/skill/scripts/refresh_frames.py"
             (RefreshDemo.args true) RefreshDemo.before)
  = ["Rendering Foo from foo.py at 2 FPS...";
     "Rendered 3 frames in 2.5s at 2 FPS";
     "Frame images: /home/user/media/images/foo/Foo0000.png to Foo0002.png"].
Proof.
  destruct (report_of_rendered_frames RefreshDemo.host
              "/opt/skill/scripts/refresh_frames.py"
              (RefreshDemo.args true) RefreshDemo.before eq_refl)
    as (_ & _ & H & _).
  exact H.
Defined.
